(** * Quackademic-Excellence: content synchronisation and change notification

    A shallow embedding of the notification bot ([src/bot.js], in its
    flat-file and its MongoDB variants) and the properties of its cache
    refresh, change notifier, chunking protocol, scheduler gate, settings
    handler and slash-command name generation. *)

From Stdlib Require Import ZArith NArith Lia List Bool Ascii String.
From Equations Require Import Equations.
From stdpp Require Import base decidable option list gmap.

Set Default Proof Using "Type".
Local Open Scope N_scope.

(** ** JavaScript strings

    A JavaScript string is a finite sequence of UTF-16 code units.
    [content.length], [slice] and the regular expressions of the program
    all work on code units, so a string is a list of code units. *)

Abbreviation jsstring := (list N).

(** A Rocq literal read as a JavaScript string (one code unit per
    character; only used to write ASCII literals of the program). *)
Definition str (s : string) : jsstring :=
  map N_of_ascii (list_ascii_of_string s).

(** [s.slice(a, b)] for [0 <= a] and [0 <= b]. *)
Definition slice (s : jsstring) (a b : nat) : jsstring :=
  take (b - a) (drop a s).

Module Chunking.

(** The loop
    [for (let i = 0; i < content.length; i += 1900)
       chunks.push(content.slice(i, i + 1900));]
    started at index [i] with [chunks] already pushed. *)
Equations? chunkLoop (content : jsstring) (i : nat) (chunks : list jsstring)
  : list jsstring by wf (length content - i)%nat lt :=
  chunkLoop content i chunks with decide (i < length content)%nat := {
    | left _ => chunkLoop content (i + 1900) (chunks ++ [slice content i (i + 1900)])
    | right _ => chunks }.
Proof. lia. Qed.

Definition chunksOf (content : jsstring) : list jsstring :=
  chunkLoop content 0 [].

(** Messages handed to [channel.send].  The embed colour is a constant and
    the timestamp is the wall-clock time of the send; neither takes part
    in any property below and both are left out. *)
Record Message := mkMessage {
  msg_content : option jsstring;      (* [content]: the role mentions *)
  msg_title : option jsstring;        (* [embeds[0].title] *)
  msg_description : jsstring          (* [embeds[0].description] *)
}.

(** [roleMentions || undefined] *)
Definition orUndefined (s : jsstring) : option jsstring :=
  match s with [] => None | _ => Some s end.

Definition placeholderMessage (pageName roleMentions : jsstring) : Message :=
  mkMessage (orUndefined roleMentions) (Some (str "Update: " ++ pageName))
            (str "No content found.").

(** The block shared by the notification job and the [/testping] handler:
    the chunks of [content] are built, then either the placeholder or the
    primary message followed by the continuation messages is sent. *)
Definition updateMessages (pageName roleMentions content : jsstring)
  : list Message :=
  match chunksOf content with
  | [] => [placeholderMessage pageName roleMentions]
  | chunk0 :: rest =>
      mkMessage (orUndefined roleMentions) (Some (str "Update: " ++ pageName))
                chunk0
      :: map (fun c => mkMessage None None c) rest
  end.

(** The ceiling of [a / b]. *)
Definition ceilDiv (a b : nat) : nat := ((a + (b - 1)) / b)%nat.

End Chunking.

(** ** Name normalisation *)

Module Normalize.

Definition underscore : N := 95.

(** The character class [[a-z0-9]]. *)
Definition isLowerAlnum (c : N) : bool :=
  ((97 <=? c) && (c <=? 122)) || ((48 <=? c) && (c <=? 57)).

Definition notLowerAlnum (c : N) : bool := negb (isLowerAlnum c).

Definition isUnderscore (c : N) : bool := c =? underscore.

(** [s.replace(/C+/g, '_')] for a character class [C], scanning left to
    right: [inRun] tells that the previous code unit belonged to the match
    being consumed, whose replacement has already been emitted. *)
Fixpoint replaceRuns (inClass : N -> bool) (inRun : bool) (s : jsstring)
  : jsstring :=
  match s with
  | [] => []
  | c :: s' =>
      if inClass c
      then (if inRun then replaceRuns inClass true s'
            else underscore :: replaceRuns inClass true s')
      else c :: replaceRuns inClass false s'
  end.

Fixpoint dropWhile (p : N -> bool) (s : jsstring) : jsstring :=
  match s with
  | [] => []
  | c :: s' => if p c then dropWhile p s' else s
  end.

Fixpoint dropWhileEnd (p : N -> bool) (s : jsstring) : jsstring :=
  match s with
  | [] => []
  | c :: s' =>
      match dropWhileEnd p s' with
      | [] => if p c then [] else [c]
      | r => c :: r
      end
  end.

(** [s.replace(/^_+|_+$/g, '')] *)
Definition stripUnderscores (s : jsstring) : jsstring :=
  dropWhileEnd isUnderscore (dropWhile isUnderscore s).

Section WithLowerCase.

(** [String.prototype.toLowerCase] is the engine's Unicode lower-case
    mapping; the program does not depend on which one it is. *)
Variable toLowerCase : jsstring -> jsstring.

(** [name.toLowerCase().replace(/[^a-z0-9]+/g, '_')
        .replace(/^_+|_+$/g, '').replace(/_+/g, '_')], the chain shared by
    [normalizeDropdownName] and the command registration. *)
Definition normalizeChain (name : jsstring) : jsstring :=
  replaceRuns isUnderscore false
    (stripUnderscores
       (replaceRuns notLowerAlnum false (toLowerCase name))).

Definition normalizeDropdownName (name : jsstring) : jsstring :=
  slice (normalizeChain name) 0 32.

(** The normalisation as the specification words it: lower-case; every
    non-alphanumeric character becomes ['_'] and a ['_'] that follows
    another one is dropped (a run collapses to one); leading and trailing
    ['_'] are removed; the result is cut to 32 characters. *)
Fixpoint dedupUnderscores (s : jsstring) : jsstring :=
  match s with
  | [] => []
  | c :: s' =>
      match s' with
      | c' :: _ =>
          if isUnderscore c && isUnderscore c' then dedupUnderscores s'
          else c :: dedupUnderscores s'
      | [] => [c]
      end
  end.

Definition spec_collapse (s : jsstring) : jsstring :=
  dedupUnderscores (map (fun c => if isLowerAlnum c then c else underscore) s).

Definition spec_strip (s : jsstring) : jsstring :=
  rev (dropWhile isUnderscore (rev (dropWhile isUnderscore s))).

Definition spec_normalize (label : jsstring) : jsstring :=
  take 32 (spec_strip (spec_collapse (toLowerCase label))).

End WithLowerCase.

(** No two neighbouring code units are both ['_']. *)
Fixpoint noAdjacentUnderscores (s : jsstring) : Prop :=
  match s with
  | [] => True
  | c :: s' =>
      match s' with
      | [] => True
      | c' :: _ => ~ (isUnderscore c = true /\ isUnderscore c' = true)
      end /\ noAdjacentUnderscores s'
  end.

(** Lower-casing restricted to ASCII labels, for concrete runs. *)
Definition asciiLower (s : jsstring) : jsstring :=
  map (fun c => if (65 <=? c) && (c <=? 90) then c + 32 else c) s.

End Normalize.

(** ** Scheduler gate *)

Module Gate.
Local Open Scope Z_scope.

(** The loop of [notificationScheduler]:
    [let t = 15 * 60 + 33;
     while (t <= 22 * 60) { if (nowMinutes === t) { allowed = true; break; }
                            t += 30; }] entered with the current [t]. *)
Equations? slotLoop (nowMinutes t : Z) : bool
  by wf (Z.to_nat (22 * 60 + 1 - t)) lt :=
  slotLoop nowMinutes t with decide (t <= 22 * 60) := {
    | left _ => if decide (nowMinutes = t) then true
                else slotLoop nowMinutes (t + 30)
    | right _ => false }.
Proof. lia. Qed.

Definition allowed (hour minute : Z) : bool :=
  slotLoop (hour * 60 + minute) (15 * 60 + 33).

End Gate.

(** ** Effects: mutable state and exceptions

    An [async] function of the program is a state transformer that
    either returns or throws (its promise rejects); the state reached at
    the throw is kept, as assignments made before it are. *)

Module Eff.

Inductive outcome (A : Type) : Type :=
| Returned (a : A)
| Threw.
Arguments Returned {A} a.
Arguments Threw {A}.

Definition M (S A : Type) : Type := S -> outcome A * S.

Definition ret {S A} (a : A) : M S A := fun s => (Returned a, s).

Definition bind {S A B} (m : M S A) (k : A -> M S B) : M S B :=
  fun s => match m s with
           | (Returned a, s') => k a s'
           | (Threw, s') => (Threw, s')
           end.

Definition throw {S A} : M S A := fun s => (Threw, s).

(** [try { m } catch { h }] *)
Definition tryCatch {S A} (m : M S A) (h : M S A) : M S A :=
  fun s => match m s with
           | (Returned a, s') => (Returned a, s')
           | (Threw, s') => h s'
           end.

Definition gets {S A} (f : S -> A) : M S A := fun s => (Returned (f s), s).

Definition modify {S} (f : S -> S) : M S unit := fun s => (Returned tt, f s).

(** [for (const x of l) { body }] *)
Fixpoint forOf {S A} (l : list A) (body : A -> M S unit) : M S unit :=
  match l with
  | [] => ret tt
  | x :: l' => bind (body x) (fun _ => forOf l' body)
  end.

Definition returned {A} (o : outcome A) : bool :=
  match o with Returned _ => true | Threw => false end.

End Eff.

Import Eff.

Notation "'let!' x ':=' m 'in' k" := (bind m (fun x => k))
  (at level 10, x name, m at level 100, k at level 200,
   format "'[v' 'let!'  x  ':='  m  'in' '/' k ']'").
Notation "m '>>' k" := (bind m (fun _ => k))
  (at level 90, right associativity).

(** ** Strings written and read back as UTF-8 *)

Module Utf8.

Definition isHighSurrogate (c : N) : bool := (55296 <=? c) && (c <=? 56319).
Definition isLowSurrogate (c : N) : bool := (56320 <=? c) && (c <=? 57343).

(** U+FFFD, the replacement character. *)
Definition replacement : N := 65533.

(** What a string is after it was encoded as UTF-8 and decoded again
    ([fs.writeFile] and [fs.readFile] with ['utf8'], a BSON string): a
    high surrogate followed by a low one is a character and comes back
    as it was; every other surrogate comes back as U+FFFD. *)
Fixpoint toWellFormed (s : jsstring) : jsstring :=
  match s with
  | [] => []
  | c :: s' =>
      if isHighSurrogate c then
        match s' with
        | d :: s'' =>
            if isLowSurrogate d then c :: d :: toWellFormed s''
            else replacement :: toWellFormed s'
        | [] => [replacement]
        end
      else if isLowSurrogate c then replacement :: toWellFormed s'
      else c :: toWellFormed s'
  end.

(** A code unit that is no surrogate. *)
Definition plain (c : N) : Prop :=
  isHighSurrogate c = false /\ isLowSurrogate c = false.

End Utf8.

(** ** Plain objects used as maps *)

Module PlainObject.

(** The properties a plain object ([{}], [Object.fromEntries(...)])
    inherits from [Object.prototype], each with the number of elements
    [Array.from] makes of its value: the [length] of the function, and
    none of the object that [__proto__] gives.  A read [obj[key]] finds
    the object's own property and, when it has none of that name, the
    inherited one. *)
Definition inherited : list (jsstring * nat) :=
  [(str "constructor", 1%nat);
   (str "__defineGetter__", 2%nat);
   (str "__defineSetter__", 2%nat);
   (str "hasOwnProperty", 1%nat);
   (str "__lookupGetter__", 1%nat);
   (str "__lookupSetter__", 1%nat);
   (str "isPrototypeOf", 1%nat);
   (str "propertyIsEnumerable", 1%nat);
   (str "toString", 0%nat);
   (str "valueOf", 0%nat);
   (str "__proto__", 0%nat);
   (str "toLocaleString", 0%nat)].

Fixpoint lookup (key : jsstring) (l : list (jsstring * nat)) : option nat :=
  match l with
  | [] => None
  | (k, n) :: l' => if decide (key = k) then Some n else lookup key l'
  end.

Definition inheritedLength (key : jsstring) : option nat :=
  lookup key inherited.

End PlainObject.

(** ** Content cache *)

Module Cache.
Section WithAdapter.

(** The Source Adapter: the Puppeteer page is its state, and
    [getContentForDropdownItem] either returns the scraped content or
    throws. *)
Variable Page : Type.
Variable getContentForDropdownItem :
  Page -> jsstring -> Page * option jsstring.

(** The key under which an item is stored: the normalised file name in
    the flat-file variant, the label itself in the MongoDB variant. *)
Variable cacheKey : jsstring -> jsstring.

(** Whether the store accepts the write ([fs.writeFile], [updateOne]). *)
Variable writeOk : jsstring -> jsstring -> bool.

Record State := mkState {
  page : Page;
  store : gmap jsstring jsstring
}.

Definition fetch (item : jsstring) : M State jsstring :=
  fun st =>
    match getContentForDropdownItem (page st) item with
    | (pg, Some content) => (Returned content, mkState pg (store st))
    | (pg, None) => (Threw, mkState pg (store st))
    end.

(** The store holds what a read gives back: the content after its way
    through UTF-8. *)
Definition writeDropdownCache (item content : jsstring) : M State unit :=
  fun st =>
    if writeOk (cacheKey item) content
    then (Returned tt,
          mkState (page st)
            (<[cacheKey item := Utf8.toWellFormed content]> (store st)))
    else (Threw, st).

(** [for (const item of dropdownItems) {
       try { const content = await getContentForDropdownItem(page, item);
             await writeDropdownCache(item, content); } catch {} }] *)
Definition updateAllDropdownCache (dropdownItems : list jsstring)
  : M State unit :=
  forOf dropdownItems (fun item =>
    tryCatch
      (let! content := fetch item in
       writeDropdownCache item content)
      (ret tt)).

End WithAdapter.

(** [readDropdownCache]: the stored content, or [''] when there is none. *)
Definition readDropdownCache (cacheKey : jsstring -> jsstring)
    (store : gmap jsstring jsstring) (item : jsstring) : jsstring :=
  default [] (store !! cacheKey item).

End Cache.

(** ** Change notifier *)

Module Notifier.
Import Chunking.

(** [guildSettings[guildId]]: the pages are a [Set] and the role sets are
    [Set]s, both iterated in insertion order. *)
Record Settings := mkSettings {
  pages : list jsstring;
  roles : gmap jsstring (list jsstring);
  channel : option jsstring
}.

(** One call of [channel.send]; [ev_page] records the page on whose
    behalf the message was sent. *)
Record SendEvent := mkSendEvent {
  ev_guild : jsstring;
  ev_channel : jsstring;
  ev_page : jsstring;
  ev_message : Message
}.

(** The state a pass works on: the Dedup Ledger [lastSentContent], the
    messages accepted by the Delivery Sink, and the
    [[Notify] Sent update for ...] lines of the console.  The ledger is a
    plain object of plain objects, read and written by property name;
    guild ids and page labels are taken to be ordinary property names
    (the one name a JavaScript object treats specially, [__proto__], is
    not a label the model covers). *)
Record State := mkState {
  lastSentContent : gmap jsstring (gmap jsstring jsstring);
  sent : list SendEvent;
  notified : list (jsstring * jsstring)
}.

(** [lastSentContent[guildId][pageName]]; [None] is [undefined]. *)
Definition ledgerGet (st : State) (guildId pageName : jsstring)
  : option jsstring :=
  match lastSentContent st !! guildId with
  | Some pgs => pgs !! pageName
  | None => None
  end.

(** [roleIds.map(id => `<@&${id}>`).join(' ')] *)
Fixpoint joinSpace (l : list jsstring) : jsstring :=
  match l with
  | [] => []
  | [x] => x
  | x :: l' => x ++ str " " ++ joinSpace l'
  end.

(** [(settings.roles && settings.roles[pageName])
       ? Array.from(settings.roles[pageName]) : []]: the role set of the
    page; [settings.roles] is a plain object, so for a page without a
    role set whose name is a member of [Object.prototype] the read finds
    that member, of which [Array.from] makes a list of [undefined]s. *)
Definition roleIds (settings : Settings) (pageName : jsstring)
  : list jsstring :=
  match roles settings !! pageName with
  | Some rs => rs
  | None =>
      match PlainObject.inheritedLength pageName with
      | Some n => replicate n (str "undefined")
      | None => []
      end
  end.

Definition roleMentions (settings : Settings) (pageName : jsstring)
  : jsstring :=
  joinSpace (map (fun id => str "<@&" ++ id ++ str ">")
                 (roleIds settings pageName)).

(** [!settings.channel]: [null] and [''] are both falsy. *)
Definition channelOf (settings : Settings) : option jsstring :=
  match channel settings with
  | Some [] => None
  | c => c
  end.

(** The messages sent on behalf of the pair [(guildId, pageName)], and
    the number of notifications logged as sent for it. *)
Definition eventsFor (guildId pageName : jsstring) (l : list SendEvent)
  : list SendEvent :=
  filter (fun ev => ev_guild ev = guildId /\ ev_page ev = pageName) l.

Definition deliveries (guildId pageName : jsstring)
    (l : list (jsstring * jsstring)) : nat :=
  length (filter (fun x => x = (guildId, pageName)) l).

(** What a state holds about one pair: its ledger entry, the messages
    sent for it and the number of its notifications. *)
Definition pairView (guildId pageName : jsstring) (st : State)
  : option jsstring * list SendEvent * nat :=
  (ledgerGet st guildId pageName,
   eventsFor guildId pageName (sent st),
   deliveries guildId pageName (notified st)).

Section WithEnvironment.

Variable cacheKey : jsstring -> jsstring.
(** Whether reading the cache entry of an item succeeds (the flat-file
    reader never throws). *)
Variable readOk : jsstring -> bool.
(** [client.guilds.cache]: for each guild its channel cache, which gives
    the type of each channel (0 is a text channel). *)
Variable guilds : gmap jsstring (gmap jsstring N).
(** The Delivery Sink: whether a send is accepted, given those accepted
    so far. *)
Variable sendOk : list SendEvent -> SendEvent -> bool.
(** Whether [saveLastSentContent] succeeds (the flat-file writer swallows
    its errors and so always does). *)
Variable saveOk : gmap jsstring (gmap jsstring jsstring) -> bool.

(** The content cache is only read by a pass. *)
Variable cache : gmap jsstring jsstring.

Definition readCache (pageName : jsstring) : M State jsstring :=
  if readOk pageName
  then ret (Cache.readDropdownCache cacheKey cache pageName)
  else throw.

Definition send (guildId channelId pageName : jsstring) (msg : Message)
  : M State unit :=
  fun st =>
    let ev := mkSendEvent guildId channelId pageName msg in
    if sendOk (sent st) ev
    then (Returned tt,
          mkState (lastSentContent st) (sent st ++ [ev]) (notified st))
    else (Threw, st).

(** [lastSentContent[guildId][pageName] = content] *)
Definition ledgerSet (guildId pageName content : jsstring) : M State unit :=
  modify (fun st =>
    mkState (<[guildId :=
               <[pageName := content]>
                 (default ∅ (lastSentContent st !! guildId))]>
               (lastSentContent st))
            (sent st) (notified st)).

Definition saveLastSentContent : M State unit :=
  fun st => if saveOk (lastSentContent st) then (Returned tt, st)
            else (Threw, st).

Definition logNotify (guildId pageName : jsstring) : M State unit :=
  modify (fun st =>
    mkState (lastSentContent st) (sent st)
            (notified st ++ [(guildId, pageName)])).

(** The change gate [content && content !== lastSentContent[g][p]]. *)
Definition changed (content : jsstring) (last : option jsstring) : bool :=
  negb (bool_decide (content = [])) && negb (bool_decide (last = Some content)).

(** The body of [for (const pageName of settings.pages)]: only the cache
    read is inside a [try], whose [catch] is [continue]; the sends, the
    ledger update and the save are not guarded. *)
Definition notifyPage (guildId channelId : jsstring) (settings : Settings)
    (pageName : jsstring) : M State unit :=
  let! read := tryCatch (let! content := readCache pageName in
                         ret (Some content))
                        (ret None) in
  match read with
  | None => ret tt
  | Some content =>
      let! last := gets (fun st => ledgerGet st guildId pageName) in
      if changed content last then
        forOf (updateMessages pageName (roleMentions settings pageName) content)
              (send guildId channelId pageName) >>
        ledgerSet guildId pageName content >>
        saveLastSentContent >>
        logNotify guildId pageName
      else ret tt
  end.

(** [if (!lastSentContent[guildId]) lastSentContent[guildId] = {};] *)
Definition ensureLedger (guildId : jsstring) : M State unit :=
  modify (fun st =>
    match lastSentContent st !! guildId with
    | Some _ => st
    | None => mkState (<[guildId := ∅]> (lastSentContent st))
                      (sent st) (notified st)
    end).

(** The channel a tenant's notifications go to, when every guard of the
    loop body lets the tenant through. *)
Definition targetChannel (guildId : jsstring) (settings : Settings)
  : option jsstring :=
  match channelOf settings, pages settings with
  | None, _ => None
  | _, [] => None
  | Some ch, _ =>
      match guilds !! guildId with
      | None => None
      | Some channels =>
          match channels !! ch with
          | Some 0 => Some ch
          | _ => None
          end
      end
  end.

(** The body of [for (const [guildId, settings] of
    Object.entries(guildSettings))]. *)
Definition notifyGuild (entry : jsstring * Settings) : M State unit :=
  let '(guildId, settings) := entry in
  match targetChannel guildId settings with
  | None => ret tt
  | Some ch =>
      ensureLedger guildId >>
      forOf (pages settings) (notifyPage guildId ch settings)
  end.

Definition runNotificationJob (guildSettings : list (jsstring * Settings))
  : M State unit :=
  forOf guildSettings notifyGuild.

(** A page whose change gate stays closed for a tenant whose ledger entry
    is [last]: its cache entry cannot be read, is empty, or is what the
    ledger already holds. *)
Definition settled (pageName : jsstring) (last : option jsstring) : Prop :=
  readOk pageName = false \/
  Cache.readDropdownCache cacheKey cache pageName = [] \/
  last = Some (Cache.readDropdownCache cacheKey cache pageName).

End WithEnvironment.

End Notifier.

(** ** Scheduler *)

Module Scheduler.

(** [nowMinutes] of a clock reading [(hour, minute)]. *)
Definition minuteOf (clock : Z * Z) : Z := (clock.1 * 60 + clock.2)%Z.

Section WithJob.

(** The state the notification job works on and the job itself. *)
Variable World : Type.
Variable runNotificationJob : M World unit.

(** [lastMinuteChecked] ([None] is [null]), the
    [[Scheduler] Running notification job at h:m] lines of the console,
    and the state of the job. *)
Record State := mkState {
  lastMinuteChecked : option Z;
  running : list (Z * Z);
  world : World
}.

Definition runJob : M State unit :=
  fun st =>
    let '(o, w) := runNotificationJob (world st) in
    (o, mkState (lastMinuteChecked st) (running st) w).

(** One execution of [notificationScheduler] with the clock reading
    [hour]:[minute] in Central Time.  Returning stands for reaching the
    final [setTimeout], which arms the next execution; when the job
    throws that line is not reached. *)
Definition notificationScheduler (clock : Z * Z) : M State unit :=
  let '(hour, minute) := clock in
  let nowMinutes := (hour * 60 + minute)%Z in
  let! last := gets lastMinuteChecked in
  if Gate.allowed hour minute && negb (bool_decide (last = Some nowMinutes))
  then
    modify (fun st => mkState (lastMinuteChecked st)
                              (running st ++ [(hour, minute)]) (world st)) >>
    runJob >>
    modify (fun st => mkState (Some nowMinutes) (running st) (world st))
  else ret tt.

(** The chain of executions armed one by the other, given the clock
    reading at each of them. *)
Definition schedulerChain (clocks : list (Z * Z)) : M State unit :=
  forOf clocks notificationScheduler.

End WithJob.
End Scheduler.

(** ** Tenant registry and the select-menu handler (flat-file variant) *)

Module Registry.
Import Notifier.

(** A JavaScript object used as a map from names to values, with its
    properties in insertion order ([Object.entries]; guild ids are
    snowflakes, too large to be array indices, so no key is reordered). *)
Fixpoint alookup {A} (k : jsstring) (l : list (jsstring * A)) : option A :=
  match l with
  | [] => None
  | (k', v) :: l' => if decide (k = k') then Some v else alookup k l'
  end.

(** [obj[k] = v]: an existing property keeps its place. *)
Fixpoint aset {A} (k : jsstring) (v : A) (l : list (jsstring * A))
  : list (jsstring * A) :=
  match l with
  | [] => [(k, v)]
  | (k', v') :: l' =>
      if decide (k = k') then (k, v) :: l' else (k', v') :: aset k v l'
  end.

(** [new Set(values)]: the distinct values, first occurrences in order. *)
Definition newSet (values : list jsstring) : list jsstring :=
  fold_left (fun acc v => if decide (v ∈ acc) then acc else acc ++ [v])
            values [].

Record Interaction := mkInteraction {
  guildId : jsstring;
  customId : jsstring;
  values : list jsstring;
  isGuildAdminOrOwner : bool
}.

(** What the handler does to the outside, in order. *)
Inductive Effect :=
| Reply (content : jsstring)
| WriteFile (data : list (jsstring * Settings)) (ok : bool)
| ConsoleError.

(** [guildSettings], the content of [guildSettings.json] ([None] while
    the file does not exist), and the effects so far. *)
Record State := mkState {
  guildSettings : list (jsstring * Settings);
  settingsFile : option (list (jsstring * Settings));
  effects : list Effect
}.

(** The record a select menu leaves for the guild and the confirmation
    it replies with, for the three menus of [/settings]. *)
Definition selection (i : Interaction) (settings : Settings)
  : option (Settings * jsstring) :=
  if decide (customId i = str "select_pages") then
    Some (mkSettings (newSet (values i)) (roles settings) (channel settings),
          str "Pages to monitor updated.")
  else if decide (customId i = str "select_roles") then
    Some (mkSettings (pages settings)
            (fold_left (fun r pg => <[pg := newSet (values i)]> r)
                       (pages settings) (roles settings))
            (channel settings),
          str "Roles to ping updated.")
  else if decide (customId i = str "select_channel") then
    Some (mkSettings (pages settings) (roles settings) (values i !! 0%nat),
          str "Channel for updates set.")
  else None.

Section WithStore.

(** Whether [fs.writeFile] succeeds and whether [interaction.reply]
    does. *)
Variable writeOk : list (jsstring * Settings) -> bool.
Variable replyOk : jsstring -> bool.

Definition emit (e : Effect) : M State unit :=
  modify (fun st => mkState (guildSettings st) (settingsFile st)
                            (effects st ++ [e])).

Definition reply (content : jsstring) : M State unit :=
  if replyOk content then emit (Reply content) else throw.

Definition writeFile (data : list (jsstring * Settings)) : M State unit :=
  if writeOk data
  then modify (fun st => mkState (guildSettings st) (Some data)
                                 (effects st ++ [WriteFile data true]))
  else emit (WriteFile data false) >> throw.

(** [saveSettings]: the whole registry is serialised (sets as arrays, in
    order, which is how the model already holds them) and written; the
    [catch] around the write is empty. *)
Definition saveSettings : M State unit :=
  let! serializable := gets guildSettings in
  tryCatch (writeFile serializable) (ret tt).

Definition setRegistry (g : jsstring) (settings : Settings) : M State unit :=
  modify (fun st => mkState (aset g settings (guildSettings st))
                            (settingsFile st) (effects st)).

(** An assignment to a field of [settings]: when the guild already has a
    record, [settings] is that very object and the registry changes with
    it; otherwise [settings] is a fresh object. *)
Definition assignField (g : jsstring) (present : bool) (settings : Settings)
  : M State unit :=
  if present then setRegistry g settings else ret tt.

Definition setRoles (settings : Settings) (vals : list jsstring) : Settings :=
  mkSettings (pages settings)
    (fold_left (fun r pg => <[pg := newSet vals]> r) (pages settings)
               (roles settings))
    (channel settings).

(** The select-menu branch of the interaction handler, inside the
    handler's outer [try]/[catch]. *)
Definition selectMenuHandler (i : Interaction) : M State unit :=
  tryCatch
    (if negb (isGuildAdminOrOwner i)
     then reply (str "Only a server administrator or owner can use /settings.")
     else
       let! existing := gets (fun st => alookup (guildId i) (guildSettings st)) in
       let present := bool_decide (is_Some existing) in
       let settings := default (mkSettings [] ∅ None) existing in
       let! settings' :=
         (if decide (customId i = str "select_pages") then
            let s' := mkSettings (newSet (values i)) (roles settings)
                                 (channel settings) in
            assignField (guildId i) present s' >>
            reply (str "Pages to monitor updated.") >> ret s'
          else if decide (customId i = str "select_roles") then
            let s' := setRoles settings (values i) in
            assignField (guildId i) present s' >>
            reply (str "Roles to ping updated.") >> ret s'
          else if decide (customId i = str "select_channel") then
            let s' := mkSettings (pages settings) (roles settings)
                                 (values i !! 0%nat) in
            assignField (guildId i) present s' >>
            reply (str "Channel for updates set.") >> ret s'
          else ret settings) in
       setRegistry (guildId i) settings' >>
       saveSettings)
    (emit ConsoleError).

End WithStore.
End Registry.

(** ** Slash-command names *)

Module Commands.
Import Normalize.

(** The decimal digits of a number, as a template literal prints it. *)
Equations? digits (n : N) : jsstring by wf (N.to_nat (N.log2 n)) lt :=
  digits n with decide (n < 10) := {
    | left _ => [48 + n]
    | right _ => digits (n / 10) ++ [48 + n mod 10] }.
Proof.
  assert (N.log2 (n / 10) < N.log2 n); [|lia].
  assert (0 < n / 10) by (apply N.div_str_pos; lia).
  apply N.log2_lt_pow2; [done|].
  pose proof (N.log2_spec n ltac:(lia)) as [Hlo Hhi].
  rewrite N.pow_succ_r' in Hhi.
  apply N.Div0.div_lt_upper_bound. lia.
Qed.

(** The number a string of decimal digits denotes. *)
Definition digitsValue (s : jsstring) : N :=
  fold_left (fun acc d => 10 * acc + (d - 48)) s 0.

(** [`_${suffix}`] *)
Definition suffixString (suffix : N) : jsstring :=
  underscore :: digits suffix.

(** [s.slice(0, e)]; a negative [e] counts from the end. *)
Definition sliceTo (s : jsstring) (e : Z) : jsstring :=
  if (e <? 0)%Z then take (Z.to_nat (Z.of_nat (length s) + e)) s
  else take (Z.to_nat e) s.

(** [name.slice(0, 32 - (`_${suffix}`).length) + `_${suffix}`] *)
Definition candidate (name : jsstring) (suffix : N) : jsstring :=
  sliceTo name (32 - Z.of_nat (length (suffixString suffix)))
  ++ suffixString suffix.

(** [while (usedNames.has(uniqueName) || uniqueName.length === 0) {
       uniqueName = ...; suffix++; }]; [None] when [fuel] iterations did
    not leave the loop. *)
Fixpoint uniqueLoop (fuel : nat) (name : jsstring) (usedNames : gset jsstring)
    (uniqueName : jsstring) (suffix : N) : option jsstring :=
  match fuel with
  | O => None
  | S fuel' =>
      if bool_decide (uniqueName ∈ usedNames) || (length uniqueName =? 0)%nat
      then uniqueLoop fuel' name usedNames (candidate name suffix) (suffix + 1)
      else Some uniqueName
  end.

Record Registration := mkRegistration {
  usedNames : gset jsstring;
  commandNameToDropdownItem : gmap jsstring jsstring;
  commands : list (jsstring * jsstring)     (* name, description *)
}.

Section WithLowerCase.
Variable toLowerCase : jsstring -> jsstring.

(** The normalised label, cut to 32 characters when longer. *)
Definition baseName (item : jsstring) : jsstring :=
  let name := normalizeChain toLowerCase item in
  if (32 <? length name)%nat then slice name 0 32 else name.

(** What the registration holds once [items] have been processed: the
    names are the set of used names, pairwise distinct, non-empty and at
    most 32 characters long; the [i]-th name is the base name of the
    [i]-th item or that base name with a numeric suffix; and the table
    maps the [i]-th name to the [i]-th item and nothing else. *)
Definition consistent (reg : Registration) (items : list jsstring) : Prop :=
  let names := (commands reg).*1 in
  usedNames reg = list_to_set names /\
  NoDup names /\
  length names = length items /\
  Forall (fun n => 0 < length n <= 32)%nat names /\
  (forall i name item,
      names !! i = Some name -> items !! i = Some item ->
      commandNameToDropdownItem reg !! name = Some item /\
      (name = baseName item \/
       exists k, 1 <= k /\ name = candidate (baseName item) k)) /\
  dom (commandNameToDropdownItem reg) = usedNames reg.

(** The callback of [dropdownItems.map]. *)
Definition registerItem (fuel : nat) (acc : Registration) (item : jsstring)
  : option Registration :=
  let name := baseName item in
  match uniqueLoop fuel name (usedNames acc) name 1 with
  | None => None
  | Some uniqueName =>
      Some (mkRegistration
              ({[uniqueName]} ∪ usedNames acc)
              (<[uniqueName := item]> (commandNameToDropdownItem acc))
              (commands acc ++ [(uniqueName, str "Get info for: " ++ item)]))
  end.

Fixpoint registerItems (fuel : nat) (acc : Registration)
    (dropdownItems : list jsstring) : option Registration :=
  match dropdownItems with
  | [] => Some acc
  | item :: rest =>
      match registerItem fuel acc item with
      | None => None
      | Some acc' => registerItems fuel acc' rest
      end
  end.

Definition registerCommands (fuel : nat) (dropdownItems : list jsstring)
  : option Registration :=
  registerItems fuel (mkRegistration ∅ ∅ []) dropdownItems.

End WithLowerCase.
End Commands.

(** ** Concrete runs *)

Module Examples.
Import Notifier.

Definition guild1 : jsstring := str "guild-1".
Definition channel1 : jsstring := str "channel-1".
Definition pageOne : jsstring := str "Page One".
Definition pageTwo : jsstring := str "Page Two".
Definition pageThree : jsstring := str "Page Three".

(** One tenant watching two pages, with a text channel to post to. *)
Definition settings1 : Settings :=
  mkSettings [pageOne; pageTwo] ∅ (Some channel1).
Definition registry1 : list (jsstring * Settings) := [(guild1, settings1)].
Definition guilds1 : gmap jsstring (gmap jsstring N) :=
  {[ guild1 := {[ channel1 := 0 ]} ]}.

(** The cache of the MongoDB variant (keyed by the label itself). *)
Definition cache1 : gmap jsstring jsstring :=
  {[ pageOne := str "first"; pageTwo := str "second" ]}.

Definition fresh : State := mkState ∅ [] [].

Definition always {A} (_ : A) : bool := true.
Definition accepts (_ : list SendEvent) (_ : SendEvent) : bool := true.

(** A sink that rejects what is sent for [pageOne] and nothing else. *)
Definition rejectsPageOne (_ : list SendEvent) (ev : SendEvent) : bool :=
  negb (bool_decide (ev_page ev = pageOne)).

(** A content of two chunks, and a sink that accepts primary messages
    (those with a title) and rejects continuation messages. *)
Definition cacheLong : gmap jsstring jsstring :=
  {[ pageOne := repeat 65 2000%nat ]}.
Definition rejectsContinuations (_ : list SendEvent) (ev : SendEvent) : bool :=
  bool_decide (is_Some (Chunking.msg_title (ev_message ev))).


(** A pass over [registry1] with the given sink and cache. *)
Definition pass (sink : list SendEvent -> SendEvent -> bool)
    (cache : gmap jsstring jsstring) : M State unit :=
  runNotificationJob id always guilds1 sink always cache registry1.

(** Source adapters over three items: the second fetch fails, or it
    returns what the cache already holds. *)
Definition items3 : list jsstring := [pageOne; pageTwo; pageThree].
Definition store0 : gmap jsstring jsstring := {[ pageTwo := str "old" ]}.
Definition fetchFailsTwo (pg : unit) (item : jsstring)
  : unit * option jsstring :=
  (pg, if bool_decide (item = pageTwo) then None else Some (str "new")).
Definition fetchSameTwo (pg : unit) (item : jsstring)
  : unit * option jsstring :=
  (pg, if bool_decide (item = pageTwo) then Some (str "old")
       else Some (str "new")).
Definition writes (_ _ : jsstring) : bool := true.

(** An administrator picks [pageOne] in the page menu of a guild that has
    no record yet, while the settings file cannot be written. *)
Definition pickPageOne : Registry.Interaction :=
  Registry.mkInteraction guild1 (str "select_pages") [pageOne] true.
Definition noRecords : Registry.State := Registry.mkState [] None [].
Definition writable (_ : list (jsstring * Settings)) : bool := true.
Definition refresh3 (fetchItem : unit -> jsstring -> unit * option jsstring)
  : M (Cache.State unit) unit :=
  Cache.updateAllDropdownCache unit fetchItem id writes items3.
Definition cached0 : Cache.State unit := Cache.mkState unit tt store0.

(** A cache whose entry for [pageOne] is the empty string, and a ledger
    that already holds a snapshot for it. *)
Definition cacheEmptyOne : gmap jsstring jsstring :=
  {[ pageOne := []; pageTwo := str "second" ]}.
Definition notifiedBefore : State :=
  mkState {[ guild1 := {[ pageOne := str "old" ]} ]} [] [].

(** A second guild, a registry with a record for each of the two, and
    further selections: one by a member who is not an administrator, one
    whose values repeat a page, and a role selection. *)
Definition guild2 : jsstring := str "guild-2".
Definition twoGuilds : Registry.State :=
  Registry.mkState [(guild1, settings1); (guild2, settings1)] None [].
Definition pickPageOneDenied : Registry.Interaction :=
  Registry.mkInteraction guild1 (str "select_pages") [pageOne] false.
Definition pickTwice : Registry.Interaction :=
  Registry.mkInteraction guild1 (str "select_pages")
    [pageThree; pageOne; pageThree] true.

End Examples.

(** ** Further definitions used by the properties of the rest of the code *)

Module Names.
Import Normalize.

(** A code unit of [[a-z0-9_]], the alphabet of a file name of the cache
    and of a slash-command name. *)
Definition nameChar (c : N) : Prop :=
  isLowerAlnum c = true \/ c = underscore.

End Names.

Module Delivery.
Import Chunking Notifier.
Section WithEnvironment.

Variable cacheKey : jsstring -> jsstring.
Variable readOk : jsstring -> bool.
Variable guilds : gmap jsstring (gmap jsstring N).
Variable cache : gmap jsstring jsstring.

(** The messages of the notification of a page for a tenant, as sends to
    the tenant's channel. *)
Definition notification (g : jsstring) (s : Settings) (ch p : jsstring)
  : list SendEvent :=
  map (mkSendEvent g ch p)
      (updateMessages p (roleMentions s p)
         (Cache.readDropdownCache cacheKey cache p)).

(** A send that the registry and the cache account for: it goes to the
    text channel configured by a tenant of the registry, for a page that
    tenant watches and whose cache entry is readable and not empty, and it
    carries one of the messages of that page's notification. *)
Definition accountedFor (registry : list (jsstring * Settings))
    (ev : SendEvent) : Prop :=
  exists s,
    (ev_guild ev, s) ∈ registry /\
    targetChannel guilds (ev_guild ev) s = Some (ev_channel ev) /\
    ev_page ev ∈ pages s /\
    readOk (ev_page ev) = true /\
    Cache.readDropdownCache cacheKey cache (ev_page ev) <> [] /\
    ev ∈ notification (ev_guild ev) s (ev_channel ev) (ev_page ev).

(** The sends [new] contain, in one piece, the whole notification of the
    page for a tenant of the registry with that guild id. *)
Definition deliveredIn (registry : list (jsstring * Settings))
    (g p : jsstring) (new : list SendEvent) : Prop :=
  exists s ch before after,
    (g, s) ∈ registry /\
    targetChannel guilds g s = Some ch /\
    new = before ++ notification g s ch p ++ after.

End WithEnvironment.
End Delivery.

Module Startup.
Import Notifier Registry.



(** A record whose lists stand for [Set]s: no page and no role of a page
    occurs twice. *)
Definition wellFormed (settings : Settings) : Prop :=
  NoDup (pages settings) /\
  forall pg rs, roles settings !! pg = Some rs -> NoDup rs.

(** A registry as the bot holds it: one record for each guild id, each
    of them well formed. *)
Definition registryOk (registry : list (jsstring * Settings)) : Prop :=
  NoDup (registry.*1) /\ Forall (fun e => wellFormed e.2) registry.

End Startup.

Module Dispatch.
Import Chunking Commands.

(** The names of the commands handed to
    [client.application.commands.set]: the generated ones, then the two
    fixed ones. *)
Definition submittedNames (reg : Registration) : list jsstring :=
  (commands reg).*1 ++ [str "settings"; str "testping"].

(** The branch of the interaction handler a slash command takes: the
    tests for [settings] and [testping] come before the look-up in
    [commandNameToDropdownItem]. *)
Inductive Branch := SettingsBranch | TestPingBranch | CachedBranch.

Definition branchOf (commandName : jsstring) : Branch :=
  if decide (commandName = str "settings") then SettingsBranch
  else if decide (commandName = str "testping") then TestPingBranch
  else CachedBranch.

(** The calls on the interaction, in order, and the error line. *)
Inductive Response :=
| Reply (content : jsstring)
| DeferReply
| EditReply (m : Message)
| FollowUp (m : Message)
| ConsoleError.

Section WithCache.

Variable cacheKey : jsstring -> jsstring.
Variable store : gmap jsstring jsstring.
(** Whether a call on the interaction succeeds, given those made so
    far. *)
Variable respondOk : list Response -> Response -> bool.

Definition respond (r : Response) : M (list Response) unit :=
  fun st => if respondOk st r then (Returned tt, st ++ [r]) else (Threw, st).

Definition consoleError : M (list Response) unit :=
  modify (fun st => st ++ [ConsoleError]).

(** The reply with the cached content of [item]: the deferred reply is
    edited to the first chunk and the other chunks follow; the flat-file
    [readDropdownCache] does not throw. *)
Definition serveCached (item : jsstring) : M (list Response) unit :=
  respond DeferReply >>
  tryCatch
    (let content := Cache.readDropdownCache cacheKey store item in
     match chunksOf content with
     | [] => respond (EditReply (mkMessage None None (str "No content found.")))
     | chunk0 :: rest =>
         respond (EditReply (mkMessage None (Some item) chunk0)) >>
         forOf rest (fun c => respond (FollowUp (mkMessage None None c)))
     end)
    (respond (EditReply
                (mkMessage None None
                   (str "Failed to fetch content. Please try again later."))) >>
     consoleError).

(** The reply when the table has no entry of its own for the name but
    the name is a member of [Object.prototype]: the read finds that
    member, which is truthy; the reply is deferred, and
    [normalizeDropdownName] of the flat-file [readDropdownCache] throws on
    it, inside the [try]. *)
Definition serveInherited : M (list Response) unit :=
  respond DeferReply >>
  tryCatch
    throw
    (respond (EditReply
                (mkMessage None None
                   (str "Failed to fetch content. Please try again later."))) >>
     consoleError).

(** The last branch of the handler, inside the handler's outer
    [try]/[catch]; the table is a plain object; [!item] holds for the
    empty label and for a name that is neither in the table nor
    inherited. *)
Definition cachedCommand (table : gmap jsstring jsstring)
    (commandName : jsstring) : M (list Response) unit :=
  tryCatch
    (match table !! commandName with
     | Some [] => respond (Reply (str "Unknown command or dropdown item."))
     | Some item => serveCached item
     | None =>
         match PlainObject.inheritedLength commandName with
         | Some _ => serveInherited
         | None => respond (Reply (str "Unknown command or dropdown item."))
         end
     end)
    consoleError.

End WithCache.

End Dispatch.

(** ** The [/testping] command *)

Module TestPing.
Import Chunking Notifier.

Inductive Effect :=
| Reply (content : jsstring)
| ConsoleError.

Section WithEnvironment.

(** The Source Adapter, queried live by [/testping]. *)
Variable Page : Type.
Variable getContentForDropdownItem :
  Page -> jsstring -> Page * option jsstring.
(** [client.guilds.cache]; [interaction.guild] is the entry of
    [interaction.guildId] in it. *)
Variable guilds : gmap jsstring (gmap jsstring N).
Variable sendOk : list SendEvent -> SendEvent -> bool.
Variable replyOk : jsstring -> bool.

Record State := mkState {
  page : Page;
  sent : list SendEvent;
  sentCount : N;
  effects : list Effect
}.

Definition emit (e : Effect) : M State unit :=
  modify (fun st => mkState (page st) (sent st) (sentCount st)
                            (effects st ++ [e])).

Definition reply (content : jsstring) : M State unit :=
  if replyOk content then emit (Reply content) else throw.

Definition fetch (pageName : jsstring) : M State jsstring :=
  fun st =>
    let '(pg, r) := getContentForDropdownItem (page st) pageName in
    let st' := mkState pg (sent st) (sentCount st) (effects st) in
    match r with
    | Some content => (Returned content, st')
    | None => (Threw, st')
    end.

Definition send (guildId channelId pageName : jsstring) (msg : Message)
  : M State unit :=
  fun st =>
    let ev := mkSendEvent guildId channelId pageName msg in
    if sendOk (sent st) ev
    then (Returned tt,
          mkState (page st) (sent st ++ [ev]) (sentCount st) (effects st))
    else (Threw, st).

Definition failedContent : jsstring :=
  str "Failed to fetch content for this page.".

(** The body of [for (const pageName of settings.pages)]: the content is
    fetched from the source, the notice of a failed fetch taking its
    place; the messages are built and sent as in the notification job. *)
Definition testPage (guildId channelId : jsstring) (settings : Settings)
    (pageName : jsstring) : M State unit :=
  let! content := tryCatch (fetch pageName)
                           (emit ConsoleError >> ret failedContent) in
  forOf (updateMessages pageName (roleMentions settings pageName) content)
        (send guildId channelId pageName) >>
  modify (fun st => mkState (page st) (sent st) (sentCount st + 1)
                            (effects st)).

Definition unconfigured : jsstring :=
  str "No notification channel or pages configured. Use /settings first.".

Definition summary (channelId : jsstring) (count : N) : jsstring :=
  str "Test notification sent to <#" ++ channelId ++ str "> for "
  ++ Commands.digits count ++ str " page(s), with real content and pings.".

(** The [/testping] branch of the interaction handler, inside the
    handler's outer [try]/[catch]. *)
Definition testPing (guildSettings : list (jsstring * Settings))
    (guildId : jsstring) (isGuildAdminOrOwner : bool) : M State unit :=
  tryCatch
    (if negb isGuildAdminOrOwner
     then reply (str "Only a server administrator or owner can use /testping.")
     else
       match Registry.alookup guildId guildSettings with
       | None => reply unconfigured
       | Some settings =>
           match channelOf settings, pages settings with
           | None, _ => reply unconfigured
           | _, [] => reply unconfigured
           | Some ch, _ =>
               match guilds !! guildId with
               | None => throw
               | Some channels =>
                   match channels !! ch with
                   | Some 0 =>
                       modify (fun st => mkState (page st) (sent st) 0
                                                 (effects st)) >>
                       forOf (pages settings)
                             (testPage guildId ch settings) >>
                       let! count := gets sentCount in
                       reply (summary ch count)
                   | _ =>
                       reply (str "Configured channel not found or not a text channel.")
                   end
               end
           end
       end)
    (emit ConsoleError).

(** What the source answers when it is asked for the pages one after
    the other, from the state [pg] of the browser page on, each call
    working on the page as the call before left it; with the state the
    last call leaves. *)
Fixpoint fetches (pg : Page) (pageNames : list jsstring)
  : list (option jsstring) * Page :=
  match pageNames with
  | [] => ([], pg)
  | pageName :: rest =>
      let '(pg', r) := getContentForDropdownItem pg pageName in
      let '(rs, pg'') := fetches pg' rest in
      (r :: rs, pg'')
  end.

End WithEnvironment.

(** The content shown for an answer of the source: the content, or the
    notice when the fetch threw. *)
Definition shownContent (r : option jsstring) : jsstring :=
  default failedContent r.

(** The error lines of the failed fetches. *)
Definition fetchErrors (rs : list (option jsstring)) : list Effect :=
  flat_map (fun r => match r with
                     | Some _ => []
                     | None => [ConsoleError]
                     end) rs.

(** The messages of a page with the given content, as sends to the
    channel. *)
Definition messagesFor (guildId channelId : jsstring) (settings : Settings)
    (pageName content : jsstring) : list SendEvent :=
  map (mkSendEvent guildId channelId pageName)
      (updateMessages pageName (roleMentions settings pageName) content).

End TestPing.

(** ** The tenant registry of the MongoDB variant *)

Module Mongo.
Import Notifier.

Inductive Effect :=
| Reply (content : jsstring)
| UpdateOne (guildId : jsstring) (ok : bool)
| ConsoleError.

(** [guildSettings], the [guildSettings] collection (filled by upserts
    keyed by [guildId]: one document for each guild id), and the effects
    so far. *)
Record State := mkState {
  guildSettings : list (jsstring * Settings);
  collection : gmap jsstring Settings;
  effects : list Effect
}.

Section WithStore.

(** Whether [guildSettingsCol.updateOne] succeeds and whether
    [interaction.reply] does. *)
Variable writeOk : jsstring -> Settings -> bool.
Variable replyOk : jsstring -> bool.

Definition emit (e : Effect) : M State unit :=
  modify (fun st => mkState (guildSettings st) (collection st)
                            (effects st ++ [e])).

Definition reply (content : jsstring) : M State unit :=
  if replyOk content then emit (Reply content) else throw.

Definition updateOne (guildId : jsstring) (settings : Settings)
  : M State unit :=
  if writeOk guildId settings
  then modify (fun st => mkState (guildSettings st)
                                 (<[guildId := settings]> (collection st))
                                 (effects st ++ [UpdateOne guildId true]))
  else emit (UpdateOne guildId false) >> throw.

(** [saveSettings]: one upsert for each guild of the registry, in order;
    nothing catches a failed upsert. *)
Definition saveSettings : M State unit :=
  let! entries := gets guildSettings in
  forOf entries (fun e => updateOne e.1 e.2).

Definition setRegistry (g : jsstring) (settings : Settings) : M State unit :=
  modify (fun st => mkState (Registry.aset g settings (guildSettings st))
                            (collection st) (effects st)).

Definition assignField (g : jsstring) (present : bool) (settings : Settings)
  : M State unit :=
  if present then setRegistry g settings else ret tt.

(** The select-menu branch of the interaction handler, the same text as
    in the flat-file variant, inside the handler's outer
    [try]/[catch]. *)
Definition selectMenuHandler (i : Registry.Interaction) : M State unit :=
  tryCatch
    (if negb (Registry.isGuildAdminOrOwner i)
     then reply (str "Only a server administrator or owner can use /settings.")
     else
       let! existing :=
         gets (fun st => Registry.alookup (Registry.guildId i)
                                          (guildSettings st)) in
       let present := bool_decide (is_Some existing) in
       let settings := default (mkSettings [] ∅ None) existing in
       let! settings' :=
         (if decide (Registry.customId i = str "select_pages") then
            let s' := mkSettings (Registry.newSet (Registry.values i))
                                 (roles settings) (channel settings) in
            assignField (Registry.guildId i) present s' >>
            reply (str "Pages to monitor updated.") >> ret s'
          else if decide (Registry.customId i = str "select_roles") then
            let s' := Registry.setRoles settings (Registry.values i) in
            assignField (Registry.guildId i) present s' >>
            reply (str "Roles to ping updated.") >> ret s'
          else if decide (Registry.customId i = str "select_channel") then
            let s' := mkSettings (pages settings) (roles settings)
                                 (Registry.values i !! 0%nat) in
            assignField (Registry.guildId i) present s' >>
            reply (str "Channel for updates set.") >> ret s'
          else ret settings) in
       setRegistry (Registry.guildId i) settings' >>
       saveSettings)
    (emit ConsoleError).

End WithStore.

(** The collection after the upserts of [entries], in order. *)
Definition upserted (entries : list (jsstring * Settings))
    (c : gmap jsstring Settings) : gmap jsstring Settings :=
  fold_left (fun c e => <[e.1 := e.2]> c) entries c.

End Mongo.

(** ** The scraper *)

Module Scraper.
Import Normalize.

(** The code units [String.prototype.trim] strips: WhiteSpace and
    LineTerminator. *)
Definition isWhiteSpace (c : N) : bool :=
  (c =? 9) || (c =? 10) || (c =? 11) || (c =? 12) || (c =? 13) || (c =? 32)
  || (c =? 160) || (c =? 5760) || ((8192 <=? c) && (c <=? 8202))
  || (c =? 8232) || (c =? 8233) || (c =? 8239) || (c =? 8287)
  || (c =? 12288) || (c =? 65279).

Definition trim (s : jsstring) : jsstring :=
  dropWhileEnd isWhiteSpace (dropWhile isWhiteSpace s).

(** [opts.map(o => o.textContent.trim()).filter(Boolean)], the labels
    [getDropdownItems] returns for the options with the given texts. *)
Definition optionLabels (texts : list jsstring) : list jsstring :=
  filter (fun label => label <> []) (map trim texts).

(** The search of [getContentForDropdownItem] for the option to click:
    the first one whose trimmed text is the label; [None] is the
    [Dropdown item not found] error. *)
Fixpoint findOption (texts : list jsstring) (itemText : jsstring)
  : option nat :=
  match texts with
  | [] => None
  | text :: rest =>
      if decide (trim text = itemText) then Some 0%nat
      else S <$> findOption rest itemText
  end.

(** An entry of the report of [getAllDropdownItemsAndContent]:
    [{ item, content }], or [{ item, content: null, error }] (here
    [None]) when the fetch threw. *)
Record Result := mkResult {
  item : jsstring;
  content : option jsstring
}.

Section WithBrowser.

Variable Page : Type.
(** [puppeteer.launch], [browser.newPage], [browser.close]: whether they
    succeed. *)
Variable launchOk : bool.
Variable newPageOk : bool.
Variable closeOk : bool.
(** [page.goto], [getDropdownItems] and [getContentForDropdownItem] on
    the page. *)
Variable goto : Page -> Page * bool.
Variable getDropdownItems : Page -> Page * option (list jsstring).
Variable getContentForDropdownItem :
  Page -> jsstring -> Page * option jsstring.

(** The page, the [results] array, and the numbers of browsers launched
    and of calls of [browser.close] that succeeded. *)
Record State := mkState {
  page : Page;
  results : list Result;
  launched : nat;
  closed : nat
}.

Definition launch : M State unit :=
  if launchOk
  then modify (fun st => mkState (page st) (results st)
                                 (Datatypes.S (launched st)) (closed st))
  else throw.

Definition newPage : M State unit := if newPageOk then ret tt else throw.

Definition close : M State unit :=
  if closeOk
  then modify (fun st => mkState (page st) (results st) (launched st)
                                 (Datatypes.S (closed st)))
  else throw.

Definition onPage {A} (f : Page -> Page * option A) : M State A :=
  fun st =>
    let '(pg, r) := f (page st) in
    let st' := mkState pg (results st) (launched st) (closed st) in
    match r with
    | Some a => (Returned a, st')
    | None => (Threw, st')
    end.

Definition push (r : Result) : M State unit :=
  modify (fun st => mkState (page st) (results st ++ [r])
                            (launched st) (closed st)).

(** The body of [for (const item of items)]. *)
Definition scrapeItem (it : jsstring) : M State unit :=
  tryCatch
    (let! c := onPage (fun pg => getContentForDropdownItem pg it) in
     push (mkResult it (Some c)))
    (push (mkResult it None)).

Definition getAllDropdownItemsAndContent : M State (list Result) :=
  launch >>
  newPage >>
  tryCatch
    (onPage (fun pg => let '(pg', ok) := goto pg in
                       (pg', if ok then Some tt else None)) >>
     let! items := onPage getDropdownItems in
     modify (fun st => mkState (page st) [] (launched st) (closed st)) >>
     forOf items scrapeItem >>
     close >>
     gets results)
    (close >> throw).

(** An entry that tells what the source did for its item in some state
    of the page. *)
Definition truthful (r : Result) : Prop :=
  exists pg, (getContentForDropdownItem pg (item r)).2 = content r.

End WithBrowser.
End Scraper.

(** * Properties *)

(** ** Chunking *)

Section ChunkingFacts.
Import Chunking.

Lemma chunkLoop_concat content i chunks :
  concat (chunkLoop content i chunks) = concat chunks ++ drop i content.
Proof.
  funelim (chunkLoop content i chunks).
  - rewrite H, concat_app, <- app_assoc. f_equal. simpl. rewrite app_nil_r.
    unfold slice. replace (i + 1900 - i)%nat with 1900%nat by lia.
    rewrite <- drop_drop. apply take_drop.
  - rewrite drop_ge by lia. by rewrite app_nil_r.
Qed.

Lemma chunkLoop_length content i chunks :
  length (chunkLoop content i chunks)
  = (length chunks + (length content - i + 1899) / 1900)%nat.
Proof.
  funelim (chunkLoop content i chunks).
  - rewrite H, length_app. cbn [length].
    destruct (decide (i + 1900 <= length content)%nat) as [Hge|Hlt].
    + replace (length content - i + 1899)%nat
        with (length content - (i + 1900) + 1899 + 1 * 1900)%nat by lia.
      rewrite Nat.div_add by lia. lia.
    + replace (length content - (i + 1900))%nat with 0%nat by lia.
      rewrite (Nat.div_small (0 + 1899)) by lia.
      rewrite <- (Nat.div_unique (length content - i + 1899) 1900 1
                   (length content - i - 1)); lia.
  - replace (length content - i)%nat with 0%nat by lia.
    rewrite (Nat.div_small (0 + 1899)) by lia. lia.
Qed.

Lemma chunkLoop_sizes content i chunks :
  Forall (fun c => 0 < length c <= 1900)%nat chunks ->
  Forall (fun c => 0 < length c <= 1900)%nat (chunkLoop content i chunks).
Proof.
  funelim (chunkLoop content i chunks); intros HF; [|done].
  apply H, Forall_app; split; [done|]. constructor; [|done].
  unfold slice. rewrite length_take, length_drop. lia.
Qed.

Lemma ceilDiv_spec a b n :
  (0 < b)%nat -> (0 < a)%nat ->
  ceilDiv a b = n <-> (b * (n - 1) < a <= b * n)%nat.
Proof.
  intros Hb Ha. unfold ceilDiv.
  pose proof (Nat.div_mod_eq (a + (b - 1)) b) as Hdm.
  pose proof (Nat.mod_upper_bound (a + (b - 1)) b ltac:(lia)) as Hm.
  set (q := ((a + (b - 1)) / b)%nat) in *.
  set (r := ((a + (b - 1)) mod b)%nat) in *. clearbody q r.
  split.
  - intros <-. destruct q; nia.
  - intros [Hlo Hhi]. destruct n as [|n]; [lia|].
    replace (S n - 1)%nat with n in Hlo by lia.
    destruct (Nat.lt_trichotomy q (S n)) as [Hlt|[Heq|Hgt]]; [|done|]; nia.
Qed.

Lemma updateMessages_descriptions pageName roleMentions c s :
  map msg_description (updateMessages pageName roleMentions (c :: s))
  = chunksOf (c :: s).
Proof.
  unfold updateMessages.
  pose proof (chunkLoop_length (c :: s) 0 []) as Hlen.
  fold (chunksOf (c :: s)) in Hlen.
  destruct (chunksOf (c :: s)) as [|chunk0 rest].
  - exfalso. cbn [length] in Hlen. rewrite Nat.sub_0_r in Hlen.
    assert (1 <= (S (length s) + 1899) / 1900)%nat; [|lia].
    apply Nat.div_le_lower_bound; lia.
  - cbn [map msg_description]. f_equal.
    rewrite map_map. cbn [msg_description]. apply map_id.
Qed.


(** C5 (chunk round trip).  The chunks of a string, concatenated in
    order, give the string back; there are [ceil(L / 1900)] of them; the
    messages built from a non-empty content carry exactly these chunks as
    their descriptions, and an empty content gives the single
    "No content found." placeholder message. *)
Theorem chunk_round_trip (pageName roleMentions content : jsstring) :
  concat (chunksOf content) = content /\
  length (chunksOf content) = ceilDiv (length content) 1900 /\
  Forall (fun c => 0 < length c <= 1900)%nat (chunksOf content) /\
  updateMessages pageName roleMentions []
    = [mkMessage (orUndefined roleMentions) (Some (str "Update: " ++ pageName))
                 (str "No content found.")] /\
  (forall c s,
      map msg_description (updateMessages pageName roleMentions (c :: s))
      = chunksOf (c :: s)).
Proof.
  unfold chunksOf. repeat split.
  - rewrite chunkLoop_concat. by rewrite drop_0.
  - rewrite chunkLoop_length. unfold ceilDiv. cbn [length].
    by rewrite Nat.sub_0_r.
  - by apply chunkLoop_sizes.
  - apply updateMessages_descriptions.
Qed.

(** 4000 code units are sent as chunks of 1900, 1900 and 200. *)
Example chunks_of_4000 :
  map length (chunksOf (repeat 65 4000%nat)) = [1900; 1900; 200]%nat.
Proof. by vm_compute. Qed.

End ChunkingFacts.

(** ** Name normalisation *)

Section NormalizeFacts.
Import Normalize.

Lemma isUnderscore_eq c : isUnderscore c = true <-> c = underscore.
Proof. unfold isUnderscore. apply N.eqb_eq. Qed.

Lemma notLowerAlnum_underscore c :
  notLowerAlnum c = false -> isUnderscore c = false.
Proof.
  unfold notLowerAlnum, isLowerAlnum, isUnderscore, underscore.
  intros H. apply N.eqb_neq. intros ->. discriminate.
Qed.

Lemma dropWhile_snoc p l c :
  dropWhile p (l ++ [c])
  = match dropWhile p l with
    | [] => if p c then [] else [c]
    | r => r ++ [c]
    end.
Proof.
  induction l as [|a l IH]; simpl; [done|].
  destruct (p a); [done|]. reflexivity.
Qed.

Lemma dropWhileEnd_rev p s :
  dropWhileEnd p s = rev (dropWhile p (rev s)).
Proof.
  induction s as [|c s IH]; [done|].
  cbn [dropWhileEnd rev]. rewrite dropWhile_snoc, IH.
  destruct (dropWhile p (rev s)) as [|a r] eqn:Hr; cbn [rev].
  - by destruct (p c).
  - destruct (rev r ++ [a]) as [|x xs] eqn:Hx.
    + by destruct (rev r).
    + rewrite <- Hx. rewrite (rev_app_distr (a :: r) [c]). reflexivity.
Qed.

Lemma stripUnderscores_spec s : stripUnderscores s = spec_strip s.
Proof. unfold stripUnderscores, spec_strip. apply dropWhileEnd_rev. Qed.

Lemma replaceRuns_spec y :
  replaceRuns notLowerAlnum false y = spec_collapse y /\
  underscore :: replaceRuns notLowerAlnum true y
  = dedupUnderscores
      (underscore :: map (fun c => if isLowerAlnum c then c else underscore) y).
Proof.
  unfold spec_collapse.
  induction y as [|c y [IH1 IH2]]; [done|].
  cbn [replaceRuns map].
  assert (Hn : notLowerAlnum c = negb (isLowerAlnum c)) by done.
  rewrite !Hn.
  destruct (isLowerAlnum c) eqn:Hc; cbn [negb].
  - assert (isUnderscore c = false) as Hu
        by (by apply notLowerAlnum_underscore).
    split.
    + rewrite IH1. cbn [dedupUnderscores].
      destruct (map _ y); [done|]. by rewrite Hu.
    + rewrite IH1. cbn [dedupUnderscores]. rewrite Hu, andb_false_r.
      f_equal. destruct (map _ y); done.
  - split.
    + by rewrite IH2.
    + rewrite IH2. reflexivity.
Qed.

Lemma dedupUnderscores_cons c c' z :
  dedupUnderscores (c :: c' :: z)
  = if isUnderscore c && isUnderscore c' then dedupUnderscores (c' :: z)
    else c :: dedupUnderscores (c' :: z).
Proof. reflexivity. Qed.

Lemma dedupUnderscores_head c z :
  exists d ds, dedupUnderscores (c :: z) = d :: ds /\
               isUnderscore d = isUnderscore c.
Proof.
  revert c. induction z as [|c' z IH]; intros c; [by exists c, []|].
  rewrite dedupUnderscores_cons.
  destruct (isUnderscore c) eqn:Hc; cbn [andb].
  - destruct (isUnderscore c') eqn:Hc'.
    + destruct (IH c') as (d & ds & Hd & Hu). exists d, ds.
      split; [exact Hd|]. congruence.
    + eexists _, _. split; [reflexivity|done].
  - eexists _, _. split; [reflexivity|done].
Qed.

Lemma dedupUnderscores_noAdjacent z :
  noAdjacentUnderscores (dedupUnderscores z).
Proof.
  induction z as [|c z IH]; [done|].
  destruct z as [|c' z]; [done|].
  rewrite dedupUnderscores_cons.
  destruct (isUnderscore c && isUnderscore c') eqn:Hcc; [done|].
  destruct (dedupUnderscores_head c' z) as (d & ds & Hd & Hu).
  rewrite Hd in IH |- *. split; [|done].
  rewrite Hu. intros [H1 H2]. by rewrite H1, H2 in Hcc.
Qed.

Lemma noAdjacent_dropWhile p s :
  noAdjacentUnderscores s -> noAdjacentUnderscores (dropWhile p s).
Proof.
  induction s as [|c s IH]; [done|].
  intros [H1 H2]. cbn [dropWhile]. destruct (p c); [by apply IH|done].
Qed.

Lemma noAdjacent_dropWhileEnd p s :
  noAdjacentUnderscores s -> noAdjacentUnderscores (dropWhileEnd p s).
Proof.
  induction s as [|c s IH]; [done|].
  intros [H1 H2]. cbn [dropWhileEnd]. specialize (IH H2).
  destruct (dropWhileEnd p s) as [|d ds] eqn:Hd.
  - by destruct (p c).
  - split; [|done].
    destruct s as [|c' s]; [done|].
    cbn [dropWhileEnd] in Hd.
    destruct (dropWhileEnd p s); [destruct (p c')|]; congruence.
Qed.

Lemma replaceRuns_noAdjacent s :
  noAdjacentUnderscores s ->
  replaceRuns isUnderscore false s = s /\
  (match s with c :: _ => isUnderscore c = false | [] => True end ->
   replaceRuns isUnderscore true s = s).
Proof.
  induction s as [|c s IH]; [done|].
  intros [H1 H2]. destruct (IH H2) as [IHf IHt].
  cbn [replaceRuns]. destruct (isUnderscore c) eqn:Hc.
  - split; [|done].
    apply isUnderscore_eq in Hc as ->. f_equal. apply IHt.
    destruct s as [|c' s]; [done|].
    destruct (isUnderscore c') eqn:Hc'; [|done].
    exfalso. by apply H1.
  - split; intros; by rewrite IHf.
Qed.

Lemma normalizeChain_spec toLowerCase label :
  normalizeChain toLowerCase label
  = spec_strip (spec_collapse (toLowerCase label)).
Proof.
  unfold normalizeChain.
  destruct (replaceRuns_spec (toLowerCase label)) as [-> _].
  rewrite <- stripUnderscores_spec.
  apply replaceRuns_noAdjacent.
  unfold stripUnderscores.
  apply noAdjacent_dropWhileEnd, noAdjacent_dropWhile.
  apply dedupUnderscores_noAdjacent.
Qed.

(** C8 (ItemId normalisation).  The normalised name is a function of the
    label alone: equal labels have equal names.  It is the label
    lower-cased, with every run of characters outside [[a-z0-9]]
    collapsed to one ['_'], leading and trailing ['_'] removed, and then
    cut to 32 characters. *)
Theorem normalizeDropdownName_spec (toLowerCase : jsstring -> jsstring)
    (label1 label2 : jsstring) (Hsame : label1 = label2) :
  normalizeDropdownName toLowerCase label1
    = normalizeDropdownName toLowerCase label2 /\
  normalizeDropdownName toLowerCase label1
    = spec_normalize toLowerCase label1 /\
  (length (normalizeDropdownName toLowerCase label1) <= 32)%nat.
Proof.
  subst label2. split; [done|].
  unfold normalizeDropdownName, spec_normalize, slice.
  rewrite normalizeChain_spec, drop_0. split; [done|].
  rewrite length_take. lia.
Qed.

Lemma normalizeDropdownName_spec_witness :
  str "Page  A!" = str "Page  A!" /\
  (normalizeDropdownName asciiLower (str "Page  A!")
     = normalizeDropdownName asciiLower (str "Page  A!") /\
   normalizeDropdownName asciiLower (str "Page  A!")
     = spec_normalize asciiLower (str "Page  A!") /\
   (length (normalizeDropdownName asciiLower (str "Page  A!")) <= 32)%nat).
Proof.
  split; [reflexivity|].
  apply normalizeDropdownName_spec. reflexivity.
Defined.

Example normalizeDropdownName_page_a :
  normalizeDropdownName asciiLower (str "  Page -- A!") = str "page_a".
Proof. reflexivity. Qed.

(** The cut to 32 characters comes last, so a name can end in ['_']. *)
Example normalizeDropdownName_cut :
  normalizeDropdownName asciiLower (str "abcdefghijklmnopqrstuvwxyz01234 67")
  = str "abcdefghijklmnopqrstuvwxyz01234_".
Proof. reflexivity. Qed.

End NormalizeFacts.

(** ** Scheduler gate *)

Section GateFacts.
Import Gate.
Local Open Scope Z_scope.

Lemma slotLoop_true nowMinutes t :
  slotLoop nowMinutes t = true <->
  exists k, 0 <= k /\ nowMinutes = t + 30 * k /\ nowMinutes <= 22 * 60.
Proof.
  funelim (slotLoop nowMinutes t).
  - destruct (decide (nowMinutes = t)) as [->|Hne].
    + split; [|done]. intros _. exists 0. lia.
    + rewrite H by done. split.
      * intros (k & Hk & -> & Hle). exists (k + 1). lia.
      * intros (k & Hk & -> & Hle). exists (k - 1). lia.
  - split; [done|]. intros (k & Hk & -> & Hle). lia.
Qed.

(** The gate opens exactly at the slots 15:33 + 30 k that do not pass
    22:00, which are the thirteen slots 15:33, 16:03, ..., 21:33. *)
Lemma allowed_slots hour minute :
  allowed hour minute = true <->
  exists k, 0 <= k <= 12 /\ hour * 60 + minute = 15 * 60 + 33 + 30 * k.
Proof.
  unfold allowed. rewrite slotLoop_true. split.
  - intros (k & Hk & Heq & Hle). exists k. lia.
  - intros (k & Hk & Heq). exists k. lia.
Qed.

(** C3 (schedule matcher), evaluated on the code.  15:33 and 16:03 match,
    16:00 and 22:30 do not; the last slot that matches is 21:33, and
    22:00, which the comment above the loop lists as an allowed time, is
    not matched. *)
Theorem gate_sample_points :
  allowed 15 33 = true /\ allowed 16 0 = false /\ allowed 16 3 = true /\
  allowed 22 30 = false /\ allowed 21 33 = true /\ allowed 22 0 = false.
Proof. repeat split. Qed.

End GateFacts.

(** ** Effects *)

Section EffFacts.
Context {S : Type}.

Lemma forOf_app {A} (l1 l2 : list A) (body : A -> M S unit) (s : S) :
  forOf (l1 ++ l2) body s
  = match forOf l1 body s with
    | (Returned _, s') => forOf l2 body s'
    | (Threw, s') => (Threw, s')
    end.
Proof.
  revert s. induction l1 as [|x l1 IH]; intros s; [done|].
  cbn [app forOf]. unfold bind at 1 2.
  destruct (body x s) as [[[]|] s']; [apply IH|done].
Qed.

Lemma forOf_cons {A} (x : A) (l : list A) (body : A -> M S unit) (s : S) :
  forOf (x :: l) body s
  = match body x s with
    | (Returned _, s') => forOf l body s'
    | (Threw, s') => (Threw, s')
    end.
Proof. reflexivity. Qed.

Lemma forOf_split {A} (l1 : list A) (x : A) (l2 : list A)
    (body : A -> M S unit) (s : S) :
  forOf (l1 ++ x :: l2) body s
  = match forOf l1 body s with
    | (Returned _, s1) =>
        match body x s1 with
        | (Returned _, s2) => forOf l2 body s2
        | (Threw, s2) => (Threw, s2)
        end
    | (Threw, s1) => (Threw, s1)
    end.
Proof.
  rewrite forOf_app. destruct (forOf l1 body s) as [[[]|] s1]; [|done].
  apply forOf_cons.
Qed.

Lemma bind_threw {A B} (m : M S A) (k : A -> M S B) (s : S) :
  (m s).1 = Threw -> bind m k s = (Threw, (m s).2).
Proof. unfold bind. by destruct (m s) as [[a|] s']. Qed.

(** An invariant of the loop body that holds whether the body returns or
    throws is an invariant of the loop. *)
Lemma forOf_invariant {A} (P : S -> Prop) (l : list A) (body : A -> M S unit) :
  (forall x s, x ∈ l -> P s -> P (snd (body x s))) ->
  forall s, P s -> P (snd (forOf l body s)).
Proof.
  induction l as [|x l IH]; intros Hbody s Hs; [done|].
  rewrite forOf_cons.
  pose proof (Hbody x s ltac:(left) Hs) as Hx.
  destruct (body x s) as [[[]|] s']; [|done].
  apply IH; [|done]. intros y s0 Hy. apply Hbody. by right.
Qed.

End EffFacts.

(** ** Scheduler *)

Section SchedulerFacts.
Import Scheduler.
Context {World : Type} (job : M World unit).

Lemma notificationScheduler_guarded clock st :
  lastMinuteChecked World st = Some (minuteOf clock) ->
  notificationScheduler World job clock st = (Returned tt, st).
Proof.
  intros Hlast. destruct clock as [hour minute].
  unfold notificationScheduler, bind, gets. rewrite Hlast.
  unfold minuteOf. cbn [fst snd].
  rewrite bool_decide_eq_true_2 by done.
  by rewrite andb_false_r.
Qed.

Lemma schedulerChain_guarded clocks k st :
  lastMinuteChecked World st = Some k ->
  Forall (fun c => minuteOf c = k) clocks ->
  schedulerChain World job clocks st = (Returned tt, st).
Proof.
  intros Hlast Hall. induction Hall as [|c clocks Hc Hall IH]; [done|].
  unfold schedulerChain. rewrite forOf_cons.
  rewrite notificationScheduler_guarded by congruence. apply IH.
Qed.

(** What one execution does to the guard and to the record of runs. *)
Lemma notificationScheduler_cases clock st :
  let r := notificationScheduler World job clock st in
  (r = (Returned tt, st)) \/
  (r.1 = Returned tt /\
   lastMinuteChecked World r.2 = Some (minuteOf clock) /\
   running World r.2 = running World st ++ [clock]) \/
  (r.1 = Threw /\ running World r.2 = running World st ++ [clock]).
Proof.
  destruct clock as [hour minute].
  unfold notificationScheduler, bind, gets, modify, runJob. cbn [fst snd].
  destruct (Gate.allowed hour minute && _); [|by left].
  cbn [world lastMinuteChecked running].
  destruct (job (world World st)) as [[[]|] w]; cbn; right; [left|right]; done.
Qed.

(** C4 (guard against double fire).  However many times the check
    executes while the clock reads one and the same minute, the
    notification pass is started at most once. *)
Theorem scheduler_fires_at_most_once (clocks : list (Z * Z)) (k : Z)
    (st : State World)
    (Hsame : Forall (fun c => minuteOf c = k) clocks) :
  (length (running World (schedulerChain World job clocks st).2)
   <= length (running World st) + 1)%nat.
Proof.
  revert st. induction Hsame as [|c clocks Hc Hall IH]; intros st.
  - cbn. lia.
  - unfold schedulerChain. rewrite forOf_cons.
    destruct (notificationScheduler_cases c st) as [Hr|[(Ho & Hl & Hrun)|(Ho & Hrun)]].
    + rewrite Hr. apply IH.
    + destruct (notificationScheduler World job c st) as [o st'].
      cbn [fst snd] in *. subst o.
      fold (schedulerChain World job clocks st').
      rewrite (schedulerChain_guarded clocks k) by (done || congruence).
      cbn [snd]. rewrite Hrun, length_app. cbn. lia.
    + destruct (notificationScheduler World job c st) as [o st'].
      cbn [fst snd] in *. subst o. cbn [snd].
      rewrite Hrun, length_app. cbn. lia.
Qed.

End SchedulerFacts.

Lemma scheduler_fires_at_most_once_witness :
  Forall (fun c => Scheduler.minuteOf c = 933%Z)
         [(15, 33); (15, 33); (15, 33)]%Z /\
  (length (Scheduler.running unit
     (Scheduler.schedulerChain unit (ret tt) [(15, 33); (15, 33); (15, 33)]%Z
        (Scheduler.mkState unit None [] tt)).2)
   <= length (Scheduler.running unit (Scheduler.mkState unit None [] tt)) + 1)%nat.
Proof.
  assert (H : Forall (fun c => Scheduler.minuteOf c = 933%Z)
                     [(15, 33); (15, 33); (15, 33)]%Z)
    by (repeat constructor).
  split; [exact H|].
  apply (scheduler_fires_at_most_once (ret tt) _ 933%Z _ H).
Defined.

(** Three checks at 15:33 run the pass once. *)
Example scheduler_three_checks :
  Scheduler.running unit
    (Scheduler.schedulerChain unit (ret tt) [(15, 33); (15, 33); (15, 33)]%Z
       (Scheduler.mkState unit None [] tt)).2 = [(15, 33)%Z].
Proof. reflexivity. Qed.

(** ** Content cache *)

Section CacheFacts.
Import Cache.
Context {Page : Type}
        (getContentForDropdownItem : Page -> jsstring -> Page * option jsstring)
        (cacheKey : jsstring -> jsstring)
        (writeOk : jsstring -> jsstring -> bool).

Local Abbreviation refresh :=
  (updateAllDropdownCache Page getContentForDropdownItem cacheKey writeOk).
Local Abbreviation refreshItem item :=
  (tryCatch (let! content := fetch Page getContentForDropdownItem item in
             writeDropdownCache Page cacheKey writeOk item content)
            (ret tt)).

Lemma refreshItem_returns item st :
  (refreshItem item st).1 = Returned tt.
Proof.
  unfold tryCatch, bind, fetch, writeDropdownCache, ret.
  destruct (getContentForDropdownItem (page Page st) item) as [pg [c|]];
    [|done].
  cbn [store page]. by destruct (writeOk (cacheKey item) c).
Qed.

(** The routine never throws and returns nothing. *)
Lemma updateAllDropdownCache_returns items st :
  (refresh items st).1 = Returned tt.
Proof.
  revert st. induction items as [|x items IH]; intros st; [done|].
  unfold updateAllDropdownCache. rewrite forOf_cons.
  pose proof (refreshItem_returns x st) as Hx.
  destruct (refreshItem x st) as [[[]|] st']; [apply IH|done].
Qed.

Lemma updateAllDropdownCache_app pre post st :
  refresh (pre ++ post) st = refresh post (refresh pre st).2.
Proof.
  unfold updateAllDropdownCache at 1. rewrite forOf_app.
  pose proof (updateAllDropdownCache_returns pre st) as Hpre.
  unfold updateAllDropdownCache in Hpre |- *.
  by destruct (forOf pre _ st) as [[[]|] st'].
Qed.

Lemma refreshItem_failed item st pg :
  getContentForDropdownItem (page Page st) item = (pg, None) ->
  (refreshItem item st).2 = mkState Page pg (store Page st).
Proof.
  intros Hf. unfold tryCatch, bind, fetch. by rewrite Hf.
Qed.

Lemma refreshItem_fetched item st pg content :
  getContentForDropdownItem (page Page st) item = (pg, Some content) ->
  writeOk (cacheKey item) content = true ->
  (refreshItem item st).2
  = mkState Page pg
      (<[cacheKey item := Utf8.toWellFormed content]> (store Page st)).
Proof.
  intros Hf Hw. unfold tryCatch, bind, fetch, writeDropdownCache.
  rewrite Hf. cbn [store page]. by rewrite Hw.
Qed.

Lemma refreshItem_other_key item st k :
  cacheKey item <> k ->
  store Page (refreshItem item st).2 !! k = store Page st !! k.
Proof.
  intros Hk. unfold tryCatch, bind, fetch, writeDropdownCache, ret.
  destruct (getContentForDropdownItem (page Page st) item) as [pg [c|]];
    [|done].
  cbn [store page]. destruct (writeOk (cacheKey item) c); [|done].
  cbn [snd store]. by rewrite lookup_insert_ne.
Qed.

Lemma updateAllDropdownCache_other_key items st k :
  k ∉ cacheKey <$> items ->
  store Page (refresh items st).2 !! k = store Page st !! k.
Proof.
  revert st. induction items as [|x items IH]; intros st Hk; [done|].
  rewrite fmap_cons, not_elem_of_cons in Hk. destruct Hk as [Hx Hk].
  change (x :: items) with ([x] ++ items).
  rewrite updateAllDropdownCache_app, IH by done.
  unfold updateAllDropdownCache. cbn [forOf].
  unfold bind at 1. pose proof (refreshItem_returns x st) as Hr.
  pose proof (refreshItem_other_key x st k ltac:(done)) as Ho.
  by destruct (refreshItem x st) as [[[]|] st'].
Qed.

(** A successful fetch overwrites the entry and the refresh goes on. *)
Lemma updateAllDropdownCache_fetched pre item post st pg content :
  getContentForDropdownItem (page Page (refresh pre st).2) item
    = (pg, Some content) ->
  writeOk (cacheKey item) content = true ->
  refresh (pre ++ item :: post) st
  = refresh post
      (mkState Page pg
         (<[cacheKey item := Utf8.toWellFormed content]>
            (store Page (refresh pre st).2))).
Proof.
  intros Hf Hw. rewrite updateAllDropdownCache_app.
  change (item :: post) with ([item] ++ post).
  rewrite updateAllDropdownCache_app. f_equal.
  unfold updateAllDropdownCache. cbn [forOf]. unfold bind at 1.
  pose proof (refreshItem_returns item (refresh pre st).2) as Hr.
  pose proof (refreshItem_fetched item _ pg content Hf Hw) as Hs.
  unfold updateAllDropdownCache in *.
  by destruct (refreshItem item _) as [[[]|] st'].
Qed.

(** C6, as the code has it (partial-failure isolation of the refresh).
    When the fetch of an item fails at its turn, the store is left as it
    was at that point and the remaining items are refreshed from there;
    the routine returns normally with no value; and when no other item
    of the pass shares the item's cache key, the item's entry after the
    pass is the entry from before the pass. *)
Theorem updateAllDropdownCache_failure_isolated
    (pre : list jsstring) (item : jsstring) (post : list jsstring)
    (st : State Page) (pg : Page)
    (Hfail : getContentForDropdownItem (page Page (refresh pre st).2) item
             = (pg, None)) :
  refresh (pre ++ item :: post) st
    = refresh post (mkState Page pg (store Page (refresh pre st).2)) /\
  (refresh (pre ++ item :: post) st).1 = Returned tt /\
  (cacheKey item ∉ cacheKey <$> (pre ++ post) ->
   store Page (refresh (pre ++ item :: post) st).2 !! cacheKey item
   = store Page st !! cacheKey item).
Proof.
  assert (Heq : refresh (pre ++ item :: post) st
                = refresh post (mkState Page pg (store Page (refresh pre st).2))).
  { rewrite updateAllDropdownCache_app.
    change (item :: post) with ([item] ++ post).
    rewrite updateAllDropdownCache_app. f_equal.
    unfold updateAllDropdownCache. cbn [forOf]. unfold bind at 1.
    pose proof (refreshItem_returns item (refresh pre st).2) as Hr.
    pose proof (refreshItem_failed item _ pg Hfail) as Hs.
    unfold updateAllDropdownCache in *.
    by destruct (refreshItem item _) as [[[]|] st']. }
  split; [done|]. split; [apply updateAllDropdownCache_returns|].
  intros Hk. rewrite fmap_app, not_elem_of_app in Hk. destruct Hk as [Hpre Hpost].
  rewrite Heq, updateAllDropdownCache_other_key by done.
  cbn [store]. by apply updateAllDropdownCache_other_key.
Qed.

End CacheFacts.

(** ** Change notifier *)

Section NotifierFacts.
Import Chunking Notifier.
Context (cacheKey : jsstring -> jsstring) (readOk : jsstring -> bool)
        (guilds : gmap jsstring (gmap jsstring N))
        (sendOk : list SendEvent -> SendEvent -> bool)
        (saveOk : gmap jsstring (gmap jsstring jsstring) -> bool)
        (cache : gmap jsstring jsstring).

Local Abbreviation content_of p := (Cache.readDropdownCache cacheKey cache p).
Local Abbreviation page_step :=
  (notifyPage cacheKey readOk sendOk saveOk cache).
Local Abbreviation guild_step :=
  (notifyGuild cacheKey readOk guilds sendOk saveOk cache).
Local Abbreviation job :=
  (runNotificationJob cacheKey readOk guilds sendOk saveOk cache).

Lemma updateMessages_nonempty pageName mentions content :
  updateMessages pageName mentions content <> [].
Proof. unfold updateMessages. by destruct (chunksOf content). Qed.

Lemma send_accepted g ch p m st :
  sendOk (sent st) (mkSendEvent g ch p m) = true ->
  send sendOk g ch p m st
  = (Returned tt, mkState (lastSentContent st)
                          (sent st ++ [mkSendEvent g ch p m]) (notified st)).
Proof. intros H. unfold send. by rewrite H. Qed.

Lemma send_rejected g ch p m st :
  sendOk (sent st) (mkSendEvent g ch p m) = false ->
  send sendOk g ch p m st = (Threw, st).
Proof. intros H. unfold send. by rewrite H. Qed.

(** The loop of sends: a prefix of the messages is accepted, all of them
    when the loop returns; nothing else changes. *)
Lemma forOf_send g ch p msgs st :
  let r := forOf msgs (send sendOk g ch p) st in
  lastSentContent r.2 = lastSentContent st /\
  notified r.2 = notified st /\
  exists n, sent r.2 = sent st ++ map (mkSendEvent g ch p) (take n msgs) /\
            (r.1 = Returned tt -> take n msgs = msgs).
Proof.
  revert st. induction msgs as [|m msgs IH]; intros st.
  - cbn. repeat split. exists 0%nat. by rewrite app_nil_r.
  - cbn zeta. rewrite forOf_cons.
    destruct (sendOk (sent st) (mkSendEvent g ch p m)) eqn:Hok.
    + rewrite (send_accepted _ _ _ _ _ Hok).
      specialize (IH (mkState (lastSentContent st)
                              (sent st ++ [mkSendEvent g ch p m])
                              (notified st))).
      cbn zeta in IH. destruct IH as (HL & HN & n & Hs & Hr).
      split; [exact HL|]. split; [exact HN|].
      exists (S n). cbn [take map]. split.
      * rewrite Hs. cbn [sent]. by rewrite <- app_assoc.
      * intros Hret. by rewrite Hr.
    + rewrite (send_rejected _ _ _ _ _ Hok).
      repeat split. exists 0%nat. cbn. split; [by rewrite app_nil_r|done].
Qed.

Lemma eventsFor_app g p l1 l2 :
  eventsFor g p (l1 ++ l2) = eventsFor g p l1 ++ eventsFor g p l2.
Proof. apply filter_app. Qed.

Lemma eventsFor_other g p g' ch p' msgs :
  (g', p') <> (g, p) ->
  eventsFor g p (map (mkSendEvent g' ch p') msgs) = [].
Proof.
  intros Hne. induction msgs as [|m msgs IH]; [done|].
  cbn [map]. unfold eventsFor in *. rewrite filter_cons_False; [done|].
  cbn. intros [-> ->]. done.
Qed.

Lemma eventsFor_same g ch p msgs :
  eventsFor g p (map (mkSendEvent g ch p) msgs)
  = map (mkSendEvent g ch p) msgs.
Proof.
  induction msgs as [|m msgs IH]; [done|].
  cbn [map]. unfold eventsFor in *. rewrite filter_cons_True by done.
  by rewrite IH.
Qed.

Lemma ledgerGet_ledgerSet g p g' p' c st :
  ledgerGet (ledgerSet g' p' c st).2 g p
  = if decide ((g', p') = (g, p)) then Some c else ledgerGet st g p.
Proof.
  unfold ledgerSet, modify, ledgerGet. cbn [snd lastSentContent].
  destruct (decide (g' = g)) as [->|Hg].
  - rewrite lookup_insert_eq.
    destruct (decide (p' = p)) as [->|Hp].
    + rewrite lookup_insert_eq. by rewrite decide_True.
    + rewrite lookup_insert_ne by done.
      rewrite decide_False by congruence.
      by destruct (lastSentContent st !! g).
  - rewrite lookup_insert_ne by done. by rewrite decide_False by congruence.
Qed.

(** What the loop body does for one page, case by case. *)
Lemma notifyPage_skip g ch s p st :
  readOk p = false \/ changed (content_of p) (ledgerGet st g p) = false ->
  page_step g ch s p st = (Returned tt, st).
Proof.
  unfold notifyPage, bind, tryCatch, readCache, gets, ret, throw.
  destruct (readOk p); intros [H|H]; try done.
  by rewrite H.
Qed.

Lemma notifyPage_due g ch s p st :
  readOk p = true -> changed (content_of p) (ledgerGet st g p) = true ->
  page_step g ch s p st
  = (forOf (updateMessages p (roleMentions s p) (content_of p))
           (send sendOk g ch p) >>
     ledgerSet g p (content_of p) >>
     saveLastSentContent saveOk >>
     logNotify g p) st.
Proof.
  intros Hr Hc.
  unfold notifyPage, tryCatch, readCache, gets, ret, throw.
  unfold bind at 1 2 3. rewrite Hr. unfold bind at 1. by rewrite Hc.
Qed.

Lemma bind_view {A B V} (view : State -> V) (m : M State A)
    (k : A -> M State B) st :
  view (m st).2 = view st ->
  (forall a s', view s' = view st -> view (k a s').2 = view s') ->
  view (bind m k st).2 = view st.
Proof.
  intros Hm Hk. unfold bind. destruct (m st) as [[a|] s']; [|done].
  rewrite Hk; exact Hm.
Qed.

Lemma forOf_view {A V} (view : State -> V) (l : list A)
    (body : A -> M State unit) :
  (forall x s, x ∈ l -> view (body x s).2 = view s) ->
  forall st, view (forOf l body st).2 = view st.
Proof.
  intros Hbody st.
  apply (forOf_invariant (fun s => view s = view st)); [|done].
  intros x s Hx Hs. by rewrite Hbody.
Qed.

Lemma pairView_sends g p g' ch p' msgs st :
  (g', p') <> (g, p) ->
  pairView g p (forOf msgs (send sendOk g' ch p') st).2 = pairView g p st.
Proof.
  intros Hne. destruct (forOf_send g' ch p' msgs st) as (HL & HN & n & Hs & _).
  unfold pairView, ledgerGet. rewrite HL, HN, Hs, eventsFor_app.
  by rewrite eventsFor_other, app_nil_r.
Qed.

Lemma pairView_ledgerSet g p g' p' c st :
  (g', p') <> (g, p) ->
  pairView g p (ledgerSet g' p' c st).2 = pairView g p st.
Proof.
  intros Hne. unfold pairView. rewrite ledgerGet_ledgerSet.
  by rewrite decide_False.
Qed.

Lemma pairView_save g p st :
  pairView g p (saveLastSentContent saveOk st).2 = pairView g p st.
Proof. unfold saveLastSentContent. by destruct (saveOk _). Qed.

Lemma pairView_logNotify g p g' p' st :
  (g', p') <> (g, p) ->
  pairView g p (logNotify g' p' st).2 = pairView g p st.
Proof.
  intros Hne. unfold pairView, logNotify, modify, deliveries, ledgerGet.
  cbn [snd notified sent lastSentContent].
  rewrite filter_app, filter_cons_False by done. by rewrite app_nil_r.
Qed.

(** Processing a pair leaves every other pair as it was, and leaves the
    pair itself as it was when it is settled. *)
Lemma pairView_notifyPage g p g' ch s' p' st :
  (g', p') <> (g, p) \/ settled cacheKey readOk cache p (ledgerGet st g p) ->
  pairView g p (page_step g' ch s' p' st).2 = pairView g p st.
Proof.
  intros Hq.
  destruct (readOk p') eqn:Hr; [|by rewrite notifyPage_skip by (by left)].
  destruct (changed (content_of p') (ledgerGet st g' p')) eqn:Hc;
    [|by rewrite notifyPage_skip by (by right)].
  assert (Hne : (g', p') <> (g, p)).
  { destruct Hq as [Hq|Hq]; [done|]. intros [= -> ->].
    unfold changed in Hc. apply andb_true_iff in Hc as [Hc1 Hc2].
    apply negb_true_iff, bool_decide_eq_false in Hc1, Hc2.
    destruct Hq as [Hq|[Hq|Hq]]; congruence. }
  rewrite notifyPage_due by done.
  apply bind_view; [by apply pairView_sends|]. intros _ s1 _.
  apply bind_view; [by apply pairView_ledgerSet|]. intros _ s2 _.
  apply bind_view; [by apply pairView_save|]. intros _ s3 _.
  by apply pairView_logNotify.
Qed.

Lemma pairView_ensureLedger g p g' st :
  pairView g p (ensureLedger g' st).2 = pairView g p st.
Proof.
  unfold ensureLedger, modify, pairView, ledgerGet. cbn [snd].
  destruct (lastSentContent st !! g') as [pgs|] eqn:Hg; [done|].
  cbn [lastSentContent sent notified].
  destruct (decide (g' = g)) as [->|Hne].
  - by rewrite lookup_insert_eq, Hg, lookup_empty.
  - by rewrite lookup_insert_ne.
Qed.

Lemma ledgerGet_pairView g p st st' :
  pairView g p st' = pairView g p st -> ledgerGet st' g p = ledgerGet st g p.
Proof. unfold pairView. congruence. Qed.

Lemma pairView_pages g p g' ch s' l st :
  (forall p', p' ∈ l ->
     (g', p') <> (g, p) \/ settled cacheKey readOk cache p (ledgerGet st g p)) ->
  pairView g p (forOf l (page_step g' ch s') st).2 = pairView g p st.
Proof.
  intros Hq.
  apply (forOf_invariant (fun s => pairView g p s = pairView g p st)); [|done].
  intros p' s Hp' Hs. rewrite pairView_notifyPage; [done|].
  rewrite (ledgerGet_pairView _ _ _ _ Hs). by apply Hq.
Qed.

Lemma pairView_notifyGuild g p g' s' st :
  g' <> g \/ p ∉ pages s' \/ settled cacheKey readOk cache p (ledgerGet st g p) ->
  pairView g p (guild_step (g', s') st).2 = pairView g p st.
Proof.
  intros Hq. unfold notifyGuild.
  destruct (targetChannel guilds g' s') as [ch|]; [|done].
  apply bind_view; [apply pairView_ensureLedger|]. intros _ s1 Hs1.
  apply pairView_pages. intros p' Hp'.
  rewrite (ledgerGet_pairView _ _ _ _ Hs1).
  destruct Hq as [Hq|[Hq|Hq]]; [left|left|by right].
  - congruence.
  - intros [= -> ->]. done.
Qed.

(** A pass leaves a pair as it was when every tenant either is another
    guild, does not watch the page, or finds the page settled. *)
Lemma pairView_job g p registry st :
  (forall g' s', (g', s') ∈ registry ->
     g' <> g \/ p ∉ pages s' \/
     settled cacheKey readOk cache p (ledgerGet st g p)) ->
  pairView g p (job registry st).2 = pairView g p st.
Proof.
  intros Hq. unfold runNotificationJob.
  apply (forOf_invariant (fun s => pairView g p s = pairView g p st)); [|done].
  intros [g' s'] s Hin Hs. rewrite pairView_notifyGuild; [done|].
  rewrite (ledgerGet_pairView _ _ _ _ Hs). by apply Hq.
Qed.

Lemma forOf_send_rejected g ch p msgs st :
  Exists (fun m => forall h, sendOk h (mkSendEvent g ch p m) = false) msgs ->
  (forOf msgs (send sendOk g ch p) st).1 = Threw.
Proof.
  intros Hrej. revert st.
  induction Hrej as [m msgs Hm|m msgs Hrej IH]; intros st; rewrite forOf_cons.
  - by rewrite send_rejected by apply Hm.
  - destruct (sendOk (sent st) (mkSendEvent g ch p m)) eqn:Hok.
    + rewrite (send_accepted _ _ _ _ _ Hok). apply IH.
    + by rewrite (send_rejected _ _ _ _ _ Hok).
Qed.

(** A due pair one of whose messages the sink rejects: the body throws
    before the ledger is written; only messages of that pair were sent. *)
Lemma notifyPage_rejected g ch s p st :
  readOk p = true -> changed (content_of p) (ledgerGet st g p) = true ->
  Exists (fun m => forall h, sendOk h (mkSendEvent g ch p m) = false)
         (updateMessages p (roleMentions s p) (content_of p)) ->
  let r := page_step g ch s p st in
  r.1 = Threw /\
  lastSentContent r.2 = lastSentContent st /\
  notified r.2 = notified st /\
  exists n, sent r.2
            = sent st ++ map (mkSendEvent g ch p)
                (take n (updateMessages p (roleMentions s p) (content_of p))).
Proof.
  intros Hr Hc Hrej. cbn zeta. rewrite notifyPage_due by done.
  destruct (forOf_send g ch p
              (updateMessages p (roleMentions s p) (content_of p)) st)
    as (HL & HN & n & Hs & _).
  pose proof (forOf_send_rejected g ch p _ st Hrej) as Ho.
  rewrite bind_threw by done.
  cbn [fst snd]. split_and!; try done. by exists n.
Qed.


Lemma notifyGuild_eligible g s ch st :
  targetChannel guilds g s = Some ch ->
  guild_step (g, s) st
  = forOf (pages s) (page_step g ch s) (ensureLedger g st).2.
Proof. intros Ht. unfold notifyGuild. by rewrite Ht. Qed.

Lemma not_in_keys (g g' : jsstring) (s' : Settings)
    (l : list (jsstring * Settings)) :
  g ∉ l.*1 -> (g', s') ∈ l -> g' <> g.
Proof.
  intros Hg Hin ->. apply Hg. apply list_elem_of_fmap. by exists (g, s').
Qed.


(** A pair that is due and one of whose messages the sink rejects: the
    pass throws, and every pair that is not before it in the order of the
    pass keeps its ledger entry and its count of notifications; no
    message is sent for any such pair other than the failing one. *)
Lemma job_rejected pre g s post ch ppre p ppost st :
  g ∉ pre.*1 -> p ∉ ppre ->
  pages s = ppre ++ p :: ppost ->
  targetChannel guilds g s = Some ch ->
  readOk p = true ->
  changed (content_of p) (ledgerGet st g p) = true ->
  Exists (fun m => forall h, sendOk h (mkSendEvent g ch p m) = false)
         (updateMessages p (roleMentions s p) (content_of p)) ->
  (job (pre ++ (g, s) :: post) st).1 = Threw /\
  forall g0 p0, g0 ∉ pre.*1 -> (g0 <> g \/ p0 ∉ ppre) ->
    ledgerGet (job (pre ++ (g, s) :: post) st).2 g0 p0 = ledgerGet st g0 p0 /\
    deliveries g0 p0 (notified (job (pre ++ (g, s) :: post) st).2)
    = deliveries g0 p0 (notified st) /\
    ((g0, p0) <> (g, p) ->
     eventsFor g0 p0 (sent (job (pre ++ (g, s) :: post) st).2)
     = eventsFor g0 p0 (sent st)).
Proof.
  intros Hpre Hppre Hpages Hch Hr Hc Hrej.
  assert (Hview : forall g0 p0 s0,
            pairView g0 p0 s0 = pairView g0 p0 st ->
            ledgerGet s0 g0 p0 = ledgerGet st g0 p0 /\
            deliveries g0 p0 (notified s0) = deliveries g0 p0 (notified st) /\
            ((g0, p0) <> (g, p) ->
             eventsFor g0 p0 (sent s0) = eventsFor g0 p0 (sent st))).
  { intros g0 p0 s0 Hv. unfold pairView in Hv. by injection Hv as -> -> ->. }
  unfold runNotificationJob. rewrite forOf_split.
  assert (V1 : forall g0 p0, g0 ∉ pre.*1 ->
             pairView g0 p0 (forOf pre guild_step st).2 = pairView g0 p0 st).
  { intros g0 p0 Hg0. apply (pairView_job g0 p0 pre st).
    intros g' s' Hin. left. exact (not_in_keys g0 g' s' pre Hg0 Hin). }
  destruct (forOf pre guild_step st) as [[[]|] s1]; cbn [snd] in V1;
    [|split; [done|]; intros g0 p0 Hg0 _; by apply Hview, V1].
  rewrite (notifyGuild_eligible g s ch) by done.
  assert (V2 : forall g0 p0, g0 ∉ pre.*1 ->
             pairView g0 p0 (ensureLedger g s1).2 = pairView g0 p0 st).
  { intros g0 p0 Hg0. rewrite pairView_ensureLedger. by apply V1. }
  clear V1. destruct (ensureLedger g s1) as [o2 s2]. cbn [snd] in *. clear o2.
  rewrite Hpages, forOf_split.
  assert (V3 : forall g0 p0, g0 ∉ pre.*1 -> (g0 <> g \/ p0 ∉ ppre) ->
             pairView g0 p0 (forOf ppre (page_step g ch s) s2).2
             = pairView g0 p0 st).
  { intros g0 p0 Hg0 Hp0. rewrite pairView_pages; [by apply V2|].
    intros p' Hp'. left. intros [= -> ->]. by destruct Hp0. }
  clear V2.
  destruct (forOf ppre (page_step g ch s) s2) as [[[]|] s3]; cbn [snd] in V3;
    [|split; [done|]; intros g0 p0 Hg0 Hp0; by apply Hview, V3].
  assert (Hc3 : changed (content_of p) (ledgerGet s3 g p) = true).
  { specialize (V3 g p Hpre (or_intror Hppre)).
    by rewrite (ledgerGet_pairView _ _ _ _ V3). }
  destruct (notifyPage_rejected g ch s p s3 Hr Hc3 Hrej)
    as (Ho & HL & HN & n & Hs).
  destruct (page_step g ch s p s3) as [[[]|] s4]; [done|].
  cbn [fst snd] in *. split; [done|].
  intros g0 p0 Hg0 Hp0. specialize (V3 g0 p0 Hg0 Hp0).
  destruct (Hview g0 p0 s3 V3) as (H1 & H2 & H3).
  unfold ledgerGet in *. rewrite HL, HN, Hs. split_and!; try done.
  intros Hne. rewrite eventsFor_app, eventsFor_other, app_nil_r by done.
  by apply H3.
Qed.

(** C7 (empty content).  A pair whose cached content is the empty string
    gets no message and keeps its ledger entry, whatever that entry was,
    in every pass, whether the pass completes or not. *)
Theorem empty_content_never_notifies
    (registry : list (jsstring * Settings)) (st : State) (g p : jsstring)
    (Hempty : Cache.readDropdownCache cacheKey cache p = []) :
  eventsFor g p (sent (job registry st).2) = eventsFor g p (sent st) /\
  ledgerGet (job registry st).2 g p = ledgerGet st g p /\
  deliveries g p (notified (job registry st).2)
  = deliveries g p (notified st).
Proof.
  assert (H : pairView g p (job registry st).2 = pairView g p st).
  { apply pairView_job. intros g' s' _. right. right. right. by left. }
  unfold pairView in H. by injection H as -> -> ->.
Qed.

End NotifierFacts.

Section NotifierClaims.
Import Chunking Notifier.
Context (cacheKey : jsstring -> jsstring).

Lemma NoDup_split_keys {A} (pre : list A) (x : A) (post : list A) :
  NoDup (pre ++ x :: post) -> (x ∉ pre) /\ (x ∉ post).
Proof.
  intros H. apply NoDup_app in H as (_ & H1 & H2).
  apply NoDup_cons in H2 as [H2 _]. split; [|done].
  intros Hx. apply (H1 x Hx). by left.
Qed.




(** The sink rejects everything that is sent for a pair. *)
Lemma rejected_all (sendOk : list SendEvent -> SendEvent -> bool)
    (g ch p : jsstring) (msgs : list Message) :
  msgs <> [] ->
  (forall h m, sendOk h (mkSendEvent g ch p m) = false) ->
  Exists (fun m => forall h, sendOk h (mkSendEvent g ch p m) = false) msgs.
Proof.
  intros Hne Hrej. destruct msgs as [|m msgs]; [done|].
  left. intros h. apply Hrej.
Qed.

(** C2, as the code has it (delivery failure).  When the sink rejects one
    of the messages of a pair that is due, the sends are not inside any
    [try]: the pass throws; the pair's ledger entry is not updated and no
    notification is logged for it, so the change stays due; and the pairs
    that come later in the pass (the rest of the tenant's pages and the
    tenants after it) are not processed: nothing is sent for them and
    their ledger entries stay as they were. *)
Theorem delivery_failure_aborts_pass
    (readOk : jsstring -> bool) (guilds : gmap jsstring (gmap jsstring N))
    (sendOk : list SendEvent -> SendEvent -> bool)
    (saveOk : gmap jsstring (gmap jsstring jsstring) -> bool)
    (cache : gmap jsstring jsstring)
    (pre post : list (jsstring * Settings)) (st : State)
    (g : jsstring) (s : Settings) (ch : jsstring)
    (ppre ppost : list jsstring) (p : jsstring)
    (Hkeys : NoDup ((pre ++ (g, s) :: post).*1))
    (Hpages : pages s = ppre ++ p :: ppost) (Hset : NoDup (pages s))
    (Hch : targetChannel guilds g s = Some ch)
    (Hread : readOk p = true)
    (Hdue : changed (Cache.readDropdownCache cacheKey cache p)
                    (ledgerGet st g p) = true)
    (Hrej : Exists (fun m => forall h, sendOk h (mkSendEvent g ch p m) = false)
              (updateMessages p (roleMentions s p)
                 (Cache.readDropdownCache cacheKey cache p))) :
  let r := runNotificationJob cacheKey readOk guilds sendOk saveOk cache
             (pre ++ (g, s) :: post) st in
  r.1 = Threw /\
  ledgerGet r.2 g p = ledgerGet st g p /\
  deliveries g p (notified r.2) = deliveries g p (notified st) /\
  (forall g' p', g' ∈ post.*1 \/ (g' = g /\ p' ∈ ppost) ->
     pairView g' p' r.2 = pairView g' p' st).
Proof.
  intros r.
  rewrite fmap_app, fmap_cons in Hkeys.
  pose proof (NoDup_split_keys _ _ _ Hkeys) as [Hpre Hpost].
  pose proof Hset as Hset'. rewrite Hpages in Hset'.
  apply NoDup_split_keys in Hset' as [Hppre Hppost].
  destruct (job_rejected cacheKey readOk guilds sendOk saveOk cache
              pre g s post ch ppre p ppost st) as [Ho Hv]; try done.
  fold r in Ho, Hv.
  destruct (Hv g p Hpre (or_intror Hppre)) as (HL & HD & _).
  split_and!; try done.
  intros g' p' Hlater.
  assert (Hg' : (g' ∉ pre.*1) /\ (g' <> g \/ p' ∉ ppre) /\ (g', p') <> (g, p)).
  { destruct Hlater as [Hg'|[-> Hp']].
    - apply NoDup_app in Hkeys as (_ & H1 & _). split_and!.
      + intros Hin. apply (H1 g' Hin). by right.
      + left. intros ->. done.
      + intros [= -> ->]. done.
    - rewrite Hpages in Hset. apply NoDup_app in Hset as (_ & H1 & _).
      split_and!; [done| |].
      + right. intros Hin. apply (H1 p' Hin). by right.
      + intros [= ->]. done. }
  destruct Hg' as (H1 & H2 & H3).
  destruct (Hv g' p' H1 H2) as (HL' & HD' & HE').
  unfold pairView. by rewrite HL', HD', HE'.
Qed.

End NotifierClaims.

(** ** Concrete runs of the refresh and of the notifier *)

Section ConcreteRuns.
Import Chunking Notifier Examples.

(** Three items, the fetch of the second fails: the first and the third
    are updated and the second keeps its entry. *)
Example refresh_three_items :
  (refresh3 fetchFailsTwo cached0).1 = Returned tt /\
  Cache.store unit (refresh3 fetchFailsTwo cached0).2
  = {[ pageOne := str "new"; pageTwo := str "old"; pageThree := str "new" ]}.
Proof. split; [reflexivity|]. by vm_compute. Qed.

(** C6 as stated fails: the routine has no report.  A refresh in which
    the fetch of the second item fails and one in which it succeeds with
    the content already cached end in the same state with the same
    (empty) return value, so nothing the routine returns or stores names
    the item as failed. *)
Lemma refresh_failure_not_reported :
  refresh3 fetchFailsTwo cached0 = refresh3 fetchSameTwo cached0 /\
  (refresh3 fetchFailsTwo cached0).1 = Returned tt.
Proof. split; by vm_compute. Qed.

Lemma updateAllDropdownCache_failure_isolated_witness :
  fetchFailsTwo
    (Cache.page unit
       (Cache.updateAllDropdownCache unit fetchFailsTwo id writes
          [pageOne] cached0).2) pageTwo = (tt, None) /\
  (Cache.updateAllDropdownCache unit fetchFailsTwo id writes
     ([pageOne] ++ pageTwo :: [pageThree]) cached0).1 = Returned tt.
Proof.
  split; [reflexivity|].
  apply (updateAllDropdownCache_failure_isolated fetchFailsTwo id writes
           [pageOne] pageTwo [pageThree] cached0 tt eq_refl).
Defined.

(** A first pass over a fresh ledger notifies both pages; a second pass
    over the same cache sends nothing. *)
Example two_passes :
  deliveries guild1 pageOne (notified (pass accepts cache1 fresh).2) = 1%nat /\
  sent (pass accepts cache1 (pass accepts cache1 fresh).2).2
  = sent (pass accepts cache1 fresh).2.
Proof. split; by vm_compute. Qed.



(** C2 as stated fails.  The sink rejects what is sent for [pageOne] and
    would accept what is sent for [pageTwo], which is due as well: the
    pass throws at [pageOne], nothing is sent for [pageTwo] and its
    ledger entry is not written. *)
Lemma delivery_failure_not_isolated :
  changed (Cache.readDropdownCache id cache1 pageTwo)
          (ledgerGet fresh guild1 pageTwo) = true /\
  (forall h m, rejectsPageOne h (mkSendEvent guild1 channel1 pageTwo m) = true) /\
  (pass rejectsPageOne cache1 fresh).1 = Threw /\
  sent (pass rejectsPageOne cache1 fresh).2 = [] /\
  ledgerGet (pass rejectsPageOne cache1 fresh).2 guild1 pageTwo = None.
Proof. repeat split; by vm_compute. Qed.

(** When the second chunk is rejected, the first one has been sent, the
    pass throws and the ledger is not written. *)
Example delivery_fails_at_second_chunk :
  (pass rejectsContinuations cacheLong fresh).1 = Threw /\
  length (sent (pass rejectsContinuations cacheLong fresh).2) = 1%nat /\
  ledgerGet (pass rejectsContinuations cacheLong fresh).2 guild1 pageOne = None.
Proof. split_and!; by vm_compute. Qed.

Lemma delivery_failure_aborts_pass_witness :
  NoDup (([] ++ (guild1, settings1) :: []).*1) /\
  pages settings1 = [] ++ pageOne :: [pageTwo] /\
  NoDup (pages settings1) /\
  targetChannel guilds1 guild1 settings1 = Some channel1 /\
  always pageOne = true /\
  changed (Cache.readDropdownCache id cache1 pageOne)
          (ledgerGet fresh guild1 pageOne) = true /\
  Exists (fun m => forall h,
            rejectsPageOne h (mkSendEvent guild1 channel1 pageOne m) = false)
         (updateMessages pageOne (roleMentions settings1 pageOne)
            (Cache.readDropdownCache id cache1 pageOne)) /\
  (runNotificationJob id always guilds1 rejectsPageOne always cache1
     ([] ++ (guild1, settings1) :: []) fresh).1 = Threw.
Proof.
  assert (H1 : NoDup (([] ++ (guild1, settings1) :: []).*1))
    by (apply NoDup_singleton).
  assert (H3 : NoDup (pages settings1))
    by (apply (bool_decide_unpack _); by vm_compute).
  assert (H4 : targetChannel guilds1 guild1 settings1 = Some channel1)
    by (by vm_compute).
  assert (H6 : changed (Cache.readDropdownCache id cache1 pageOne)
                       (ledgerGet fresh guild1 pageOne) = true)
    by (by vm_compute).
  assert (H7 : Exists (fun m => forall h,
                 rejectsPageOne h (mkSendEvent guild1 channel1 pageOne m) = false)
               (updateMessages pageOne (roleMentions settings1 pageOne)
                  (Cache.readDropdownCache id cache1 pageOne))).
  { apply rejected_all; [apply updateMessages_nonempty|].
    intros h m. by vm_compute. }
  split_and!; [done..|].
  apply (delivery_failure_aborts_pass id always guilds1 rejectsPageOne always
           cache1 [] [] fresh guild1 settings1 channel1 [] [pageTwo] pageOne
           H1 eq_refl H3 H4 eq_refl H6 H7).
Defined.

Lemma empty_content_never_notifies_witness :
  Cache.readDropdownCache id cacheEmptyOne pageOne = [] /\
  ledgerGet (pass accepts cacheEmptyOne notifiedBefore).2 guild1 pageOne
  = ledgerGet notifiedBefore guild1 pageOne.
Proof.
  assert (H : Cache.readDropdownCache id cacheEmptyOne pageOne = [])
    by (by vm_compute).
  split; [exact H|].
  apply (empty_content_never_notifies id always guilds1 accepts always
           cacheEmptyOne registry1 notifiedBefore guild1 pageOne H).
Defined.

(** With an empty cache entry and a ledger that holds an older snapshot,
    the pass sends nothing for the page and keeps the snapshot. *)
Example empty_content_keeps_snapshot :
  eventsFor guild1 pageOne
    (sent (pass accepts cacheEmptyOne notifiedBefore).2) = [] /\
  ledgerGet (pass accepts cacheEmptyOne notifiedBefore).2 guild1 pageOne
  = Some (str "old").
Proof. split; by vm_compute. Qed.

End ConcreteRuns.

(** ** Tenant registry *)

Section RegistryFacts.
Import Notifier Registry.
Context (writeOk : list (jsstring * Settings) -> bool)
        (replyOk : jsstring -> bool).

Lemma aset_aset {A} (k : jsstring) (v : A) (l : list (jsstring * A)) :
  aset k v (aset k v l) = aset k v l.
Proof.
  induction l as [|[k' v'] l IH]; cbn.
  - by rewrite decide_True.
  - destruct (decide (k = k')) as [->|Hne]; cbn.
    + by rewrite decide_True.
    + rewrite decide_False by done. by rewrite IH.
Qed.


Lemma saveSettings_effect st :
  saveSettings writeOk st
  = (Returned tt,
     mkState (guildSettings st)
       (if writeOk (guildSettings st) then Some (guildSettings st)
        else settingsFile st)
       (effects st ++ [WriteFile (guildSettings st) (writeOk (guildSettings st))])).
Proof.
  unfold saveSettings, bind, gets, tryCatch, writeFile.
  destruct (writeOk (guildSettings st)); reflexivity.
Qed.



End RegistryFacts.

Section RegistryRuns.
Import Notifier Registry Examples.



End RegistryRuns.

(** ** Slash-command names *)

Section CommandsFacts.
Import Normalize Commands.

Lemma digits_unfold n :
  digits n = if decide (n < 10) then [48 + n]
             else digits (n / 10) ++ [48 + n mod 10].
Proof. funelim (digits n); by rewrite Heq. Qed.

Lemma digits_are_digits n : Forall (fun c => 48 <= c <= 57) (digits n).
Proof.
  funelim (digits n).
  - constructor; [lia|constructor].
  - apply Forall_app. split; [done|].
    constructor; [|constructor].
    pose proof (N.mod_upper_bound n 10 ltac:(lia)) as Hm.
    revert Hm. generalize (n mod 10). clear. intros r Hr. lia.
Qed.

Lemma digitsValue_snoc s d :
  digitsValue (s ++ [d]) = 10 * digitsValue s + (d - 48).
Proof. unfold digitsValue. by rewrite fold_left_app. Qed.

Lemma digitsValue_digits n : digitsValue (digits n) = n.
Proof.
  funelim (digits n).
  - unfold digitsValue. cbn. lia.
  - rewrite digitsValue_snoc, H.
    replace (48 + n mod 10 - 48) with (n mod 10)
      by (generalize (n mod 10); clear; intros; lia).
    symmetry. by apply N.div_mod.
Qed.

Lemma digits_inj n m : digits n = digits m -> n = m.
Proof.
  intros H. rewrite <- (digitsValue_digits n), <- (digitsValue_digits m).
  by rewrite H.
Qed.

Lemma digits_length (k : nat) n :
  n < 10 ^ N.of_nat (Datatypes.S k) -> (length (digits n) <= Datatypes.S k)%nat.
Proof.
  revert n. induction k as [|k IH]; intros n Hn; rewrite digits_unfold.
  - change (10 ^ N.of_nat 1) with 10 in Hn. rewrite decide_True by done.
    cbn. lia.
  - destruct (decide (n < 10)); [cbn; lia|].
    rewrite length_app. cbn [length].
    assert (length (digits (n / 10)) <= Datatypes.S k)%nat; [|lia].
    apply IH. apply N.Div0.div_lt_upper_bound.
    rewrite <- N.pow_succ_r'. by rewrite <- Nat2N.inj_succ.
Qed.

Lemma suffixString_length k :
  k <= 2 ^ 32 -> (length (suffixString k) <= 11)%nat.
Proof.
  intros Hk. unfold suffixString. cbn [length].
  assert (length (digits k) <= 10)%nat; [|lia].
  apply (digits_length 9). change (10 ^ N.of_nat 10) with 10000000000.
  change (2 ^ 32) with 4294967296 in Hk. lia.
Qed.

Lemma pivot_front {A} (a : A) (x1 y1 x2 y2 : list A) :
  x1 ++ a :: y1 = x2 ++ a :: y2 -> a ∉ x1 -> a ∉ x2 -> x1 = x2.
Proof.
  revert x2. induction x1 as [|c x1 IH]; intros [|b x2] Heq H1 H2; [done| | |].
  - cbn in Heq. injection Heq as -> _. exfalso. apply H2. by left.
  - cbn in Heq. injection Heq as -> _. exfalso. apply H1. by left.
  - cbn in Heq. injection Heq as -> Heq. f_equal.
    apply IH; [done| |].
    + intros Hin. apply H1. by right.
    + intros Hin. apply H2. by right.
Qed.

Lemma underscore_not_digit k : underscore ∉ digits k.
Proof.
  intros Hin. pose proof (digits_are_digits k) as Hd.
  rewrite Forall_forall in Hd. specialize (Hd _ Hin).
  unfold underscore in Hd. lia.
Qed.

Lemma candidate_inj name k k' :
  candidate name k = candidate name k' -> k = k'.
Proof.
  unfold candidate, suffixString. intros Heq.
  apply (f_equal (@rev N)) in Heq.
  rewrite !rev_app_distr in Heq. cbn [rev] in Heq.
  rewrite <- !app_assoc in Heq. cbn [app] in Heq.
  apply pivot_front in Heq.
  - apply digits_inj. by apply rev_inj.
  - rewrite list_elem_of_In, <- in_rev, <- list_elem_of_In.
    apply underscore_not_digit.
  - rewrite list_elem_of_In, <- in_rev, <- list_elem_of_In.
    apply underscore_not_digit.
Qed.

Lemma candidate_nonempty name k : length (candidate name k) <> 0%nat.
Proof. unfold candidate, suffixString. rewrite length_app. cbn. lia. Qed.

Lemma candidate_length name k :
  k <= 2 ^ 32 -> (length (candidate name k) <= 32)%nat.
Proof.
  intros Hk. pose proof (suffixString_length k Hk) as Hs.
  unfold candidate, sliceTo. rewrite length_app.
  destruct (32 - Z.of_nat (length (suffixString k)) <? 0)%Z eqn:Hneg; [lia|].
  rewrite length_take. lia.
Qed.

Lemma uniqueLoop_result (fuel : nat) (name : jsstring) (used : gset jsstring)
    (u : jsstring) (k : N) (r : jsstring) :
  uniqueLoop fuel name used u k = Some r ->
  (r ∉ used) /\ length r <> 0%nat /\
  (r = u \/
   exists i : nat, r = candidate name (k + N.of_nat i) /\
     forall i' : nat, (i' < i)%nat -> candidate name (k + N.of_nat i') ∈ used).
Proof.
  revert u k. induction fuel as [|fuel IH]; intros u k; [done|].
  cbn [uniqueLoop].
  destruct (bool_decide (u ∈ used) || (length u =? 0)%nat) eqn:Hcond.
  - intros Hrec. destruct (IH _ _ Hrec) as (Hr & Hlen & Hcases).
    split; [done|]. split; [done|]. right.
    destruct Hcases as [->|(i & -> & Hbefore)].
    + exists 0%nat. rewrite N.add_0_r. split; [done|]. lia.
    + destruct (decide (candidate name k ∈ used)) as [Hin|Hout].
      * exists (Datatypes.S i). split.
        { f_equal. lia. }
        intros [|i'] Hi'.
        { by rewrite N.add_0_r. }
        replace (k + N.of_nat (Datatypes.S i')) with (k + 1 + N.of_nat i')
          by lia.
        apply Hbefore. lia.
      * exfalso. destruct fuel as [|fuel]; [done|].
        cbn [uniqueLoop] in Hrec.
        rewrite bool_decide_eq_false_2 in Hrec by done.
        pose proof (candidate_nonempty name k) as Hne.
        apply Nat.eqb_neq in Hne. rewrite Hne in Hrec. cbn in Hrec.
        injection Hrec as Hrec. apply candidate_inj in Hrec. lia.
  - intros [= <-]. apply orb_false_iff in Hcond as [H1 H2].
    apply bool_decide_eq_false in H1. apply Nat.eqb_neq in H2. auto.
Qed.

Lemma uniqueLoop_None (fuel : nat) (name : jsstring) (used : gset jsstring)
    (u : jsstring) (k : N) :
  uniqueLoop fuel name used u k = None ->
  forall i : nat, (Datatypes.S i < fuel)%nat ->
    candidate name (k + N.of_nat i) ∈ used.
Proof.
  revert u k. induction fuel as [|fuel IH]; intros u k Hnone i Hi; [lia|].
  cbn [uniqueLoop] in Hnone.
  destruct (bool_decide (u ∈ used) || (length u =? 0)%nat); [|done].
  destruct i as [|i].
  - rewrite N.add_0_r. destruct fuel as [|fuel]; [lia|].
    cbn [uniqueLoop] in Hnone.
    destruct (bool_decide (candidate name k ∈ used)) eqn:Hin.
    + by apply bool_decide_eq_true in Hin.
    + pose proof (candidate_nonempty name k) as Hne.
      apply Nat.eqb_neq in Hne. rewrite Hne in Hnone. done.
  - replace (k + N.of_nat (Datatypes.S i)) with (k + 1 + N.of_nat i) by lia.
    apply (IH _ _ Hnone). lia.
Qed.

(** Distinct suffixes give distinct candidates, so only as many of them
    as there are used names can be taken. *)
Lemma candidates_pigeonhole (name : jsstring) (used : gset jsstring)
    (k : N) (n : nat) :
  (forall i : nat, (i < n)%nat -> candidate name (k + N.of_nat i) ∈ used) ->
  (n <= size used)%nat.
Proof.
  intros Hall.
  set (f := fun i : nat => candidate name (k + N.of_nat i)).
  assert (Hinj : Inj (=) (=) f).
  { intros i j Hij. apply candidate_inj in Hij. lia. }
  assert (Hnd : NoDup (f <$> seq 0 n)) by (apply NoDup_fmap_2; [done|apply NoDup_seq]).
  assert (Hsub : f <$> seq 0 n ⊆+ elements used).
  { apply NoDup_submseteq; [done|]. intros x Hx.
    apply list_elem_of_fmap in Hx as (i & -> & Hi).
    apply elem_of_seq in Hi. apply elem_of_elements, Hall. lia. }
  apply submseteq_length in Hsub. rewrite length_fmap, length_seq in Hsub.
  exact Hsub.
Qed.

Section WithLowerCase.
Context (toLowerCase : jsstring -> jsstring).

Lemma baseName_length item : (length (baseName toLowerCase item) <= 32)%nat.
Proof.
  unfold baseName.
  destruct (32 <? length (normalizeChain toLowerCase item))%nat eqn:Hlen.
  - unfold slice. rewrite length_take. lia.
  - apply Nat.ltb_ge in Hlen. lia.
Qed.

Lemma registerItem_consistent fuel acc processed item :
  consistent toLowerCase acc processed ->
  (Datatypes.S (length processed) < fuel)%nat ->
  N.of_nat (length processed) < 2 ^ 32 ->
  exists acc', registerItem toLowerCase fuel acc item = Some acc' /\
               consistent toLowerCase acc' (processed ++ [item]).
Proof.
  intros (Hused & Hnd & Hlen & Hsizes & Hmap & Hdom) Hfuel Hbound.
  assert (Hsize : size (usedNames acc) = length processed).
  { rewrite Hused, size_list_to_set by done. exact Hlen. }
  unfold registerItem.
  destruct (uniqueLoop fuel (baseName toLowerCase item) (usedNames acc)
              (baseName toLowerCase item) 1) as [r|] eqn:Hloop.
  - destruct (uniqueLoop_result _ _ _ _ _ _ Hloop) as (Hfresh & Hne & Hcases).
    eexists. split; [reflexivity|].
    assert (Hr : r ∉ (commands acc).*1).
    { intros Hin. apply Hfresh. rewrite Hused. by apply elem_of_list_to_set. }
    assert (Hr32 : (0 < length r <= 32)%nat).
    { split; [lia|]. destruct Hcases as [->|(i & -> & Hbefore)].
      - apply baseName_length.
      - apply candidate_length.
        apply candidates_pigeonhole in Hbefore. lia. }
    unfold consistent. cbn [commands usedNames commandNameToDropdownItem].
    rewrite fmap_app. cbn [fmap list_fmap fst].
    split_and!.
    + rewrite Hused, list_to_set_app_L. cbn [list_to_set].
      rewrite (right_id_L ∅ (∪)). apply (comm_L (∪)).
    + apply NoDup_app. split_and!; [done| |apply NoDup_singleton].
      intros x Hx Hx'. apply list_elem_of_singleton in Hx' as ->. done.
    + rewrite !length_app. cbn. lia.
    + apply Forall_app. split; [done|]. by constructor.
    + intros i name item' Hname Hitem.
      destruct (decide (i < length (commands acc).*1)%nat) as [Hi|Hi].
      * rewrite lookup_app_l in Hname by done.
        rewrite lookup_app_l in Hitem by lia.
        destruct (Hmap i name item' Hname Hitem) as [Hlook Hshape].
        split; [|done]. rewrite lookup_insert_ne; [done|].
        intros ->. apply Hr. by eapply list_elem_of_lookup_2.
      * rewrite lookup_app_r in Hname by lia.
        rewrite lookup_app_r in Hitem by lia.
        rewrite Hlen in Hname.
        destruct (i - length processed)%nat as [|j] eqn:Hj; [|done].
        cbn in Hname, Hitem. injection Hname as <-. injection Hitem as <-.
        split; [apply lookup_insert_eq|].
        destruct Hcases as [->|(j & -> & _)]; [by left|right].
        eexists. split; [|reflexivity]. lia.
    + rewrite dom_insert_L, Hdom. done.
  - exfalso.
    pose proof (uniqueLoop_None _ _ _ _ _ Hloop) as Hall.
    assert (fuel - 1 <= size (usedNames acc))%nat; [|lia].
    apply (candidates_pigeonhole (baseName toLowerCase item) _ 1).
    intros i Hi. apply Hall. lia.
Qed.

Lemma registerItems_consistent fuel items acc processed :
  consistent toLowerCase acc processed ->
  (length processed + length items < fuel)%nat ->
  N.of_nat (length processed + length items) < 2 ^ 32 ->
  exists reg, registerItems toLowerCase fuel acc items = Some reg /\
              consistent toLowerCase reg (processed ++ items).
Proof.
  revert acc processed.
  induction items as [|item items IH]; intros acc processed Hc Hfuel Hbound.
  - exists acc. by rewrite app_nil_r.
  - cbn [length] in *.
    destruct (registerItem_consistent fuel acc processed item Hc)
      as (acc' & Hstep & Hc'); [lia|lia|].
    cbn [registerItems]. rewrite Hstep.
    destruct (IH acc' (processed ++ [item]) Hc') as (reg & Hrun & Hreg).
    + rewrite length_app. cbn. lia.
    + rewrite length_app. cbn [length]. lia.
    + exists reg. split; [done|]. by rewrite <- app_assoc in Hreg.
Qed.


End WithLowerCase.
End CommandsFacts.

Section CommandsRuns.
Import Normalize Commands.

(** Colliding and empty normalised names get the suffixes [_1], [_2]. *)
Example command_names_collide :
  (fun reg => (commands reg).*1)
    <$> registerCommands asciiLower 5
          [str "Page A"; str "page a"; str "!!!"; str "PAGE-A"]
  = Some [str "page_a"; str "page_a_1"; str "_1"; str "page_a_2"].
Proof. by vm_compute. Qed.


End CommandsRuns.

(** * Properties of the rest of the code *)

(** ** Messages of a notification *)

Section MessageFacts.
Import Chunking Notifier.

(** X1.  Whatever the content, at least one message is built; the first
    carries the title [Update: <page>] and the role mentions; every later
    message carries neither; and every description has between 1 and
    1900 code units. *)
Theorem updateMessages_shape (pageName mentions content : jsstring) :
  exists first rest,
    updateMessages pageName mentions content = first :: rest /\
    msg_title first = Some (str "Update: " ++ pageName) /\
    msg_content first = orUndefined mentions /\
    Forall (fun m => msg_title m = None /\ msg_content m = None) rest /\
    Forall (fun m => 0 < length (msg_description m) <= 1900)%nat
           (first :: rest).
Proof.
  unfold updateMessages.
  pose proof (chunkLoop_sizes content 0 [] ltac:(constructor)) as Hsizes.
  fold (chunksOf content) in Hsizes.
  destruct (chunksOf content) as [|chunk0 chunks].
  - eexists _, []. split_and!; try done.
    constructor; [|constructor]. cbn. lia.
  - eexists _, _. split_and!; try done.
    + apply Forall_forall. intros m Hm.
      apply list_elem_of_fmap in Hm as (c & -> & _). done.
    + apply Forall_cons in Hsizes as [H0 Hrest].
      constructor; [done|].
      apply Forall_forall. intros m Hm.
      apply list_elem_of_fmap in Hm as (c & -> & Hc).
      rewrite Forall_forall in Hrest. by apply Hrest.
Qed.

Lemma joinSpace_nil_inv (l : list jsstring) :
  Forall (fun x => x <> []) l -> joinSpace l = [] -> l = [].
Proof.
  intros Hl. destruct l as [|x l]; [done|].
  apply Forall_cons in Hl as [Hx _]. cbn [joinSpace].
  destruct l as [|y l]; [done|].
  intros Heq. apply app_eq_nil in Heq as [? _]. done.
Qed.

Lemma mentions_undefined_ids (settings : Settings) (pageName : jsstring) :
  orUndefined (roleMentions settings pageName) = None <->
  roleIds settings pageName = [].
Proof.
  unfold roleMentions.
  set (ids := roleIds settings pageName).
  split.
  - intros Hnone.
    assert (Hj : joinSpace (map (fun id => str "<@&" ++ id ++ str ">") ids) = []).
    { destruct (joinSpace _); [done|discriminate]. }
    apply joinSpace_nil_inv in Hj.
    + by destruct ids.
    + apply Forall_forall. intros x Hx.
      apply list_elem_of_fmap in Hx as (id & -> & _). done.
  - intros ->. reflexivity.
Qed.

(** X2.  When the first message pings nobody.  Its [content] is
    [undefined] if and only if the page has a role set of its own that is
    empty, or has none and its name is not a member [Object.prototype]
    gives to the plain object [settings.roles] with a value of which
    [Array.from] makes elements.  So a page without roles pings nobody,
    unless it is named like such a member ([constructor],
    [hasOwnProperty], ...): then the content is made of
    [<@&undefined>]. *)
Theorem mentions_undefined_iff (settings : Settings) (pageName : jsstring) :
  (orUndefined (roleMentions settings pageName) = None <->
   match roles settings !! pageName with
   | Some rs => rs = []
   | None => PlainObject.inheritedLength pageName = None \/
             PlainObject.inheritedLength pageName = Some 0%nat
   end) /\
  (roles settings !! pageName = None ->
   forall n, PlainObject.inheritedLength pageName = Some (Datatypes.S n) ->
   exists rest,
     orUndefined (roleMentions settings pageName)
     = Some (str "<@&undefined>" ++ rest)).
Proof.
  split.
  - rewrite mentions_undefined_ids. unfold roleIds.
    destruct (roles settings !! pageName) as [rs|]; [done|].
    destruct (PlainObject.inheritedLength pageName) as [[|n]|].
    + split; [by right|done].
    + split; [done|]. by intros [?|?].
    + split; [by left|done].
  - intros Hnone n Hn. unfold roleMentions, roleIds. rewrite Hnone, Hn.
    cbn [replicate map joinSpace]. destruct n as [|n].
    + exists []. by vm_compute.
    + eexists. cbn [replicate map joinSpace].
      reflexivity.
Qed.

(** A page named [constructor] for which no role was ever selected. *)
Example mentions_of_constructor :
  orUndefined
    (roleMentions (mkSettings [str "constructor"] ∅ None) (str "constructor"))
  = Some (str "<@&undefined>").
Proof. by vm_compute. Qed.

End MessageFacts.

(** ** Shape of a normalised name *)

Section NameFacts.
Import Normalize Names.
Context (toLowerCase : jsstring -> jsstring).

Lemma replaceRuns_chars (b : bool) (y : jsstring) :
  Forall nameChar (replaceRuns notLowerAlnum b y).
Proof.
  revert b. induction y as [|c y IH]; intros b; [constructor|].
  cbn [replaceRuns]. unfold notLowerAlnum at 1.
  destruct (isLowerAlnum c) eqn:Hc; cbn [negb].
  - constructor; [by left|apply IH].
  - destruct b; [apply IH|]. constructor; [by right|apply IH].
Qed.

Lemma dropWhile_suffix p s : exists t, s = t ++ dropWhile p s.
Proof.
  induction s as [|c s [t IH]]; [by exists []|].
  cbn [dropWhile]. destruct (p c); [|by exists []].
  exists (c :: t). cbn. by rewrite <- IH.
Qed.

Lemma dropWhileEnd_prefix p s : exists t, s = dropWhileEnd p s ++ t.
Proof.
  induction s as [|c s [t IH]]; [by exists []|].
  cbn [dropWhileEnd]. destruct (dropWhileEnd p s) as [|d ds] eqn:Hd.
  - destruct (p c); [by exists (c :: s)|].
    exists s. done.
  - exists t. cbn. f_equal. exact IH.
Qed.

Lemma stripUnderscores_chars P s :
  Forall P s -> Forall P (stripUnderscores s).
Proof.
  intros Hs. unfold stripUnderscores.
  destruct (dropWhile_suffix isUnderscore s) as [t1 H1].
  destruct (dropWhileEnd_prefix isUnderscore (dropWhile isUnderscore s))
    as [t2 H2].
  rewrite H1 in Hs. apply Forall_app in Hs as [_ Hs].
  rewrite H2 in Hs. by apply Forall_app in Hs as [Hs _].
Qed.

Lemma normalizeChain_strip label :
  normalizeChain toLowerCase label
  = stripUnderscores (replaceRuns notLowerAlnum false (toLowerCase label)).
Proof.
  rewrite normalizeChain_spec, <- stripUnderscores_spec.
  by destruct (replaceRuns_spec (toLowerCase label)) as [-> _].
Qed.

Lemma dropWhile_head p s :
  match dropWhile p s with [] => True | c :: _ => p c = false end.
Proof.
  induction s as [|c s IH]; [done|].
  cbn [dropWhile]. destruct (p c) eqn:Hc; [done|]. done.
Qed.

Lemma dropWhileEnd_head p s :
  match dropWhileEnd p s, s with
  | c :: _, d :: _ => c = d
  | _, _ => True
  end.
Proof.
  destruct s as [|c s]; [by destruct (dropWhileEnd p [])|].
  cbn [dropWhileEnd]. destruct (dropWhileEnd p s); [by destruct (p c)|done].
Qed.

Lemma stripUnderscores_head s :
  match stripUnderscores s with [] => True | c :: _ => isUnderscore c = false end.
Proof.
  unfold stripUnderscores.
  pose proof (dropWhile_head isUnderscore s) as H1.
  pose proof (dropWhileEnd_head isUnderscore (dropWhile isUnderscore s)) as H2.
  destruct (dropWhile isUnderscore s) as [|d r']; [done|].
  destruct (dropWhileEnd isUnderscore (d :: r')) as [|c r]; [done|]. by subst.
Qed.

Lemma noAdjacent_take n s :
  noAdjacentUnderscores s -> noAdjacentUnderscores (take n s).
Proof.
  revert n. induction s as [|c s IH]; intros [|n] Hs; try done.
  destruct Hs as [H1 H2]. cbn [take]. split; [|by apply IH].
  destruct n, s; done.
Qed.

Lemma normalizeChain_noAdjacent label :
  noAdjacentUnderscores (normalizeChain toLowerCase label).
Proof.
  rewrite normalizeChain_strip. unfold stripUnderscores.
  apply noAdjacent_dropWhileEnd, noAdjacent_dropWhile.
  destruct (replaceRuns_spec (toLowerCase label)) as [-> _].
  apply dedupUnderscores_noAdjacent.
Qed.

(** X3.  A normalised name is made of [[a-z0-9_]] only, does not start
    with ['_'] and has no two ['_'] in a row, whatever the label and the
    lower-casing of the engine. *)
Theorem normalizeDropdownName_shape (label : jsstring) :
  Forall nameChar (normalizeDropdownName toLowerCase label) /\
  head (normalizeDropdownName toLowerCase label) <> Some underscore /\
  noAdjacentUnderscores (normalizeDropdownName toLowerCase label).
Proof.
  unfold normalizeDropdownName, slice. rewrite drop_0.
  change (32 - 0)%nat with 32%nat. split_and!.
  - apply Forall_take. rewrite normalizeChain_strip.
    apply stripUnderscores_chars, replaceRuns_chars.
  - rewrite normalizeChain_strip.
    pose proof (stripUnderscores_head
                  (replaceRuns notLowerAlnum false (toLowerCase label))) as Hh.
    destruct (stripUnderscores _) as [|c r]; [done|].
    cbn. intros [= ->]. done.
  - apply noAdjacent_take, normalizeChain_noAdjacent.
Qed.

Lemma replaceRuns_all_underscore (b : bool) (y : jsstring) :
  Forall (fun c => isUnderscore c = true) (replaceRuns notLowerAlnum b y) <->
  Forall (fun c => isLowerAlnum c = false) y.
Proof.
  revert b. induction y as [|c y IH]; intros b; [done|].
  cbn [replaceRuns]. unfold notLowerAlnum at 1.
  destruct (isLowerAlnum c) eqn:Hc; cbn [negb].
  - split; intros H; apply Forall_cons in H as [H1 _]; [|congruence].
    exfalso. pose proof (notLowerAlnum_underscore c) as Hu.
    unfold notLowerAlnum in Hu. rewrite Hc in Hu. rewrite Hu in H1; done.
  - destruct b.
    + rewrite IH. split; [by constructor|]. by intros [_ ?]%Forall_cons.
    + split.
      * intros [_ H]%Forall_cons. constructor; [done|]. by apply IH in H.
      * intros [_ H]%Forall_cons. constructor; [done|]. by apply IH.
Qed.

Lemma dropWhile_nil p s :
  dropWhile p s = [] <-> Forall (fun c => p c = true) s.
Proof.
  induction s as [|c s IH]; [done|].
  cbn [dropWhile]. destruct (p c) eqn:Hc.
  - rewrite IH. split; [by constructor|]. by intros [_ ?]%Forall_cons.
  - split; [done|]. intros [H _]%Forall_cons. congruence.
Qed.

Lemma stripUnderscores_nil s :
  stripUnderscores s = [] <-> Forall (fun c => isUnderscore c = true) s.
Proof.
  unfold stripUnderscores. rewrite <- dropWhile_nil.
  pose proof (dropWhile_head isUnderscore s) as Hh.
  destruct (dropWhile isUnderscore s) as [|c r]; [done|].
  split; [|done]. cbn [dropWhileEnd].
  destruct (dropWhileEnd isUnderscore r); [|done]. by rewrite Hh.
Qed.

(** X4.  The normalised name is empty exactly when the lower-cased label
    has no character of [[a-z0-9]] (then the cache file of the flat-file
    variant is [.txt] and the command name comes from the suffix
    alone). *)
Theorem normalizeDropdownName_empty_iff (label : jsstring) :
  normalizeDropdownName toLowerCase label = [] <->
  Forall (fun c => isLowerAlnum c = false) (toLowerCase label).
Proof.
  unfold normalizeDropdownName, slice. rewrite drop_0.
  change (32 - 0)%nat with 32%nat.
  rewrite normalizeChain_strip, <- (replaceRuns_all_underscore false),
    <- stripUnderscores_nil.
  destruct (stripUnderscores _) as [|c r]; done.
Qed.

End NameFacts.

(** ** Scheduler: when the pass runs *)

Section SchedulerRuns.
Import Scheduler.
Context {World : Type} (job : M World unit).

Local Abbreviation sched := (notificationScheduler World job).
Local Abbreviation chain := (schedulerChain World job).

Lemma notificationScheduler_closed clock st :
  Gate.allowed clock.1 clock.2 = false ->
  sched clock st = (Returned tt, st).
Proof.
  intros Hno. destruct clock as [hour minute]. cbn [fst snd] in Hno.
  unfold notificationScheduler, bind, gets. by rewrite Hno.
Qed.

Lemma notificationScheduler_open clock st :
  Gate.allowed clock.1 clock.2 = true ->
  lastMinuteChecked World st <> Some (minuteOf clock) ->
  sched clock st
  = match job (world World st) with
    | (Returned _, w) =>
        (Returned tt,
         mkState World (Some (minuteOf clock))
                 (running World st ++ [clock]) w)
    | (Threw, w) =>
        (Threw,
         mkState World (lastMinuteChecked World st)
                 (running World st ++ [clock]) w)
    end.
Proof.
  intros Hyes Hguard. destruct clock as [hour minute]. cbn [fst snd] in Hyes.
  unfold notificationScheduler, bind, gets, modify, runJob. rewrite Hyes.
  unfold minuteOf in Hguard. cbn [fst snd] in Hguard.
  rewrite bool_decide_eq_false_2 by done. cbn [negb andb].
  cbn [world lastMinuteChecked running].
  by destruct (job (world World st)) as [[[]|] w].
Qed.

(** X5.  The pass is only ever started at a slot of the gate: whatever
    the clock readings and whatever the job does, every run added to the
    record was started at a reading for which the gate is open. *)
Theorem scheduler_runs_only_at_slots (clocks : list (Z * Z)) (st : State World) :
  exists runs,
    running World (chain clocks st).2 = running World st ++ runs /\
    Forall (fun c => Gate.allowed c.1 c.2 = true) runs.
Proof.
  unfold schedulerChain.
  apply (forOf_invariant
           (fun s => exists runs,
                running World s = running World st ++ runs /\
                Forall (fun c => Gate.allowed c.1 c.2 = true) runs)).
  - intros c s _ (runs & Hruns & Hall).
    destruct (Gate.allowed c.1 c.2) eqn:Hc;
      [|rewrite notificationScheduler_closed by done; by exists runs].
    destruct (decide (lastMinuteChecked World s = Some (minuteOf c))) as [Hg|Hg];
      [rewrite notificationScheduler_guarded by done; by exists runs|].
    rewrite notificationScheduler_open by done.
    exists (runs ++ [c]).
    destruct (job (world World s)) as [[[]|] w]; cbn [snd running];
      (split; [by rewrite Hruns, app_assoc|]);
      apply Forall_app; (split; [done|]); by constructor.
  - exists []. by rewrite app_nil_r.
Qed.

(** X6.  No slot is missed: when the job returns every time and the
    readings are of pairwise different minutes, none of them the minute
    the guard holds, the pass runs at exactly the readings for which the
    gate is open, in order, and the chain stays armed. *)
Theorem scheduler_runs_at_every_slot (clocks : list (Z * Z)) (st : State World)
    (Hreturns : forall w, (job w).1 = Returned tt)
    (Hdistinct : NoDup (minuteOf <$> clocks))
    (Hguard : forall c, c ∈ clocks ->
                lastMinuteChecked World st <> Some (minuteOf c)) :
  (chain clocks st).1 = Returned tt /\
  running World (chain clocks st).2
  = running World st ++ filter (fun c => Gate.allowed c.1 c.2 = true) clocks.
Proof.
  unfold schedulerChain. revert st Hguard.
  induction clocks as [|c clocks IH]; intros st Hguard.
  - cbn. by rewrite app_nil_r.
  - rewrite fmap_cons in Hdistinct. apply NoDup_cons in Hdistinct as [Hc Hnd].
    rewrite forOf_cons.
    destruct (Gate.allowed c.1 c.2) eqn:Hopen.
    + rewrite notificationScheduler_open;
        [|done|apply Hguard; by left].
      pose proof (Hreturns (world World st)) as Hr.
      destruct (job (world World st)) as [[[]|] w]; [|done].
      rewrite filter_cons_True by done.
      destruct (IH Hnd (mkState World (Some (minuteOf c))
                                (running World st ++ [c]) w)) as [Ho Hruns].
      { intros c' Hc' [= Heq]. apply Hc. rewrite Heq.
        apply list_elem_of_fmap. by exists c'. }
      split; [done|]. rewrite Hruns. cbn [running].
      by rewrite <- app_assoc.
    + rewrite notificationScheduler_closed by done.
      rewrite filter_cons_False by (by rewrite Hopen).
      apply IH; [done|]. intros c' Hc'. apply Hguard. by right.
Qed.

(** X7.  A pass that throws ends the scheduler: the execution in which
    it happens does not re-arm the timer, so no later reading is looked
    at, at whatever slot; the guard keeps its old value. *)
Theorem scheduler_stops_after_throw (before : list (Z * Z)) (clock : Z * Z)
    (later : list (Z * Z)) (st st1 : State World)
    (Hbefore : chain before st = (Returned tt, st1))
    (Hopen : Gate.allowed clock.1 clock.2 = true)
    (Hguard : lastMinuteChecked World st1 <> Some (minuteOf clock))
    (Hthrows : (job (world World st1)).1 = Threw) :
  chain (before ++ clock :: later) st
  = (Threw, mkState World (lastMinuteChecked World st1)
                    (running World st1 ++ [clock])
                    (job (world World st1)).2).
Proof.
  unfold schedulerChain in *. rewrite forOf_split, Hbefore.
  rewrite notificationScheduler_open by done.
  by destruct (job (world World st1)) as [[[]|] w].
Qed.

End SchedulerRuns.

Lemma scheduler_runs_at_every_slot_witness :
  (forall w : unit, (@ret unit unit tt w).1 = Returned tt) /\
  NoDup (Scheduler.minuteOf <$> [(15, 32); (15, 33); (15, 34); (16, 3)]%Z) /\
  (forall c, c ∈ [(15, 32); (15, 33); (15, 34); (16, 3)]%Z ->
     Scheduler.lastMinuteChecked unit (Scheduler.mkState unit None [] tt)
     <> Some (Scheduler.minuteOf c)) /\
  Scheduler.running unit
    (Scheduler.schedulerChain unit (ret tt)
       [(15, 32); (15, 33); (15, 34); (16, 3)]%Z
       (Scheduler.mkState unit None [] tt)).2
  = [] ++ filter (fun c => Gate.allowed c.1 c.2 = true)
             [(15, 32); (15, 33); (15, 34); (16, 3)]%Z.
Proof.
  assert (H1 : forall w : unit, (@ret unit unit tt w).1 = Returned tt) by done.
  assert (H2 : NoDup (Scheduler.minuteOf
                        <$> [(15, 32); (15, 33); (15, 34); (16, 3)]%Z))
    by (apply (bool_decide_unpack _); by vm_compute).
  assert (H3 : forall c, c ∈ [(15, 32); (15, 33); (15, 34); (16, 3)]%Z ->
             Scheduler.lastMinuteChecked unit (Scheduler.mkState unit None [] tt)
             <> Some (Scheduler.minuteOf c)) by done.
  split_and!; [done..|].
  apply (scheduler_runs_at_every_slot (ret tt) _
           (Scheduler.mkState unit None [] tt) H1 H2 H3).
Defined.

Lemma scheduler_stops_after_throw_witness :
  Scheduler.schedulerChain unit throw [(15, 32)%Z]
    (Scheduler.mkState unit None [] tt)
  = (Returned tt, Scheduler.mkState unit None [] tt) /\
  Gate.allowed 15 33 = true /\
  Scheduler.lastMinuteChecked unit (Scheduler.mkState unit None [] tt)
  <> Some (Scheduler.minuteOf (15, 33)%Z) /\
  (@throw unit unit tt).1 = Threw /\
  Scheduler.schedulerChain unit throw
    ([(15, 32)%Z] ++ (15, 33)%Z :: [(16, 3)%Z])
    (Scheduler.mkState unit None [] tt)
  = (Threw, Scheduler.mkState unit None ([] ++ [(15, 33)%Z]) tt).
Proof.
  split_and!; [done..|].
  apply (scheduler_stops_after_throw throw [(15, 32)%Z] (15, 33)%Z [(16, 3)%Z]
           (Scheduler.mkState unit None [] tt)
           (Scheduler.mkState unit None [] tt)); done.
Defined.

(** ** Content cache: what a refresh keeps and what it writes *)

Section CacheMore.
Import Cache.
Context {Page : Type}
        (getContentForDropdownItem : Page -> jsstring -> Page * option jsstring)
        (cacheKey : jsstring -> jsstring)
        (writeOk : jsstring -> jsstring -> bool).

Local Abbreviation refresh :=
  (updateAllDropdownCache Page getContentForDropdownItem cacheKey writeOk).
Local Abbreviation refreshItem item :=
  (tryCatch (let! content := fetch Page getContentForDropdownItem item in
             writeDropdownCache Page cacheKey writeOk item content)
            (ret tt)).

Lemma refreshItem_store item st :
  store Page (refreshItem item st).2 = store Page st \/
  exists content,
    store Page (refreshItem item st).2
    = <[cacheKey item := content]> (store Page st).
Proof.
  unfold tryCatch, bind, fetch, writeDropdownCache, ret.
  destruct (getContentForDropdownItem (page Page st) item) as [pg [c|]];
    [|by left].
  cbn [store page]. destruct (writeOk (cacheKey item) c); [|by left].
  right. by exists (Utf8.toWellFormed c).
Qed.

(** X8.  A refresh never removes a cache entry, and the only entries it
    changes are those of the items it was given: every key that held a
    content still holds one afterwards, and a key whose entry differs
    after the refresh is the cache key of one of the items. *)
Theorem refresh_keeps_entries (items : list jsstring) (st : State Page) :
  (forall k, is_Some (store Page st !! k) ->
             is_Some (store Page (refresh items st).2 !! k)) /\
  (forall k, store Page (refresh items st).2 !! k <> store Page st !! k ->
             k ∈ cacheKey <$> items).
Proof.
  split.
  - unfold updateAllDropdownCache.
    apply (forOf_invariant
             (fun s => forall k, is_Some (store Page st !! k) ->
                                 is_Some (store Page s !! k))); [|done].
    intros item s _ Hs k Hk. specialize (Hs k Hk).
    destruct (refreshItem_store item s) as [->|[c ->]]; [done|].
    destruct (decide (cacheKey item = k)) as [->|Hne].
    + rewrite lookup_insert_eq. by eexists.
    + by rewrite lookup_insert_ne.
  - intros k Hk. destruct (decide (k ∈ cacheKey <$> items)) as [|Hnot]; [done|].
    exfalso. apply Hk. by apply updateAllDropdownCache_other_key.
Qed.

Lemma toWellFormed_plain (s : jsstring) :
  Forall Utf8.plain s -> Utf8.toWellFormed s = s.
Proof.
  induction 1 as [|c s [Hh Hl] Hs IH]; [done|].
  cbn [Utf8.toWellFormed]. by rewrite Hh, Hl, IH.
Qed.

(** X9.  What a refresh writes is what the readers get, up to the way
    through UTF-8: when the fetch of an item succeeds at its turn and the
    store takes the write, and no later item of the same refresh shares
    its cache key, reading the item after the refresh gives the fetched
    content with every unpaired surrogate replaced by U+FFFD; it gives
    the fetched content itself when that holds no surrogate. *)
Theorem refresh_then_read (pre : list jsstring) (item : jsstring)
    (post : list jsstring) (st : State Page) (pg : Page) (content : jsstring)
    (Hfetch : getContentForDropdownItem (page Page (refresh pre st).2) item
              = (pg, Some content))
    (Hwrite : writeOk (cacheKey item) content = true)
    (Hlast : cacheKey item ∉ cacheKey <$> post) :
  readDropdownCache cacheKey
    (store Page (refresh (pre ++ item :: post) st).2) item
  = Utf8.toWellFormed content /\
  (Forall Utf8.plain content ->
   readDropdownCache cacheKey
     (store Page (refresh (pre ++ item :: post) st).2) item = content).
Proof.
  assert (Hread : readDropdownCache cacheKey
                    (store Page (refresh (pre ++ item :: post) st).2) item
                  = Utf8.toWellFormed content).
  { unfold readDropdownCache.
    rewrite (updateAllDropdownCache_fetched _ _ _ pre item post st pg content)
      by done.
    rewrite updateAllDropdownCache_other_key by done.
    cbn [store]. by rewrite lookup_insert_eq. }
  split; [done|]. intros Hplain. by rewrite Hread, toWellFormed_plain.
Qed.

End CacheMore.

Lemma refresh_then_read_witness :
  Examples.fetchFailsTwo
    (Cache.page unit
       (Cache.updateAllDropdownCache unit Examples.fetchFailsTwo id
          Examples.writes [Examples.pageOne; Examples.pageTwo]
          Examples.cached0).2) Examples.pageThree
  = (tt, Some (str "new")) /\
  Examples.writes (id Examples.pageThree) (str "new") = true /\
  (id Examples.pageThree ∉ id <$> []) /\
  Cache.readDropdownCache id
    (Cache.store unit
       (Cache.updateAllDropdownCache unit Examples.fetchFailsTwo id
          Examples.writes
          ([Examples.pageOne; Examples.pageTwo] ++ Examples.pageThree :: [])
          Examples.cached0).2) Examples.pageThree = str "new".
Proof.
  assert (H3 : id Examples.pageThree ∉ id <$> []) by (by apply not_elem_of_nil).
  split_and!; [done..|].
  destruct (refresh_then_read Examples.fetchFailsTwo id Examples.writes
              [Examples.pageOne; Examples.pageTwo] Examples.pageThree []
              Examples.cached0 tt (str "new") eq_refl eq_refl H3)
    as [_ Hplain].
  apply Hplain. repeat constructor.
Defined.

(** A content that ends in an unpaired high surrogate is read back with
    U+FFFD in its place. *)
Example refresh_then_read_surrogate :
  Cache.readDropdownCache id
    (Cache.store unit
       (Cache.updateAllDropdownCache unit (fun pg _ => (pg, Some [97; 55357]))
          id Examples.writes [Examples.pageOne] Examples.cached0).2)
    Examples.pageOne
  = [97; 65533].
Proof. by vm_compute. Qed.

(** ** Change notifier: what a pass sends and what it records *)

Section NotifierSafety.
Import Chunking Notifier Delivery.
Context (cacheKey : jsstring -> jsstring) (readOk : jsstring -> bool)
        (guilds : gmap jsstring (gmap jsstring N))
        (sendOk : list SendEvent -> SendEvent -> bool)
        (saveOk : gmap jsstring (gmap jsstring jsstring) -> bool)
        (cache : gmap jsstring jsstring).

Local Abbreviation content_of p := (Cache.readDropdownCache cacheKey cache p).
Local Abbreviation page_step :=
  (notifyPage cacheKey readOk sendOk saveOk cache).
Local Abbreviation guild_step :=
  (notifyGuild cacheKey readOk guilds sendOk saveOk cache).
Local Abbreviation job :=
  (runNotificationJob cacheKey readOk guilds sendOk saveOk cache).

Lemma changed_nonempty c last : changed c last = true -> c <> [].
Proof.
  unfold changed. intros [H _]%andb_true_iff.
  by apply negb_true_iff, bool_decide_eq_false in H.
Qed.

(** What the loop body does to the sends and to the ledger: either the
    ledger is as before and some first messages of the page's
    notification were sent (none when the page is skipped), or the whole
    notification was sent and the ledger holds the content for the
    pair. *)
Lemma notifyPage_effect g ch s p st :
  (exists n,
      sent (page_step g ch s p st).2
      = sent st ++ take n (notification cacheKey cache g s ch p) /\
      (forall g0 p0, ledgerGet (page_step g ch s p st).2 g0 p0
                     = ledgerGet st g0 p0) /\
      (n <> 0%nat -> readOk p = true /\ content_of p <> [])) \/
  (readOk p = true /\ content_of p <> [] /\
   sent (page_step g ch s p st).2
   = sent st ++ notification cacheKey cache g s ch p /\
   (forall g0 p0, ledgerGet (page_step g ch s p st).2 g0 p0
                  = if decide ((g, p) = (g0, p0)) then Some (content_of p)
                    else ledgerGet st g0 p0)).
Proof.
  unfold notification.
  destruct (readOk p) eqn:Hr;
    [|left; exists 0%nat; rewrite notifyPage_skip by (by left);
      cbn; by rewrite app_nil_r].
  destruct (changed (content_of p) (ledgerGet st g p)) eqn:Hc;
    [|left; exists 0%nat; rewrite notifyPage_skip by (by right);
      cbn; by rewrite app_nil_r].
  pose proof (changed_nonempty _ _ Hc) as Hne.
  rewrite notifyPage_due by done.
  destruct (forOf_send sendOk g ch p
              (updateMessages p (roleMentions s p) (content_of p)) st)
    as (HL & HN & n & Hs & Hall).
  unfold bind, ledgerSet, logNotify, modify, saveLastSentContent.
  destruct (forOf _ (send sendOk g ch p) st) as [[[]|] s1]; cbn [fst snd] in *.
  - right. rewrite Hall in Hs by done.
    split_and!; try done.
    + by destruct (saveOk _).
    + intros g0 p0.
      pose proof (ledgerGet_ledgerSet g0 p0 g p (content_of p) s1) as Hset.
      unfold ledgerSet, modify in Hset. cbn [snd] in Hset.
      assert (Hsame : ledgerGet s1 g0 p0 = ledgerGet st g0 p0)
        by (unfold ledgerGet; by rewrite HL).
      rewrite Hsame in Hset. rewrite <- Hset.
      by destruct (saveOk _).
  - left. exists n. rewrite <- fmap_take. split_and!; try done.
    intros g0 p0. unfold ledgerGet. by rewrite HL.
Qed.

Lemma notification_elem g s ch p n ev :
  ev ∈ take n (notification cacheKey cache g s ch p) ->
  n <> 0%nat /\ ev_guild ev = g /\ ev_channel ev = ch /\ ev_page ev = p /\
  ev ∈ notification cacheKey cache g s ch p.
Proof.
  intros Hin. split; [by destruct n; [apply elem_of_nil in Hin|]|].
  assert (Hall : ev ∈ notification cacheKey cache g s ch p).
  { rewrite <- (take_drop n (notification cacheKey cache g s ch p)).
    apply elem_of_app. by left. }
  unfold notification in Hall.
  apply list_elem_of_fmap in Hall as (m & -> & Hm). cbn.
  split_and!; try done.
  unfold notification. apply list_elem_of_fmap. by exists m.
Qed.

Lemma sent_ensureLedger g st : sent (ensureLedger g st).2 = sent st.
Proof.
  unfold ensureLedger, modify. cbn [snd].
  by destruct (lastSentContent st !! g).
Qed.

(** X10.  A pass sends nothing that the registry and the cache do not
    account for: whatever the sink and the store do and however the pass
    ends, every message it sends is a message of the notification of a
    page with a readable, non-empty cache entry, watched by a tenant of
    the registry, and goes to that tenant's configured text channel. *)
Theorem pass_sends_only_notifications
    (registry : list (jsstring * Settings)) (st : State) :
  exists new,
    sent (job registry st).2 = sent st ++ new /\
    Forall (accountedFor cacheKey readOk guilds cache registry) new.
Proof.
  set (P := fun s : State => exists new,
              sent s = sent st ++ new /\
              Forall (accountedFor cacheKey readOk guilds cache registry) new).
  unfold runNotificationJob.
  apply (forOf_invariant P); [|exists []; by rewrite app_nil_r].
  intros [g s] s0 Hin Hs0. unfold notifyGuild.
  destruct (targetChannel guilds g s) as [ch|] eqn:Hch; [|done].
  unfold bind at 1.
  assert (P1 : P (ensureLedger g s0).2).
  { destruct Hs0 as (new & Hn & Hall). exists new.
    by rewrite sent_ensureLedger. }
  destruct (ensureLedger g s0) as [[[]|] s1]; cbn [snd] in *; [|done].
  apply (forOf_invariant P); [|done].
  intros p s2 Hp (new & Hn & Hall).
  assert (Hext : exists n,
             sent (page_step g ch s p s2).2
             = sent s2 ++ take n (notification cacheKey cache g s ch p) /\
             (n <> 0%nat -> readOk p = true /\ content_of p <> [])).
  { destruct (notifyPage_effect g ch s p s2)
      as [(n & Hsent & _ & Hn0)|(Hr & Hne & Hsent & _)].
    - by exists n.
    - exists (length (notification cacheKey cache g s ch p)).
      rewrite firstn_all. done. }
  destruct Hext as (n & Hsent & Hn0).
  exists (new ++ take n (notification cacheKey cache g s ch p)).
  split; [by rewrite Hsent, Hn, app_assoc|].
  apply Forall_app. split; [done|].
  apply Forall_forall. intros ev Hev.
  apply notification_elem in Hev as (Hnz & <- & <- & <- & Hev).
  destruct (Hn0 Hnz) as [Hr Hne].
  exists s. split_and!; done.
Qed.

(** X11.  The ledger is written only after the delivery: for every pair,
    after a pass (however it ends) the ledger entry is what it was before,
    or it is the current non-empty cache content of the page and the pass
    has sent the whole notification of the page for a tenant with that
    guild id. *)
Theorem ledger_written_only_after_delivery
    (registry : list (jsstring * Settings)) (st : State) (g p : jsstring) :
  exists new,
    sent (job registry st).2 = sent st ++ new /\
    (ledgerGet (job registry st).2 g p = ledgerGet st g p \/
     (ledgerGet (job registry st).2 g p = Some (content_of p) /\
      content_of p <> [] /\
      deliveredIn cacheKey guilds cache registry g p new)).
Proof.
  set (P := fun s : State => exists new,
              sent s = sent st ++ new /\
              (ledgerGet s g p = ledgerGet st g p \/
               (ledgerGet s g p = Some (content_of p) /\
                content_of p <> [] /\
                deliveredIn cacheKey guilds cache registry g p new))).
  assert (Hgrow : forall s s' new extra,
            sent s = sent st ++ new ->
            sent s' = sent s ++ extra ->
            ledgerGet s' g p = ledgerGet s g p ->
            (ledgerGet s g p = ledgerGet st g p \/
             (ledgerGet s g p = Some (content_of p) /\
              content_of p <> [] /\
              deliveredIn cacheKey guilds cache registry g p new)) ->
            P s').
  { intros s s' new extra Hn Hs' HL Hcase. exists (new ++ extra).
    split; [by rewrite Hs', Hn, app_assoc|].
    destruct Hcase as [Heq|(Heq & Hne & s0 & ch & b & a & Hin & Hch & ->)].
    - left. congruence.
    - right. split_and!; [congruence|done|].
      exists s0, ch, b, (a ++ extra). split_and!; try done.
      by rewrite <- !app_assoc. }
  unfold runNotificationJob.
  apply (forOf_invariant P); [|exists []; split; [by rewrite app_nil_r|by left]].
  intros [g' s'] s0 Hin Hs0. unfold notifyGuild.
  destruct (targetChannel guilds g' s') as [ch|] eqn:Hch; [|done].
  unfold bind at 1.
  pose proof (sent_ensureLedger g' s0) as He.
  pose proof (pairView_ensureLedger g p g' s0) as Hv.
  apply ledgerGet_pairView in Hv.
  assert (P1 : P (ensureLedger g' s0).2).
  { destruct Hs0 as (new & Hn & Hcase).
    apply (Hgrow s0 _ new []); [done|by rewrite app_nil_r|done|done]. }
  destruct (ensureLedger g' s0) as [[[]|] s1]; cbn [snd] in *; [|done].
  apply (forOf_invariant P); [|done].
  intros p' s2 Hp' (new & Hn & Hcase).
  destruct (notifyPage_effect g' ch s' p' s2)
    as [(n & Hsent & HL & _)|(Hr & Hne & Hsent & HL)].
  - by apply (Hgrow s2 _ new _ Hn Hsent (HL g p)).
  - specialize (HL g p).
    destruct (decide ((g', p') = (g, p))) as [[= -> ->]|Hother].
    + exists (new ++ notification cacheKey cache g s' ch p).
      split; [by rewrite Hsent, Hn, app_assoc|]. right.
      split_and!; [done..|].
      exists s', ch, new, []. split_and!; try done. by rewrite app_nil_r.
    + by apply (Hgrow s2 _ new _ Hn Hsent HL).
Qed.

(** The sends of a pass for one pair of a tenant listed once: some first
    messages of the pair's notification, whatever the outcome. *)
Lemma job_pair_events pre g s post ch ppre p ppost st :
  g ∉ pre.*1 -> g ∉ post.*1 -> p ∉ ppre -> p ∉ ppost ->
  pages s = ppre ++ p :: ppost ->
  targetChannel guilds g s = Some ch ->
  exists n,
    eventsFor g p (sent (job (pre ++ (g, s) :: post) st).2)
    = eventsFor g p (sent st) ++ take n (notification cacheKey cache g s ch p).
Proof.
  intros Hpre Hpost Hppre Hppost Hpages Hch.
  assert (Hsame : forall s0 base k,
            pairView g p s0 = pairView g p base ->
            eventsFor g p (sent base)
            = eventsFor g p (sent st)
              ++ take k (notification cacheKey cache g s ch p) ->
            exists n, eventsFor g p (sent s0)
                      = eventsFor g p (sent st)
                        ++ take n (notification cacheKey cache g s ch p)).
  { intros s0 base k Hv Hb. exists k. unfold pairView in Hv.
    injection Hv as _ -> _. done. }
  assert (H0 : eventsFor g p (sent st)
               = eventsFor g p (sent st)
                 ++ take 0 (notification cacheKey cache g s ch p))
    by (by rewrite app_nil_r).
  unfold runNotificationJob. rewrite forOf_split.
  assert (V1 : pairView g p (forOf pre guild_step st).2 = pairView g p st).
  { apply (pairView_job cacheKey readOk guilds sendOk saveOk cache g p pre st).
    intros g' s' Hin. left. exact (not_in_keys g g' s' pre Hpre Hin). }
  destruct (forOf pre guild_step st) as [[[]|] s1]; cbn [snd] in V1;
    [|by apply (Hsame _ st 0%nat)].
  rewrite (notifyGuild_eligible _ _ _ _ _ _ g s ch) by done.
  assert (V2 : pairView g p (ensureLedger g s1).2 = pairView g p st)
    by (by rewrite pairView_ensureLedger).
  clear V1. destruct (ensureLedger g s1) as [o2 s2]. cbn [snd] in *. clear o2.
  rewrite Hpages, forOf_split.
  assert (V3 : pairView g p (forOf ppre (page_step g ch s) s2).2
               = pairView g p st).
  { rewrite pairView_pages; [done|].
    intros p' Hp'. left. intros [= <-]. done. }
  clear V2.
  destruct (forOf ppre (page_step g ch s) s2) as [[[]|] s3]; cbn [snd] in V3;
    [|by apply (Hsame _ st 0%nat)].
  assert (V4 : exists k,
             eventsFor g p (sent (page_step g ch s p s3).2)
             = eventsFor g p (sent st)
               ++ take k (notification cacheKey cache g s ch p)).
  { unfold pairView in V3. injection V3 as _ HE _.
    destruct (notifyPage_effect g ch s p s3)
      as [(n & Hsent & _)|(_ & _ & Hsent & _)].
    - exists n. rewrite Hsent, eventsFor_app, HE. f_equal.
      unfold notification. rewrite <- fmap_take. apply eventsFor_same.
    - exists (length (notification cacheKey cache g s ch p)).
      rewrite Hsent, eventsFor_app, HE, firstn_all. f_equal.
      apply eventsFor_same. }
  destruct V4 as (k & V4).
  destruct (page_step g ch s p s3) as [[[]|] s4]; cbn [snd] in V4;
    [|by exists k].
  assert (V5 : pairView g p (forOf ppost (page_step g ch s) s4).2
               = pairView g p s4).
  { apply pairView_pages. intros p' Hp'. left. intros [= <-]. done. }
  destruct (forOf ppost (page_step g ch s) s4) as [[[]|] s5]; cbn [snd] in V5;
    [|by apply (Hsame _ s4 k)].
  assert (V6 : pairView g p (forOf post guild_step s5).2 = pairView g p s5).
  { apply (pairView_job cacheKey readOk guilds sendOk saveOk cache g p post s5).
    intros g' s' Hin. left. exact (not_in_keys g g' s' post Hpost Hin). }
  apply (Hsame _ s4 k); [congruence|done].
Qed.

Lemma registry_split (registry : list (jsstring * Settings))
    (g : jsstring) (s : Settings) :
  NoDup (registry.*1) -> (g, s) ∈ registry ->
  exists pre post,
    registry = pre ++ (g, s) :: post /\ (g ∉ pre.*1) /\ (g ∉ post.*1).
Proof.
  intros Hkeys Hin.
  apply list_elem_of_split in Hin as (pre & post & ->).
  exists pre, post. split; [done|].
  rewrite fmap_app, fmap_cons in Hkeys.
  exact (NoDup_split_keys _ _ _ Hkeys).
Qed.

(** X12.  At most one notification per pair and pass, in order: for a
    tenant listed once in the registry and a page it watches, the
    messages a pass sends for the pair are the first [n] messages of the
    pair's notification, for some [n], whatever the sink and the store do
    and however the pass ends. *)
Theorem pass_sends_pair_in_order
    (registry : list (jsstring * Settings)) (st : State)
    (g : jsstring) (s : Settings) (ch p : jsstring)
    (Hkeys : NoDup (registry.*1)) (Hin : (g, s) ∈ registry)
    (Hset : NoDup (pages s)) (Hp : p ∈ pages s)
    (Hch : targetChannel guilds g s = Some ch) :
  exists n,
    eventsFor g p (sent (job registry st).2)
    = eventsFor g p (sent st) ++ take n (notification cacheKey cache g s ch p).
Proof.
  destruct (registry_split registry g s Hkeys Hin)
    as (pre & post & -> & Hpre & Hpost).
  apply list_elem_of_split in Hp as (ppre & ppost & Hpages).
  rewrite Hpages in Hset. apply NoDup_split_keys in Hset as [Hppre Hppost].
  by apply (job_pair_events pre g s post ch ppre p ppost).
Qed.

End NotifierSafety.

Section NotifierRetry.
Import Chunking Notifier Delivery.
Context (cacheKey : jsstring -> jsstring) (readOk : jsstring -> bool)
        (guilds : gmap jsstring (gmap jsstring N))
        (cache : gmap jsstring jsstring).


End NotifierRetry.

Section NotifierRuns.
Import Chunking Notifier Delivery Examples.

Lemma registry1_listed :
  NoDup (registry1.*1) /\ (guild1, settings1) ∈ registry1 /\
  NoDup (pages settings1) /\ pageOne ∈ pages settings1 /\
  targetChannel guilds1 guild1 settings1 = Some channel1.
Proof.
  split_and!.
  - apply NoDup_singleton.
  - apply list_elem_of_singleton. done.
  - apply (bool_decide_unpack _). by vm_compute.
  - by left.
  - by vm_compute.
Qed.

Lemma pass_sends_pair_in_order_witness :
  NoDup (registry1.*1) /\ (guild1, settings1) ∈ registry1 /\
  NoDup (pages settings1) /\ pageOne ∈ pages settings1 /\
  targetChannel guilds1 guild1 settings1 = Some channel1 /\
  exists n,
    eventsFor guild1 pageOne (sent (pass rejectsContinuations cacheLong fresh).2)
    = eventsFor guild1 pageOne (sent fresh)
      ++ take n (notification id cacheLong guild1 settings1 channel1 pageOne).
Proof.
  destruct registry1_listed as (H1 & H2 & H3 & H4 & H5).
  split_and!; [done..|].
  apply (pass_sends_pair_in_order id always guilds1 rejectsContinuations
           always cacheLong registry1 fresh guild1 settings1 channel1 pageOne
           H1 H2 H3 H4 H5).
Defined.


End NotifierRuns.

(** ** Tenant registry: authorisation, isolation, restart *)

Section RegistryMore.
Import Notifier Registry Startup.
Context (writeOk : list (jsstring * Settings) -> bool)
        (replyOk : jsstring -> bool).

Local Abbreviation noRecord := (mkSettings [] ∅ None).
Local Abbreviation handler := (selectMenuHandler writeOk replyOk).

Lemma newSet_acc_NoDup (l acc : list jsstring) :
  NoDup acc ->
  NoDup (fold_left (fun acc v => if decide (v ∈ acc) then acc else acc ++ [v])
                   l acc).
Proof.
  revert acc. induction l as [|v l IH]; intros acc Hacc; [done|].
  cbn. apply IH. case_decide; [done|].
  apply NoDup_app. split_and!; [done| |apply NoDup_singleton].
  intros x Hx ->%list_elem_of_singleton. done.
Qed.

Lemma newSet_NoDup (l : list jsstring) : NoDup (newSet l).
Proof. apply newSet_acc_NoDup. constructor. Qed.





Lemma aset_keys {A} (k : jsstring) (v : A) (l : list (jsstring * A)) :
  (aset k v l).*1 = if decide (k ∈ l.*1) then l.*1 else l.*1 ++ [k].
Proof.
  induction l as [|[k' v'] l IH]; cbn; [done|].
  destruct (decide (k = k')) as [->|Hne]; cbn.
  - rewrite decide_True by left. done.
  - rewrite IH. destruct (decide (k ∈ l.*1)) as [Hin|Hout].
    + rewrite decide_True by (by right). done.
    + rewrite decide_False; [done|].
      intros [?|?]%elem_of_cons; done.
Qed.

Lemma alookup_aset_ne {A} (k k' : jsstring) (v : A) (l : list (jsstring * A)) :
  k' <> k -> alookup k' (aset k v l) = alookup k' l.
Proof.
  intros Hne. induction l as [|[k0 v0] l IH]; cbn.
  - by rewrite decide_False.
  - destruct (decide (k = k0)) as [->|Hk]; cbn.
    + by rewrite !decide_False.
    + by rewrite IH.
Qed.

Lemma aset_Forall {A} (P : jsstring * A -> Prop) (k : jsstring) (v : A)
    (l : list (jsstring * A)) :
  P (k, v) -> Forall P l -> Forall P (aset k v l).
Proof.
  intros Hv. induction 1 as [|[k' v'] l Hx Hl IH]; cbn.
  - by constructor.
  - case_decide; by constructor.
Qed.

Lemma alookup_Forall {A} (P : jsstring * A -> Prop) (k : jsstring) (v : A)
    (l : list (jsstring * A)) :
  Forall P l -> alookup k l = Some v -> P (k, v).
Proof.
  induction 1 as [|[k' v'] l Hx Hl IH]; cbn; [done|].
  case_decide; [|done]. by intros [= <-]; subst.
Qed.

Lemma aset_registryOk g s registry :
  wellFormed s -> registryOk registry -> registryOk (aset g s registry).
Proof.
  intros Hs [Hkeys Hwf]. split; [|by apply aset_Forall].
  rewrite aset_keys. case_decide; [done|].
  apply NoDup_app. split_and!; [done| |apply NoDup_singleton].
  intros x Hx ->%list_elem_of_singleton. done.
Qed.

Lemma roles_fold_lookup (v : list jsstring) (l : list jsstring)
    (r : gmap jsstring (list jsstring)) (p : jsstring) :
  fold_left (fun r pg => <[pg := v]> r) l r !! p
  = if decide (p ∈ l) then Some v else r !! p.
Proof.
  revert r. induction l as [|q l IH]; intros r; cbn.
  - rewrite decide_False; [done|]. apply not_elem_of_nil.
  - rewrite IH. destruct (decide (p ∈ l)) as [Hin|Hout].
    + rewrite decide_True by (by right). done.
    + destruct (decide (p = q)) as [->|Hne].
      * rewrite lookup_insert_eq. rewrite decide_True by left. done.
      * rewrite lookup_insert_ne by done.
        rewrite decide_False; [done|]. intros [?|?]%elem_of_cons; done.
Qed.

Lemma selection_wellFormed i old s' msg :
  wellFormed old -> selection i old = Some (s', msg) -> wellFormed s'.
Proof.
  intros [Hpg Hrl]. unfold selection.
  repeat case_decide; intros [= <- <-]; split; cbn; try done.
  - apply newSet_NoDup.
  - intros pg rs. rewrite roles_fold_lookup.
    case_decide; [intros [= <-]; apply newSet_NoDup|apply Hrl].
Qed.

Lemma noRecord_wellFormed : wellFormed noRecord.
Proof. split; [constructor|]. intros pg rs. cbn. by rewrite lookup_empty. Qed.

Lemma existing_wellFormed g registry :
  registryOk registry -> wellFormed (default noRecord (alookup g registry)).
Proof.
  intros [_ Hwf]. destruct (alookup g registry) as [s|] eqn:Hs; cbn.
  - exact (alookup_Forall (fun e => wellFormed e.2) g s registry Hwf Hs).
  - apply noRecord_wellFormed.
Qed.

(** What the handler can do to the registry and to the file, for every
    interaction and every behaviour of the reply and of the write: the
    registry is as before or holds, for the guild of the interaction, the
    record before or the one the menu leaves; the file is as before or
    holds the registry. *)
Lemma selectMenuHandler_registry i st :
  let old := default noRecord (alookup (guildId i) (guildSettings st)) in
  let r := handler i st in
  (guildSettings r.2 = guildSettings st \/
   exists s', guildSettings r.2 = aset (guildId i) s' (guildSettings st) /\
              (s' = old \/ exists msg, selection i old = Some (s', msg))) /\
  (settingsFile r.2 = settingsFile st \/
   settingsFile r.2 = Some (guildSettings r.2)).
Proof.
  cbn zeta. unfold selectMenuHandler, selection.
  destruct (isGuildAdminOrOwner i); cbn [negb].
  2:{ unfold tryCatch, reply, emit, modify, throw.
      destruct (replyOk _); cbn; split; by left. }
  unfold tryCatch, bind, gets, assignField, reply, setRegistry, setRoles,
    modify, emit, ret, throw.
  destruct (alookup (guildId i) (guildSettings st)) as [old|] eqn:Hold;
    cbn [default bool_decide decide_rel].
  all: repeat case_decide.
  all: try (destruct (replyOk _) eqn:Hreply).
  all: cbn -[str aset saveSettings newSet].
  all: rewrite ?aset_aset, ?saveSettings_effect.
  all: cbn -[str aset newSet].
  all: (split;
        [first [ by left
               | right; eexists; split; [reflexivity|]; first
                   [ by left | right; eexists; reflexivity ] ]
        | destruct (writeOk _); first [ by left | by right ] ]) ||
       (split; [|by left]).
  all: first [ by left
             | right; eexists; split; [reflexivity|]; first
                 [ by left | right; eexists; reflexivity ] ].
Qed.

(** X14.  Authorisation: a selection by someone who is neither
    administrator nor owner changes neither the registry nor the settings
    file, whatever menu and values it carries; the handler returns, and
    its only effect is the refusal, or the error line when the refusal
    cannot be sent. *)
Theorem unauthorised_selection_changes_nothing (i : Interaction) (st : State)
    (Hdenied : isGuildAdminOrOwner i = false) :
  let r := handler i st in
  r.1 = Returned tt /\
  guildSettings r.2 = guildSettings st /\
  settingsFile r.2 = settingsFile st /\
  (effects r.2
   = effects st
     ++ [Reply (str "Only a server administrator or owner can use /settings.")]
   \/ effects r.2 = effects st ++ [ConsoleError]).
Proof.
  cbn zeta. unfold selectMenuHandler. rewrite Hdenied. cbn [negb].
  unfold tryCatch, reply, emit, modify, throw.
  destruct (replyOk _); cbn -[str]; split_and!; try done;
    first [by left|by right].
Qed.

(** X15.  Isolation of tenants: whatever the interaction and whatever
    the reply and the write do, the record of every other guild is what it
    was before. *)
Theorem selection_leaves_other_guilds (i : Interaction) (st : State)
    (g : jsstring) (Hother : g <> guildId i) :
  alookup g (guildSettings (handler i st).2) = alookup g (guildSettings st).
Proof.
  destruct (selectMenuHandler_registry i st) as [[->|(s' & -> & _)] _];
    [done|].
  by apply alookup_aset_ne.
Qed.

(** X16.  The sets stay sets: a registry with one record for each guild
    id, whose page lists and role lists have no element twice, is such a
    registry again after any interaction, whatever values the menu
    delivers (repeated ones included) and whatever the reply and the write
    do. *)
Theorem selection_keeps_registry_ok (i : Interaction) (st : State)
    (Hok : registryOk (guildSettings st)) :
  registryOk (guildSettings (handler i st).2).
Proof.
  pose proof (existing_wellFormed (guildId i) _ Hok) as Hold.
  destruct (selectMenuHandler_registry i st)
    as [[->|(s' & -> & [->|[msg Hsel]])] _]; [done| |].
  - by apply aset_registryOk.
  - apply aset_registryOk; [|done].
    by apply (selection_wellFormed i _ s' msg Hold).
Qed.





End RegistryMore.

Section RegistryMoreRuns.
Import Notifier Registry Startup Examples.

Lemma unauthorised_selection_changes_nothing_witness :
  isGuildAdminOrOwner pickPageOneDenied = false /\
  guildSettings (selectMenuHandler writable always pickPageOneDenied
                   noRecords).2 = [].
Proof.
  split; [done|].
  apply (unauthorised_selection_changes_nothing writable always
           pickPageOneDenied noRecords eq_refl).
Defined.

Lemma selection_leaves_other_guilds_witness :
  guild2 <> guildId pickPageOne /\
  alookup guild2 (guildSettings (selectMenuHandler writable always pickPageOne
                                   twoGuilds).2)
  = Some settings1.
Proof.
  assert (H : guild2 <> guildId pickPageOne) by (by vm_compute).
  split; [done|].
  rewrite (selection_leaves_other_guilds writable always pickPageOne
             twoGuilds guild2 H).
  by vm_compute.
Defined.

Lemma twoGuilds_ok : registryOk (guildSettings twoGuilds).
Proof.
  split.
  - apply (bool_decide_unpack _). by vm_compute.
  - repeat constructor; cbn; try (apply (bool_decide_unpack _); by vm_compute).
    all: intros pg rs; by rewrite lookup_empty.
Qed.

Lemma selection_keeps_registry_ok_witness :
  registryOk (guildSettings twoGuilds) /\
  registryOk (guildSettings (selectMenuHandler writable always pickTwice
                               twoGuilds).2).
Proof.
  split; [apply twoGuilds_ok|].
  apply (selection_keeps_registry_ok writable always pickTwice twoGuilds
           twoGuilds_ok).
Defined.



End RegistryMoreRuns.

(** ** Slash commands: names, the submitted list, dispatch *)

Section CommandsMore.
Import Normalize Names Commands Dispatch.
Context (toLowerCase : jsstring -> jsstring).

Local Abbreviation names reg := ((commands reg).*1).

Lemma consistent_init : consistent toLowerCase (mkRegistration ∅ ∅ []) [].
Proof.
  unfold consistent. cbn. split_and!; try done.
  all: try constructor. all: try apply dom_empty_L.
Qed.

Lemma registerCommands_consistent (dropdownItems : list jsstring) (fuel : nat) :
  N.of_nat (length dropdownItems) < 2 ^ 32 ->
  (length dropdownItems < fuel)%nat ->
  exists reg, registerCommands toLowerCase fuel dropdownItems = Some reg /\
              consistent toLowerCase reg dropdownItems.
Proof.
  intros Harray Hfuel.
  exact (registerItems_consistent toLowerCase fuel dropdownItems
           (mkRegistration ∅ ∅ []) [] consistent_init Hfuel Harray).
Qed.

Lemma uniqueLoop_fresh (fuel : nat) (name : jsstring) (used : gset jsstring)
    (k : N) :
  fuel <> 0%nat -> name ∉ used -> name <> [] ->
  uniqueLoop fuel name used name k = Some name.
Proof.
  intros Hfuel Hname Hne. destruct fuel as [|fuel]; [done|].
  cbn [uniqueLoop]. rewrite bool_decide_eq_false_2 by done.
  destruct name; [done|]. done.
Qed.

Lemma registerItems_distinct (fuel : nat) (items : list jsstring)
    (acc : Registration) :
  fuel <> 0%nat ->
  NoDup (baseName toLowerCase <$> items) ->
  Forall (fun item => baseName toLowerCase item <> []) items ->
  (forall item, item ∈ items -> baseName toLowerCase item ∉ usedNames acc) ->
  exists reg, registerItems toLowerCase fuel acc items = Some reg /\
              names reg = names acc ++ (baseName toLowerCase <$> items).
Proof.
  intros Hfuel. revert acc.
  induction items as [|item items IH]; intros acc Hnd Hne Hfresh; cbn.
  - exists acc. by rewrite app_nil_r.
  - rewrite fmap_cons in Hnd. apply NoDup_cons in Hnd as [Hitem Hnd].
    apply Forall_cons in Hne as [Hne1 Hne].
    unfold registerItem.
    rewrite uniqueLoop_fresh; [|done|apply Hfresh; by left|done].
    edestruct IH as (reg & Hrun & Hnames); [done|done| |].
    2:{ exists reg. split; [exact Hrun|]. rewrite Hnames. cbn.
        rewrite fmap_app. cbn. by rewrite <- app_assoc. }
    intros item' Hin. cbn. apply not_elem_of_union. split.
    + intros Heq%elem_of_singleton. apply Hitem. rewrite <- Heq.
      apply list_elem_of_fmap. by exists item'.
    + apply Hfresh. by right.
Qed.

(** X19.  Labels whose normalised names are non-empty and pairwise
    distinct get exactly those names, in order, with no suffix; the loop
    that looks for a free name is left at its first test. *)
Theorem distinct_labels_keep_base_names
    (dropdownItems : list jsstring) (fuel : nat)
    (Hfuel : fuel <> 0%nat)
    (Hdistinct : NoDup (baseName toLowerCase <$> dropdownItems))
    (Hnonempty : Forall (fun item => baseName toLowerCase item <> [])
                        dropdownItems) :
  exists reg,
    registerCommands toLowerCase fuel dropdownItems = Some reg /\
    names reg = baseName toLowerCase <$> dropdownItems.
Proof.
  destruct (registerItems_distinct fuel dropdownItems (mkRegistration ∅ ∅ [])
              Hfuel Hdistinct Hnonempty) as (reg & Hrun & Hnames).
  - intros item _. cbn. apply not_elem_of_empty.
  - by exists reg.
Qed.

Lemma normalizeChain_chars (label : jsstring) :
  Forall nameChar (normalizeChain toLowerCase label).
Proof.
  rewrite normalizeChain_strip.
  apply stripUnderscores_chars, replaceRuns_chars.
Qed.

Lemma baseName_chars (item : jsstring) :
  Forall nameChar (baseName toLowerCase item).
Proof.
  unfold baseName. case_match; [|apply normalizeChain_chars].
  unfold slice. apply Forall_take. rewrite drop_0. apply normalizeChain_chars.
Qed.

Lemma digits_chars (k : N) : Forall nameChar (digits k).
Proof.
  eapply Forall_impl; [apply digits_are_digits|].
  intros c Hc. cbv beta in Hc. destruct Hc as [Hlo Hhi].
  left. unfold isLowerAlnum.
  apply orb_true_iff. right. apply andb_true_iff. by split; apply N.leb_le.
Qed.

Lemma candidate_chars (name : jsstring) (k : N) :
  Forall nameChar name -> Forall nameChar (candidate name k).
Proof.
  intros Hname. unfold candidate, sliceTo, suffixString.
  apply Forall_app. split.
  - case_match; by apply Forall_take.
  - constructor; [by right|apply digits_chars].
Qed.

(** X20.  The generated names are valid command names: every one
    consists of code units of [[a-z0-9_]] only, whatever the labels and
    whatever the engine's lower-casing does. *)
Theorem command_names_alphabet (dropdownItems : list jsstring) (fuel : nat)
    (Harray : N.of_nat (length dropdownItems) < 2 ^ 32)
    (Hfuel : (length dropdownItems < fuel)%nat) :
  exists reg,
    registerCommands toLowerCase fuel dropdownItems = Some reg /\
    Forall (Forall nameChar) (names reg).
Proof.
  destruct (registerCommands_consistent dropdownItems fuel Harray Hfuel)
    as (reg & Hrun & Hused & Hnd & Hlen & Hsizes & Hmap & Hdom).
  exists reg. split; [done|].
  apply Forall_lookup. intros i name Hname.
  destruct (lookup_lt_is_Some_2 dropdownItems i) as [item Hitem].
  { rewrite <- Hlen. by eapply lookup_lt_Some. }
  destruct (Hmap i name item Hname Hitem) as [_ [->|(k & _ & ->)]].
  - apply baseName_chars.
  - apply candidate_chars, baseName_chars.
Qed.

Lemma uniqueLoop_first (fuel : nat) (name : jsstring) (used : gset jsstring)
    (u : jsstring) (k : N) (r : jsstring) :
  uniqueLoop fuel name used u k = Some r -> r = u \/ u ∈ used \/ u = [].
Proof.
  destruct fuel as [|fuel]; [done|]. cbn [uniqueLoop].
  destruct (bool_decide (u ∈ used) || (length u =? 0)%nat) eqn:Hcond.
  - intros _. right. apply orb_true_iff in Hcond as [H|H].
    + left. by apply bool_decide_eq_true in H.
    + right. apply Nat.eqb_eq in H. by destruct u.
  - intros [= <-]. by left.
Qed.

Lemma registerItem_taken (fuel : nat) (acc acc' : Registration)
    (item : jsstring) :
  registerItem toLowerCase fuel acc item = Some acc' ->
  usedNames acc ⊆ usedNames acc' /\
  (baseName toLowerCase item <> [] ->
   baseName toLowerCase item ∈ usedNames acc').
Proof.
  unfold registerItem.
  destruct (uniqueLoop _ _ _ _ _) as [r|] eqn:Hloop; [|done].
  intros [= <-]. cbn. split; [apply union_subseteq_r|].
  intros Hne. apply elem_of_union.
  destruct (uniqueLoop_first _ _ _ _ _ _ Hloop) as [->|[Hin|Hnil]];
    [left; by apply elem_of_singleton|by right|done].
Qed.

Lemma registerItems_taken (fuel : nat) (items : list jsstring)
    (acc reg : Registration) :
  registerItems toLowerCase fuel acc items = Some reg ->
  usedNames acc ⊆ usedNames reg /\
  (forall item, item ∈ items -> baseName toLowerCase item <> [] ->
     baseName toLowerCase item ∈ usedNames reg).
Proof.
  revert acc. induction items as [|item items IH]; intros acc; cbn.
  - intros [= <-]. split; [done|]. by intros item ?%elem_of_nil.
  - destruct (registerItem toLowerCase fuel acc item) as [acc'|] eqn:Hstep;
      [|done].
    intros Hrun. destruct (IH acc' Hrun) as [Hsub Hrest].
    destruct (registerItem_taken _ _ _ _ Hstep) as [Hsub' Hitem].
    split; [by etrans|].
    intros item' [->|Hin]%elem_of_cons Hne; [|by apply Hrest].
    apply Hsub. by apply Hitem.
Qed.

Lemma digits_snoc (k : N) :
  exists l d, digits k = l ++ [d] /\ 48 <= d <= 57.
Proof.
  funelim (digits k).
  - exists [], (48 + n). split; [done|lia].
  - eexists _, _. split; [reflexivity|].
    pose proof (N.mod_upper_bound n 10 ltac:(done)) as Hm.
    revert Hm. generalize (n mod 10). clear. intros m Hm. lia.
Qed.

Lemma candidate_last (name : jsstring) (k : N) :
  exists d, last (candidate name k) = Some d /\ 48 <= d <= 57.
Proof.
  destruct (digits_snoc k) as (l & d & Hk & Hd).
  exists d. split; [|done].
  unfold candidate, suffixString. rewrite Hk.
  rewrite app_comm_cons, app_assoc. apply last_snoc.
Qed.

Lemma candidate_not_fixed (name : jsstring) (k : N) :
  candidate name k ∉ [str "settings"; str "testping"].
Proof.
  destruct (candidate_last name k) as (d & Hlast & Hd).
  intros [Heq|[Heq|Hnil%elem_of_nil]%elem_of_cons]%elem_of_cons; [| |done].
  all: rewrite Heq in Hlast; vm_compute in Hlast.
  all: injection Hlast as <-; lia.
Qed.

(** X21.  The list of commands submitted to Discord holds no name twice
    exactly when no label normalises to [settings] or [testping]: the
    generated names are checked against each other only, never against
    the two fixed commands. *)
Theorem submitted_names_unique_iff (dropdownItems : list jsstring) (fuel : nat)
    (Harray : N.of_nat (length dropdownItems) < 2 ^ 32)
    (Hfuel : (length dropdownItems < fuel)%nat) :
  exists reg,
    registerCommands toLowerCase fuel dropdownItems = Some reg /\
    (NoDup (submittedNames reg) <->
     forall item, item ∈ dropdownItems ->
       baseName toLowerCase item ∉ [str "settings"; str "testping"]).
Proof.
  destruct (registerCommands_consistent dropdownItems fuel Harray Hfuel)
    as (reg & Hrun & Hused & Hnd & Hlen & Hsizes & Hmap & Hdom).
  exists reg. split; [done|].
  destruct (registerItems_taken _ _ _ _ Hrun) as [_ Htaken].
  unfold submittedNames. rewrite NoDup_app. split.
  - intros (_ & Hdisj & _) item Hitem Hfixed.
    apply (Hdisj (baseName toLowerCase item)); [|done].
    assert (Hne : baseName toLowerCase item <> []).
    { intros Hnil. rewrite Hnil in Hfixed.
      apply elem_of_cons in Hfixed as [H|[H|H%elem_of_nil]%elem_of_cons];
        done. }
    specialize (Htaken item Hitem Hne). rewrite Hused in Htaken.
    by apply elem_of_list_to_set in Htaken.
  - intros Hbase. split_and!; [done| |].
    + intros name Hname.
      apply list_elem_of_lookup in Hname as [i Hname].
      destruct (lookup_lt_is_Some_2 dropdownItems i) as [item Hitem].
      { rewrite <- Hlen. by eapply lookup_lt_Some. }
      destruct (Hmap i name item Hname Hitem) as [_ [->|(k & _ & ->)]].
      * apply Hbase. by eapply list_elem_of_lookup_2.
      * apply candidate_not_fixed.
    + apply (bool_decide_unpack _). by vm_compute.
Qed.

End CommandsMore.

Section DispatchFacts.
Import Chunking Normalize Commands Dispatch.
Context (toLowerCase : jsstring -> jsstring)
        (cacheKey : jsstring -> jsstring) (store : gmap jsstring jsstring).

Local Abbreviation answers := (fun _ : list Response => fun _ : Response => true).

Lemma followUps_accepted (rest : list jsstring) (st : list Response) :
  forOf rest (fun c => respond answers (FollowUp (mkMessage None None c))) st
  = (Returned tt,
     st ++ ((fun c => FollowUp (mkMessage None None c)) <$> rest)).
Proof.
  revert st. induction rest as [|c rest IH]; intros st.
  - cbn. by rewrite app_nil_r.
  - rewrite forOf_cons. unfold respond at 1. rewrite IH.
    by rewrite <- app_assoc.
Qed.

Lemma chunksOf_concat (content : jsstring) :
  concat (chunksOf content) = content.
Proof. unfold chunksOf. by rewrite chunkLoop_concat. Qed.

Lemma chunksOf_sizes (content : jsstring) :
  Forall (fun c => 0 < length c <= 1900)%nat (chunksOf content).
Proof. apply chunkLoop_sizes. constructor. Qed.

(** The cached reply when every call on the interaction succeeds. *)
Lemma serveCached_accepted (item : jsstring) (st : list Response) :
  Cache.readDropdownCache cacheKey store item <> [] ->
  exists chunk0 rest,
    chunksOf (Cache.readDropdownCache cacheKey store item) = chunk0 :: rest /\
    serveCached cacheKey store answers item st
    = (Returned tt,
       st ++ DeferReply :: EditReply (mkMessage None (Some item) chunk0)
          :: ((fun c => FollowUp (mkMessage None None c)) <$> rest)).
Proof.
  intros Hne.
  pose proof (chunksOf_concat (Cache.readDropdownCache cacheKey store item))
    as Hcat.
  unfold serveCached. cbn zeta.
  destruct (chunksOf (Cache.readDropdownCache cacheKey store item))
    as [|chunk0 rest]; [by rewrite <- Hcat in Hne|].
  exists chunk0, rest. split; [done|].
  unfold bind, tryCatch, respond. rewrite followUps_accepted.
  by rewrite <- !app_assoc.
Qed.

(** X22.  From a label to its reply.  The [i]-th generated command, when
    its name is not one of the two fixed names (whose branches come
    first) and its label is not empty, is answered from the cache entry
    of the [i]-th label: with every call on the interaction succeeding
    and a cache entry that is not empty, the reply is deferred, then
    edited to the first chunk under the label as title, then followed by
    the other chunks; the chunks have 1 to 1900 code units and put
    together are the cached content. *)
Theorem registered_command_serves_label
    (dropdownItems : list jsstring) (fuel : nat)
    (Harray : N.of_nat (length dropdownItems) < 2 ^ 32)
    (Hfuel : (length dropdownItems < fuel)%nat) :
  exists reg,
    registerCommands toLowerCase fuel dropdownItems = Some reg /\
    forall (i : nat) (name item : jsstring),
      (commands reg).*1 !! i = Some name -> dropdownItems !! i = Some item ->
      branchOf name = CachedBranch ->
      item <> [] ->
      Cache.readDropdownCache cacheKey store item <> [] ->
      exists chunk0 rest,
        cachedCommand cacheKey store answers (commandNameToDropdownItem reg)
          name []
        = (Returned tt,
           DeferReply :: EditReply (mkMessage None (Some item) chunk0)
             :: ((fun c => FollowUp (mkMessage None None c)) <$> rest)) /\
        concat (chunk0 :: rest) = Cache.readDropdownCache cacheKey store item /\
        Forall (fun c => 0 < length c <= 1900)%nat (chunk0 :: rest).
Proof.
  destruct (registerCommands_consistent toLowerCase dropdownItems fuel
              Harray Hfuel)
    as (reg & Hrun & Hused & Hnd & Hlen & Hsizes & Hmap & Hdom).
  exists reg. split; [done|].
  intros i name item Hname Hitem _ Hlabel Hcontent.
  destruct (Hmap i name item Hname Hitem) as [Htable _].
  destruct (serveCached_accepted item [] Hcontent)
    as (chunk0 & rest & Hchunks & Hserve).
  exists chunk0, rest. split_and!.
  - unfold cachedCommand, tryCatch. rewrite Htable.
    destruct item; [done|]. by rewrite Hserve.
  - rewrite <- Hchunks. apply chunksOf_concat.
  - rewrite <- Hchunks. apply chunksOf_sizes.
Qed.

End DispatchFacts.

Section CommandsMoreRuns.
Import Chunking Normalize Commands Dispatch Examples.

Lemma distinct_labels_keep_base_names_witness :
  1%nat <> 0%nat /\
  NoDup (baseName asciiLower <$> items3) /\
  Forall (fun item => baseName asciiLower item <> []) items3 /\
  exists reg,
    registerCommands asciiLower 1 items3 = Some reg /\
    (commands reg).*1 = [str "page_one"; str "page_two"; str "page_three"].
Proof.
  assert (H1 : 1%nat <> 0%nat) by done.
  assert (H2 : NoDup (baseName asciiLower <$> items3))
    by (apply (bool_decide_unpack _); by vm_compute).
  assert (H3 : Forall (fun item => baseName asciiLower item <> []) items3)
    by (repeat constructor; by vm_compute).
  split_and!; [done..|].
  destruct (distinct_labels_keep_base_names asciiLower items3 1 H1 H2 H3)
    as (reg & Hrun & Hnames).
  exists reg. split; [done|]. rewrite Hnames. by vm_compute.
Defined.

Lemma labels4_bounds :
  N.of_nat (length [str "Page A"; str "page a"; str "!!!"; str "Settings"])
  < 2 ^ 32 /\
  (length [str "Page A"; str "page a"; str "!!!"; str "Settings"] < 5)%nat.
Proof. split; [by vm_compute|cbn; lia]. Qed.

Lemma command_names_alphabet_witness :
  N.of_nat (length [str "Page A"; str "page a"; str "!!!"; str "Settings"])
  < 2 ^ 32 /\
  (length [str "Page A"; str "page a"; str "!!!"; str "Settings"] < 5)%nat /\
  exists reg,
    registerCommands asciiLower 5
      [str "Page A"; str "page a"; str "!!!"; str "Settings"] = Some reg /\
    Forall (Forall Names.nameChar) (commands reg).*1.
Proof.
  destruct labels4_bounds as [H1 H2]. split_and!; [done..|].
  apply (command_names_alphabet asciiLower _ 5%nat H1 H2).
Defined.

Lemma submitted_names_unique_iff_witness :
  N.of_nat (length [str "Page A"; str "page a"; str "!!!"; str "Settings"])
  < 2 ^ 32 /\
  (length [str "Page A"; str "page a"; str "!!!"; str "Settings"] < 5)%nat /\
  exists reg,
    registerCommands asciiLower 5
      [str "Page A"; str "page a"; str "!!!"; str "Settings"] = Some reg /\
    ~ NoDup (submittedNames reg).
Proof.
  destruct labels4_bounds as [H1 H2]. split_and!; [done..|].
  destruct (submitted_names_unique_iff asciiLower _ 5%nat H1 H2)
    as (reg & Hrun & Hiff).
  exists reg. split; [done|]. intros Hnd.
  apply (proj1 Hiff Hnd (str "Settings")).
  - do 3 right. left.
  - left.
Defined.

Lemma registered_command_serves_label_witness :
  N.of_nat (length items3) < 2 ^ 32 /\
  (length items3 < 4)%nat /\
  exists reg chunk0 rest,
    registerCommands asciiLower 4 items3 = Some reg /\
    cachedCommand id cache1 (fun _ _ => true) (commandNameToDropdownItem reg)
      (str "page_one") []
    = (Returned tt,
       DeferReply :: EditReply (mkMessage None (Some pageOne) chunk0)
         :: ((fun c => FollowUp (mkMessage None None c)) <$> rest)).
Proof.
  assert (H1 : N.of_nat (length items3) < 2 ^ 32) by (by vm_compute).
  assert (H2 : (length items3 < 4)%nat) by (cbn; lia).
  split_and!; [done..|].
  destruct (registered_command_serves_label asciiLower id cache1 items3 4%nat
              H1 H2) as (reg & Hrun & Hserve).
  assert (Hname : (commands reg).*1 !! 0%nat = Some (str "page_one")).
  { assert (Hnames : (fun r => (commands r).*1)
                       <$> registerCommands asciiLower 4 items3
                     = Some [str "page_one"; str "page_two"; str "page_three"])
      by (by vm_compute).
    rewrite Hrun in Hnames. injection Hnames as ->. done. }
  destruct (Hserve 0%nat (str "page_one") pageOne Hname)
    as (chunk0 & rest & Hreply & _); [done|by vm_compute|done|by vm_compute|].
  by exists reg, chunk0, rest.
Defined.

(** The reply to the command of a label with a cached content, and the
    reply to a command the table does not hold. *)
Example cached_command_runs :
  (cachedCommand id cache1 (fun _ _ => true)
     {[ str "page_one" := pageOne ]} (str "page_one") []).2
  = [DeferReply; EditReply (mkMessage None (Some pageOne) (str "first"))] /\
  (cachedCommand id cache1 (fun _ _ => true)
     {[ str "page_one" := pageOne ]} (str "page_two") []).2
  = [Reply (str "Unknown command or dropdown item.")].
Proof. split; by vm_compute. Qed.

(** A command the table does not hold but whose name is a member of
    [Object.prototype]: the read of the plain object finds the member, so
    the reply is deferred and ends in the failure notice instead of
    [Unknown command]. *)
Example cached_command_inherited :
  (cachedCommand id cache1 (fun _ _ => true)
     {[ str "page_one" := pageOne ]} (str "constructor") []).2
  = [DeferReply;
     EditReply (mkMessage None None
                  (str "Failed to fetch content. Please try again later."));
     ConsoleError].
Proof. by vm_compute. Qed.

End CommandsMoreRuns.

(** ** The [/testping] command *)

Section TestPingFacts.
Import Chunking Notifier TestPing.
Context {Page : Type}
        (getContentForDropdownItem : Page -> jsstring -> Page * option jsstring)
        (guilds : gmap jsstring (gmap jsstring N))
        (sendOk : list SendEvent -> SendEvent -> bool)
        (replyOk : jsstring -> bool).

Local Abbreviation run :=
  (testPing Page getContentForDropdownItem guilds sendOk replyOk).
Local Abbreviation body :=
  (testPage Page getContentForDropdownItem sendOk).

(** X23.  [/testping] without a target: for a caller who is neither
    administrator nor owner, and for a guild the notification job would
    skip (no record, no channel, no page, or a channel that is missing or
    not a text channel), nothing is sent and the source is not queried;
    the handler returns with one effect, a reply or the error line. *)
Theorem testping_without_target
    (guildSettings : list (jsstring * Settings)) (guildId : jsstring)
    (isGuildAdminOrOwner : bool) (st : State Page)
    (Hno : isGuildAdminOrOwner = false \/
           forall settings,
             Registry.alookup guildId guildSettings = Some settings ->
             targetChannel guilds guildId settings = None) :
  let r := run guildSettings guildId isGuildAdminOrOwner st in
  r.1 = Returned tt /\
  sent Page r.2 = sent Page st /\ page Page r.2 = page Page st /\
  exists e, effects Page r.2 = effects Page st ++ [e].
Proof.
  cbn zeta. unfold testPing.
  assert (Hreply : forall content,
            let r := tryCatch (reply Page replyOk content)
                              (emit Page ConsoleError) st in
            r.1 = Returned tt /\
            sent Page r.2 = sent Page st /\ page Page r.2 = page Page st /\
            exists e, effects Page r.2 = effects Page st ++ [e]).
  { intros content. cbn zeta. unfold tryCatch, reply, emit, modify, throw.
    destruct (replyOk content); cbn; split_and!; try done; by eexists. }
  destruct isGuildAdminOrOwner; cbn [negb]; [|apply Hreply].
  destruct Hno as [?|Hno]; [done|].
  destruct (Registry.alookup guildId guildSettings) as [settings|];
    [|apply Hreply].
  specialize (Hno settings eq_refl). unfold targetChannel in Hno.
  destruct (channelOf settings) as [ch|]; [|apply Hreply].
  destruct (pages settings) as [|p ps]; [apply Hreply|].
  destruct (guilds !! guildId) as [channels|].
  - destruct (channels !! ch) as [[|ty]|]; [done|apply Hreply..].
  - unfold tryCatch, throw, emit, modify. cbn. split_and!; try done.
    by eexists.
Qed.

Lemma sends_accepted g ch p msgs (st : State Page) :
  (forall h ev, sendOk h ev = true) ->
  forOf msgs (send Page sendOk g ch p) st
  = (Returned tt,
     mkState Page (page Page st)
       (sent Page st ++ map (mkSendEvent g ch p) msgs)
       (sentCount Page st) (effects Page st)).
Proof.
  intros Hsend. revert st. induction msgs as [|m msgs IH]; intros st.
  - cbn. rewrite app_nil_r. by destruct st.
  - rewrite forOf_cons. unfold send at 1. rewrite Hsend, IH. cbn.
    by rewrite <- app_assoc.
Qed.

Lemma testPage_accepted g ch s p (st : State Page) :
  (forall h ev, sendOk h ev = true) ->
  body g ch s p st
  = (Returned tt,
     mkState Page (getContentForDropdownItem (page Page st) p).1
       (sent Page st
          ++ messagesFor g ch s p
               (shownContent (getContentForDropdownItem (page Page st) p).2))
       (sentCount Page st + 1)
       (effects Page st
          ++ fetchErrors [(getContentForDropdownItem (page Page st) p).2])).
Proof.
  intros Hsend. unfold testPage, bind, tryCatch, fetch.
  destruct (getContentForDropdownItem (page Page st) p) as [pg [c|]].
  - rewrite sends_accepted by done. unfold modify. cbn.
    by rewrite app_nil_r.
  - unfold emit, modify, ret. cbn -[failedContent].
    rewrite sends_accepted by done. by cbn.
Qed.

Lemma testPages_accepted g ch s (l : list jsstring) (st : State Page) :
  (forall h ev, sendOk h ev = true) ->
  forOf l (body g ch s) st
  = (Returned tt,
     mkState Page (fetches Page getContentForDropdownItem (page Page st) l).2
       (sent Page st
          ++ concat (zip_with (messagesFor g ch s) l
                       (shownContent
                          <$> (fetches Page getContentForDropdownItem
                                 (page Page st) l).1)))
       (sentCount Page st + N.of_nat (length l))
       (effects Page st
          ++ fetchErrors (fetches Page getContentForDropdownItem
                            (page Page st) l).1)).
Proof.
  intros Hsend. revert st. induction l as [|p l IH]; intros st.
  - cbn. rewrite !app_nil_r, N.add_0_r. by destruct st.
  - rewrite forOf_cons, testPage_accepted by done. rewrite IH.
    cbn [page sent sentCount effects fetches].
    destruct (getContentForDropdownItem (page Page st) p) as [pg r].
    cbn [fst snd].
    destruct (fetches Page getContentForDropdownItem pg l) as [rs pg'].
    cbn [fst snd fmap list_fmap zip_with concat length fetchErrors flat_map].
    rewrite app_nil_r, <- !app_assoc. do 2 f_equal. lia.
Qed.

(** X24.  [/testping] with a target.  For an administrator of a guild
    the notification job would serve, when the channel accepts every
    message and the summary can be replied: the source is asked for every
    watched page, once and in the order of the set, each fetch working on
    the browser page as the fetch before left it; every page is notified,
    in that order and with nothing in between, by the messages the
    notification job would build for what its fetch returned or, when the
    fetch threw, for the notice of the failure, which goes to the channel
    with the role mentions like a content; every failed fetch leaves an
    error line, and the reply is the summary, which counts all watched
    pages. *)
Theorem testping_notifies_every_page
    (guildSettings : list (jsstring * Settings)) (guildId : jsstring)
    (settings : Settings) (ch : jsstring) (st : State Page)
    (Hrecord : Registry.alookup guildId guildSettings = Some settings)
    (Htarget : targetChannel guilds guildId settings = Some ch)
    (Hsend : forall h ev, sendOk h ev = true)
    (Hreply : replyOk (summary ch (N.of_nat (length (pages settings))))
              = true) :
  let r := run guildSettings guildId true st in
  let answers := fetches Page getContentForDropdownItem (page Page st)
                   (pages settings) in
  r.1 = Returned tt /\
  page Page r.2 = answers.2 /\
  sent Page r.2
  = sent Page st
    ++ concat (zip_with (messagesFor guildId ch settings)
                        (pages settings) (shownContent <$> answers.1)) /\
  effects Page r.2
  = effects Page st ++ fetchErrors answers.1
    ++ [Reply (summary ch (N.of_nat (length (pages settings))))].
Proof.
  cbn zeta. unfold testPing. cbn [negb]. rewrite Hrecord.
  unfold targetChannel in Htarget.
  destruct (channelOf settings) as [ch'|]; [|done].
  destruct (pages settings) as [|p ps] eqn:Hpages; [done|].
  destruct (guilds !! guildId) as [channels|]; [|done].
  destruct (channels !! ch') as [[|ty]|]; [|done..].
  injection Htarget as ->.
  unfold tryCatch, bind, modify, gets.
  rewrite (testPages_accepted guildId ch settings (p :: ps) _ Hsend).
  cbn [sentCount page sent effects]. rewrite N.add_0_l.
  unfold reply. rewrite Hreply. unfold emit, modify.
  cbn [fst snd page sent effects]. split_and!; [done..|].
  by rewrite <- app_assoc.
Qed.

End TestPingFacts.

Section TestPingRuns.
Import Chunking Notifier TestPing Examples.

Lemma testping_without_target_witness :
  (false = false \/
   forall settings,
     Registry.alookup guild1 registry1 = Some settings ->
     targetChannel guilds1 guild1 settings = None) /\
  sent unit (testPing unit fetchFailsTwo guilds1 accepts always registry1
               guild1 false (mkState unit tt [] 0 [])).2 = [].
Proof.
  assert (H : false = false \/
              forall settings,
                Registry.alookup guild1 registry1 = Some settings ->
                targetChannel guilds1 guild1 settings = None) by (by left).
  split; [exact H|].
  apply (testping_without_target fetchFailsTwo guilds1 accepts always
           registry1 guild1 false (mkState unit tt [] 0 []) H).
Defined.

Lemma testping_notifies_every_page_witness :
  Registry.alookup guild1 registry1 = Some settings1 /\
  targetChannel guilds1 guild1 settings1 = Some channel1 /\
  (forall h ev, accepts h ev = true) /\
  always (summary channel1 (N.of_nat (length (pages settings1)))) = true /\
  sent unit (testPing unit fetchFailsTwo guilds1 accepts always registry1
               guild1 true (mkState unit tt [] 0 [])).2
  = [] ++ concat (zip_with (messagesFor guild1 channel1 settings1)
                           (pages settings1)
                           (shownContent
                              <$> (fetches unit fetchFailsTwo tt
                                     (pages settings1)).1)).
Proof.
  assert (H1 : Registry.alookup guild1 registry1 = Some settings1)
    by (by vm_compute).
  assert (H2 : targetChannel guilds1 guild1 settings1 = Some channel1)
    by (by vm_compute).
  assert (H3 : forall h ev, accepts h ev = true) by done.
  split_and!; [done..|].
  destruct (testping_notifies_every_page fetchFailsTwo guilds1 accepts always
              registry1 guild1 settings1 channel1 (mkState unit tt [] 0 [])
              H1 H2 H3 eq_refl) as (_ & _ & Hsent & _).
  exact Hsent.
Defined.

(** A test ping over two pages, the second of which cannot be fetched:
    the notice of the failure goes to the channel as the page's update. *)
Example testping_run :
  ev_message
    <$> sent unit (testPing unit fetchFailsTwo guilds1 accepts always registry1
                     guild1 true (mkState unit tt [] 0 [])).2
  = [mkMessage None (Some (str "Update: Page One")) (str "new");
     mkMessage None (Some (str "Update: Page Two"))
       (str "Failed to fetch content for this page.")] /\
  last (effects unit
          (testPing unit fetchFailsTwo guilds1 accepts always registry1
             guild1 true (mkState unit tt [] 0 [])).2)
  = Some (Reply (str "Test notification sent to <#channel-1> for 2 page(s), with real content and pings.")).
Proof. split; by vm_compute. Qed.

End TestPingRuns.

(** ** The tenant registry of the MongoDB variant *)

Section MongoFacts.
Import Notifier Mongo.
Context (writeOk : jsstring -> Settings -> bool)
        (replyOk : jsstring -> bool).

Local Abbreviation handler := (selectMenuHandler writeOk replyOk).

Lemma upserts_accepted (l : list (jsstring * Settings)) (st : State) :
  Forall (fun e => writeOk e.1 e.2 = true) l ->
  forOf l (fun e => updateOne writeOk e.1 e.2) st
  = (Returned tt,
     mkState (guildSettings st) (upserted l (collection st))
             (effects st ++ ((fun e => UpdateOne e.1 true) <$> l))).
Proof.
  intros Hl. revert st. induction Hl as [|e l He Hl IH]; intros st.
  - cbn. rewrite app_nil_r. by destruct st.
  - rewrite forOf_cons. unfold updateOne at 1. rewrite He.
    unfold modify. rewrite IH. cbn. by rewrite <- app_assoc.
Qed.

Lemma upserts_rejected (pre post : list (jsstring * Settings))
    (g0 : jsstring) (s0 : Settings) (st : State) :
  Forall (fun e => writeOk e.1 e.2 = true) pre ->
  writeOk g0 s0 = false ->
  forOf (pre ++ (g0, s0) :: post) (fun e => updateOne writeOk e.1 e.2) st
  = (Threw,
     mkState (guildSettings st) (upserted pre (collection st))
             (effects st ++ ((fun e => UpdateOne e.1 true) <$> pre)
                ++ [UpdateOne g0 false])).
Proof.
  intros Hpre Hfail. rewrite forOf_split, upserts_accepted by done.
  unfold updateOne. cbn [fst snd]. rewrite Hfail.
  unfold bind, emit, modify, throw. cbn. by rewrite <- app_assoc.
Qed.

Lemma upserted_lookup (l : list (jsstring * Settings))
    (c : gmap jsstring Settings) (g : jsstring) :
  (g ∉ l.*1 -> upserted l c !! g = c !! g) /\
  (NoDup (l.*1) -> forall s, (g, s) ∈ l -> upserted l c !! g = Some s).
Proof.
  unfold upserted. revert c.
  induction l as [|[g' s'] l IH]; intros c; cbn [fold_left fst snd].
  - split; [done|]. by intros _ s ?%elem_of_nil.
  - destruct (IH (<[g' := s']> c)) as [IH1 IH2]. split.
    + rewrite fmap_cons. intros [Hne Hg]%not_elem_of_cons.
      rewrite IH1 by done. by rewrite lookup_insert_ne.
    + rewrite fmap_cons. intros [Hg' Hnd]%NoDup_cons s Hin.
      apply elem_of_cons in Hin as [[= -> ->]|Hin].
      * rewrite IH1 by done. apply lookup_insert_eq.
      * by apply IH2.
Qed.

(** What the handler does once the menu is known, the caller is allowed
    and the confirmation goes out: the registry is updated, then
    saved. *)
Lemma mongo_handler_effect (i : Registry.Interaction) (st : State)
    (s' : Settings) (msg : jsstring) :
  Registry.isGuildAdminOrOwner i = true ->
  Registry.selection i
    (default (mkSettings [] ∅ None)
             (Registry.alookup (Registry.guildId i) (guildSettings st)))
  = Some (s', msg) ->
  replyOk msg = true ->
  handler i st
  = tryCatch (saveSettings writeOk) (emit ConsoleError)
      (mkState (Registry.aset (Registry.guildId i) s' (guildSettings st))
               (collection st) (effects st ++ [Reply msg])).
Proof.
  intros Hadmin Hsel Hreply.
  unfold selectMenuHandler. rewrite Hadmin. cbn [negb].
  unfold Registry.selection in Hsel.
  unfold tryCatch, bind, gets, assignField, reply, setRegistry,
    Registry.setRoles, modify, emit, ret.
  destruct (Registry.alookup (Registry.guildId i) (guildSettings st))
    as [old|] eqn:Hold; cbn [default] in *.
  all: repeat case_decide; simplify_eq; rewrite Hreply.
  all: cbn -[str Registry.aset saveSettings Registry.newSet].
  all: by rewrite ?aset_aset.
Qed.

(** X25.  In the MongoDB variant a failed save is not silent and not
    atomic.  After a confirmed selection by an administrator, the
    registry is saved by one upsert for each guild, in order; when the
    upsert of one guild fails, the documents of the guilds before it have
    been written, that guild's and the later ones' have not, the error
    reaches the handler's [catch] and is logged, after the confirmation
    has been sent; the registry in memory holds the new record. *)
Theorem mongo_failed_save_is_logged (i : Registry.Interaction) (st : State)
    (s' : Settings) (msg : jsstring)
    (pre post : list (jsstring * Settings)) (g0 : jsstring) (s0 : Settings)
    (Hadmin : Registry.isGuildAdminOrOwner i = true)
    (Hsel : Registry.selection i
              (default (mkSettings [] ∅ None)
                 (Registry.alookup (Registry.guildId i) (guildSettings st)))
            = Some (s', msg))
    (Hreply : replyOk msg = true)
    (Hsplit : Registry.aset (Registry.guildId i) s' (guildSettings st)
              = pre ++ (g0, s0) :: post)
    (Hpre : Forall (fun e => writeOk e.1 e.2 = true) pre)
    (Hfail : writeOk g0 s0 = false) :
  let r := handler i st in
  r.1 = Returned tt /\
  guildSettings r.2 = pre ++ (g0, s0) :: post /\
  collection r.2 = upserted pre (collection st) /\
  effects r.2
  = effects st ++ Reply msg :: ((fun e => UpdateOne e.1 true) <$> pre)
      ++ [UpdateOne g0 false; ConsoleError].
Proof.
  cbn zeta. rewrite (mongo_handler_effect i st s' msg Hadmin Hsel Hreply).
  unfold tryCatch, saveSettings, bind, gets.
  cbn [guildSettings]. rewrite Hsplit.
  rewrite (upserts_rejected pre post g0 s0 _ Hpre Hfail).
  unfold emit, modify. cbn. split_and!; try done.
  by rewrite <- !app_assoc.
Qed.

(** X26.  In the MongoDB variant a save that succeeds stores every record
    and touches nothing else: after a confirmed selection by an
    administrator, with every upsert succeeding and one record for each
    guild id, the collection holds for every guild of the registry its
    record in memory, the documents of all other guild ids are what they
    were, and no error is logged. *)
Theorem mongo_save_stores_every_record (i : Registry.Interaction) (st : State)
    (s' : Settings) (msg : jsstring)
    (Hkeys : NoDup ((guildSettings st).*1))
    (Hadmin : Registry.isGuildAdminOrOwner i = true)
    (Hsel : Registry.selection i
              (default (mkSettings [] ∅ None)
                 (Registry.alookup (Registry.guildId i) (guildSettings st)))
            = Some (s', msg))
    (Hreply : replyOk msg = true)
    (Hwrite : forall g s, writeOk g s = true) :
  let r := handler i st in
  r.1 = Returned tt /\
  (forall g s, (g, s) ∈ guildSettings r.2 -> collection r.2 !! g = Some s) /\
  (forall g, g ∉ (guildSettings r.2).*1 ->
             collection r.2 !! g = collection st !! g) /\
  ConsoleError ∉ drop (length (effects st)) (effects r.2).
Proof.
  cbn zeta. rewrite (mongo_handler_effect i st s' msg Hadmin Hsel Hreply).
  unfold tryCatch, saveSettings, bind, gets.
  rewrite upserts_accepted by (apply Forall_forall; intros; apply Hwrite).
  cbn [fst snd guildSettings collection effects].
  assert (Hnd : NoDup ((Registry.aset (Registry.guildId i) s'
                          (guildSettings st)).*1)).
  { rewrite aset_keys. case_decide; [done|].
    apply NoDup_app. split_and!; [done| |apply NoDup_singleton].
    intros x Hx ->%list_elem_of_singleton. done. }
  split_and!; [done| | |].
  - intros g s Hin. by apply upserted_lookup.
  - intros g Hg. by apply upserted_lookup.
  - rewrite <- app_assoc, drop_app_length.
    intros [[=]|Hin]%elem_of_cons.
    apply list_elem_of_fmap in Hin as (e & [=] & _).
Qed.

End MongoFacts.

Section MongoRuns.
Import Notifier Mongo Examples.

(** The upsert of the first guild fails, or no upsert does. *)
Lemma mongo_failed_save_is_logged_witness :
  Registry.isGuildAdminOrOwner pickTwice = true /\
  (fun g _ => negb (bool_decide (g = guild1))) guild1
    (mkSettings [pageThree; pageOne] ∅ (Some channel1)) = false /\
  effects (selectMenuHandler (fun g _ => negb (bool_decide (g = guild1)))
             always pickTwice
             (mkState [(guild1, settings1); (guild2, settings1)] ∅ [])).2
  = [] ++ Reply (str "Pages to monitor updated.")
       :: ((fun e : jsstring * Settings => UpdateOne e.1 true) <$> [])
       ++ [UpdateOne guild1 false; ConsoleError].
Proof.
  split_and!; [done|by vm_compute|].
  apply (mongo_failed_save_is_logged
           (fun g _ => negb (bool_decide (g = guild1))) always pickTwice
           (mkState [(guild1, settings1); (guild2, settings1)] ∅ [])
           (mkSettings [pageThree; pageOne] ∅ (Some channel1))
           (str "Pages to monitor updated.")
           [] [(guild2, settings1)] guild1
           (mkSettings [pageThree; pageOne] ∅ (Some channel1))).
  - done.
  - by vm_compute.
  - done.
  - by vm_compute.
  - constructor.
  - by vm_compute.
Defined.

Lemma mongo_save_stores_every_record_witness :
  NoDup ([(guild1, settings1); (guild2, settings1)].*1) /\
  Registry.isGuildAdminOrOwner pickTwice = true /\
  (forall (g : jsstring) (s : Settings), always g = true) /\
  (selectMenuHandler (fun g _ => always g) always pickTwice
     (mkState [(guild1, settings1); (guild2, settings1)] ∅ [])).1
  = Returned tt.
Proof.
  assert (H1 : NoDup ([(guild1, settings1); (guild2, settings1)].*1))
    by (apply (bool_decide_unpack _); by vm_compute).
  assert (H2 : Registry.selection pickTwice
                 (default (mkSettings [] ∅ None)
                    (Registry.alookup (Registry.guildId pickTwice)
                       [(guild1, settings1); (guild2, settings1)]))
               = Some (mkSettings [pageThree; pageOne] ∅ (Some channel1),
                       str "Pages to monitor updated."))
    by (by vm_compute).
  split_and!; [done..|].
  apply (mongo_save_stores_every_record (fun g _ => always g) always pickTwice
           (mkState [(guild1, settings1); (guild2, settings1)] ∅ [])
           _ _ H1 eq_refl H2 eq_refl (fun _ _ => eq_refl)).
Defined.

End MongoRuns.

(** ** The scraper *)

Section ScraperFacts.
Import Normalize Scraper.

Lemma dropWhileEnd_last p s :
  match last (dropWhileEnd p s) with Some c => p c = false | None => True end.
Proof.
  induction s as [|c s IH]; [done|]. cbn [dropWhileEnd].
  destruct (dropWhileEnd p s) as [|d r] eqn:Hd.
  - destruct (p c) eqn:Hc; cbn; done.
  - exact IH.
Qed.

Lemma trim_ends (s : jsstring) :
  match head (trim s) with
  | Some c => isWhiteSpace c = false | None => True end /\
  match last (trim s) with
  | Some c => isWhiteSpace c = false | None => True end.
Proof.
  split; [|apply dropWhileEnd_last]. unfold trim.
  pose proof (dropWhile_head isWhiteSpace s) as H1.
  pose proof (dropWhileEnd_head isWhiteSpace (dropWhile isWhiteSpace s)) as H2.
  destruct (dropWhile isWhiteSpace s) as [|d r']; [done|].
  destruct (dropWhileEnd isWhiteSpace (d :: r')) as [|c r]; [done|].
  cbn. by subst.
Qed.

Lemma findOption_spec (texts : list jsstring) (label : jsstring) :
  label ∈ map trim texts ->
  exists (i : nat) (text : jsstring),
    findOption texts label = Some i /\ texts !! i = Some text /\
    trim text = label /\
    forall (j : nat) (text' : jsstring),
      (j < i)%nat -> texts !! j = Some text' -> trim text' <> label.
Proof.
  induction texts as [|t texts IH]; cbn [map findOption].
  - by intros ?%elem_of_nil.
  - intros Hin. destruct (decide (trim t = label)) as [Heq|Hne].
    + exists 0%nat, t. split_and!; try done. intros j text' Hj. lia.
    + apply elem_of_cons in Hin as [Heq|Hin]; [done|].
      destruct (IH Hin) as (i & text & Hfind & Hi & Htrim & Hfirst).
      exists (Datatypes.S i), text. rewrite Hfind. split_and!; try done.
      intros [|j] text' Hj Hj'; cbn in Hj'; [by injection Hj' as <-|].
      apply (Hfirst j); [lia|done].
Qed.

(** X27.  The labels [getDropdownItems] returns are not empty and have
    no white space at either end, and each of them is found again by
    [getContentForDropdownItem] as long as the options are the same: the
    option clicked is the first one whose trimmed text is the label, so
    of two options with the same label the second is never opened. *)
Theorem scraped_label_is_found (texts : list jsstring) (label : jsstring)
    (Hlabel : label ∈ optionLabels texts) :
  label <> [] /\
  (exists first last_,
     head label = Some first /\ isWhiteSpace first = false /\
     last label = Some last_ /\ isWhiteSpace last_ = false) /\
  exists (i : nat) (text : jsstring),
    findOption texts label = Some i /\ texts !! i = Some text /\
    trim text = label /\
    forall (j : nat) (text' : jsstring),
      (j < i)%nat -> texts !! j = Some text' -> trim text' <> label.
Proof.
  unfold optionLabels in Hlabel.
  apply list_elem_of_filter in Hlabel as [Hne Hin].
  split; [done|]. split; [|by apply findOption_spec].
  apply list_elem_of_fmap in Hin as (text & -> & _).
  destruct (trim_ends text) as [Hh Hl].
  destruct (trim text) as [|c r] eqn:Ht; [done|].
  destruct (last (c :: r)) as [l|] eqn:Hlast.
  - by exists c, l.
  - by apply last_None in Hlast.
Qed.

End ScraperFacts.

Section ScrapeAllFacts.
Import Scraper.
Context {Page : Type} (launchOk newPageOk closeOk : bool)
        (goto : Page -> Page * bool)
        (getDropdownItems : Page -> Page * option (list jsstring))
        (getContentForDropdownItem : Page -> jsstring -> Page * option jsstring).

Local Abbreviation scrapeAll :=
  (getAllDropdownItemsAndContent Page launchOk newPageOk closeOk goto
     getDropdownItems getContentForDropdownItem).

(** The loop over the items never throws; it adds one truthful entry for
    each item, in order. *)
Lemma scrapeItems_report (items : list jsstring) (st : State Page) :
  exists pg rs,
    forOf items (scrapeItem Page getContentForDropdownItem) st
    = (Returned tt,
       mkState Page pg (results Page st ++ rs) (launched Page st)
               (closed Page st)) /\
    item <$> rs = items /\
    Forall (truthful Page getContentForDropdownItem) rs.
Proof.
  revert st. induction items as [|it items IH]; intros st.
  - exists (page Page st), []. cbn. rewrite app_nil_r.
    split_and!; [by destruct st|done|constructor].
  - rewrite forOf_cons.
    unfold scrapeItem at 1, tryCatch, bind, onPage, push, modify.
    destruct (getContentForDropdownItem (page Page st) it) as [pg [c|]] eqn:Hget.
    + cbn [fst snd page results launched closed].
      destruct (IH (mkState Page pg
                      (results Page st ++ [mkResult it (Some c)])
                      (launched Page st) (closed Page st)))
        as (pg' & rs & Hrun & Hitems & Htrue).
      rewrite Hrun. cbn [results launched closed].
      exists pg', (mkResult it (Some c) :: rs).
      rewrite <- app_assoc. split_and!; [done|by cbn; f_equal|].
      constructor; [|done]. exists (page Page st). cbn. by rewrite Hget.
    + cbn [fst snd page results launched closed].
      destruct (IH (mkState Page pg (results Page st ++ [mkResult it None])
                      (launched Page st) (closed Page st)))
        as (pg' & rs & Hrun & Hitems & Htrue).
      rewrite Hrun. cbn [results launched closed].
      exists pg', (mkResult it None :: rs).
      rewrite <- app_assoc. split_and!; [done|by cbn; f_equal|].
      constructor; [|done]. exists (page Page st). cbn. by rewrite Hget.
Qed.


(** X29.  The browser of [getAllDropdownItemsAndContent] is closed on
    every path behind the [try]: when the launch succeeds and
    [browser.close] works, the function closes the browser it launched
    exactly once whether the form loads or not, whether the items can be
    read or not and whatever fetches fail, except when
    [browser.newPage], which is called before the [try], throws: then the
    browser is left open. *)
Theorem scrape_all_closes_browser (st : State Page)
    (Hlaunch : launchOk = true) (Hclose : closeOk = true) :
  launched Page (scrapeAll st).2 = Datatypes.S (launched Page st) /\
  closed Page (scrapeAll st).2
  = (if newPageOk then Datatypes.S (closed Page st) else closed Page st).
Proof.
  unfold getAllDropdownItemsAndContent, launch, newPage, close.
  rewrite Hlaunch, Hclose.
  unfold bind at 1 2. unfold modify at 1.
  destruct newPageOk; [|done]. unfold ret at 1.
  unfold tryCatch, bind, onPage, modify, throw, gets. cbn.
  destruct (goto (page Page st)) as [pg1 [|]]; cbn; [|done].
  destruct (getDropdownItems pg1) as [pg2 [items|]]; cbn; [|done].
  destruct (scrapeItems_report items
              (mkState Page pg2 [] (Datatypes.S (launched Page st))
                       (closed Page st)))
    as (pg & rs & Hrun & _).
  rewrite Hrun. by cbn.
Qed.

End ScrapeAllFacts.

Section ScraperRuns.
Import Scraper Examples.

Lemma scraped_label_is_found_witness :
  str "Page A" ∈ optionLabels [str "  "; str " Page A "; str "Page A"] /\
  findOption [str "  "; str " Page A "; str "Page A"] (str "Page A")
  = Some 1%nat.
Proof.
  assert (H : str "Page A"
              ∈ optionLabels [str "  "; str " Page A "; str "Page A"])
    by (vm_compute; left).
  split; [done|].
  destruct (scraped_label_is_found _ _ H)
    as (_ & _ & i & text & Hfind & _).
  rewrite Hfind. by vm_compute in Hfind.
Defined.


Lemma scrape_all_closes_browser_witness :
  true = true /\
  closed unit
    (getAllDropdownItemsAndContent unit true true true
       (fun pg => (pg, false)) (fun pg => (pg, Some items3)) fetchFailsTwo
       (mkState unit tt [] 0 0)).2 = 1%nat.
Proof.
  split; [done|].
  apply (scrape_all_closes_browser true true true
           (fun pg : unit => (pg, false))
           (fun pg : unit => (pg, Some items3)) fetchFailsTwo
           (mkState unit tt [] 0 0) eq_refl eq_refl).
Defined.

(** The report for three items the second of which cannot be fetched. *)
Example scrape_all_run :
  (getAllDropdownItemsAndContent unit true true true
     (fun pg => (pg, true)) (fun pg => (pg, Some items3)) fetchFailsTwo
     (mkState unit tt [] 0 0)).1
  = Returned [mkResult pageOne (Some (str "new")); mkResult pageTwo None;
              mkResult pageThree (Some (str "new"))].
Proof. by vm_compute. Qed.

End ScraperRuns.

(** ** From the source to the channel *)

Section Pipeline.
Import Chunking Cache Notifier.
Context {Page : Type}
        (getContentForDropdownItem : Page -> jsstring -> Page * option jsstring)
        (cacheKey : jsstring -> jsstring)
        (writeOk : jsstring -> jsstring -> bool)
        (readOk : jsstring -> bool)
        (guilds : gmap jsstring (gmap jsstring N))
        (sendOk : list SendEvent -> SendEvent -> bool)
        (saveOk : gmap jsstring (gmap jsstring jsstring) -> bool).

Local Abbreviation refresh :=
  (updateAllDropdownCache Page getContentForDropdownItem cacheKey writeOk).



End Pipeline.

Section PipelineRuns.
Import Chunking Cache Notifier Examples.


End PipelineRuns.
